(** * com.rohlik.app: the API client and the polling engine

    A shallow embedding of [lib/RohlikClient.js] and of the polling and
    flow-action code of [drivers/rohlik/device.js] (together with the older
    copy of the device whose general-data tick wraps each sub-fetch in its
    own handler), followed by the properties of the design document that
    are checked against it.

    Conventions of the embedding.
    - JavaScript values are terms of [jsval]; numbers are integers ([Z]),
      which covers status codes, identifiers, counts and minutes.  A number
      read from a text is rounded as a double is ([JS.to_number]).
    - An [async] method is a computation of the monad [M]: a function from
      the [World] to a result (a value or a thrown exception) and the next
      world.  The world holds the client instance, the device instance, the
      host platform's state and the environment (clock, network).
    - The network is a script of fetch outcomes consumed in order; the clock
      advances by durations the environment chooses, which also chooses by
      how much a timer fires late or early and which of two promises that
      both reject does so first.
    - The client methods that the polls and the cart removal use record a
      [Call] event, and every [fetch] a [Fetch] event, in one chronological
      trace; [console.log] output is not modelled. *)

From Stdlib Require Import ZArith String Ascii List Lia Bool DecimalString DecimalPos.
From stdpp Require Import gmap strings.

Local Open Scope Z_scope.

(** ** JavaScript values *)

#[local] Set Warnings "-register-all".

Inductive jsval :=
| JUndefined
| JNull
| JBool (b : bool)
| JNum (n : Z)
| JStr (s : string)
| JArr (items : list jsval)
| JObj (props : list (string * jsval)).

(** Thrown values.  The sources throw plain [Error]s told apart by their
    message; property access on [null]/[undefined] and calls of missing
    methods raise [TypeError]; a rejected [fetch] or an unparsable body
    raises the transport's [FetchError]. *)
Inductive exn :=
| Error (message : string)
| TypeError (message : string)
| FetchError (message : string).

Definition message (e : exn) : string :=
  match e with Error m | TypeError m | FetchError m => m end.

Inductive result (A : Type) :=
| Ok (a : A)
| Throw (e : exn).
Arguments Ok {A} a.
Arguments Throw {A} e.

Module JS.

(** [!!v] *)
Definition truthy (v : jsval) : bool :=
  match v with
  | JUndefined | JNull => false
  | JBool b => b
  | JNum n => negb (n =? 0)
  | JStr s => negb (String.eqb s "")
  | JArr _ | JObj _ => true
  end.

Definition nullish (v : jsval) : bool :=
  match v with JUndefined | JNull => true | _ => false end.

(** [a || b] *)
Definition or (a b : jsval) : jsval := if truthy a then a else b.

Fixpoint assoc (k : string) (props : list (string * jsval)) : jsval :=
  match props with
  | [] => JUndefined
  | (k', v) :: rest => if String.eqb k k' then v else assoc k rest
  end.

(** [v.k] on a value that is neither [null] nor [undefined]: own
    properties of objects; [length] of arrays and strings. *)
Definition prop (v : jsval) (k : string) : jsval :=
  match v with
  | JObj props => assoc k props
  | JArr items => if String.eqb k "length" then JNum (Z.of_nat (length items)) else JUndefined
  | JStr s => if String.eqb k "length" then JNum (Z.of_nat (String.length s)) else JUndefined
  | _ => JUndefined
  end.

(** [v.k]: raises [TypeError] on [null] and [undefined]. *)
Definition get (v : jsval) (k : string) : result jsval :=
  if nullish v
  then Throw (TypeError ("Cannot read properties of null or undefined (reading '" +:+ k +:+ "')"))
  else Ok (prop v k).

(** [v?.k] *)
Definition get_opt (v : jsval) (k : string) : jsval :=
  if nullish v then JUndefined else prop v k.

(** [v[0]] on a value that is neither [null] nor [undefined]. *)
Definition first (v : jsval) : jsval :=
  match v with
  | JArr (x :: _) => x
  | JStr (String c _) => JStr (String c EmptyString)
  | JObj props => assoc "0" props
  | _ => JUndefined
  end.

(** [v?.[0]] *)
Definition first_opt (v : jsval) : jsval :=
  if nullish v then JUndefined else first v.

(** [v.length > 0] *)
Definition nonempty (v : jsval) : bool :=
  match prop v "length" with
  | JNum n => 0 <? n
  | _ => false
  end.

(** [String(n)] for an integer Number [n] below [10^21] in magnitude,
    which is written in plain decimal. *)
Definition string_of_Z (n : Z) : string := NilZero.string_of_int (Z.to_int n).

(** A Number is a double.  Every integer up to [2^53] in magnitude is one;
    a larger integer is one when it has no more than 53 significant bits.
    [round n], for [0 <= n], is the Number nearest to the integer [n], the
    one with the even significand when two are equally near. *)
Definition round (n : Z) : Z :=
  let e := Z.log2 n - 52 in
  if e <=? 0 then n
  else
    let q := Z.shiftr n e in
    let r := Z.land n (Z.ones e) in
    let half := Z.shiftl 1 (e - 1) in
    Z.shiftl (if r <? half then q
              else if half <? r then q + 1
              else if Z.even q then q else q + 1) e.

Definition to_number (n : Z) : Z := if n <? 0 then - round (- n) else round n.

(** The integers whose nearest Number is finite: from [2^1024 - 2^970] on
    it is [Infinity]. *)
Definition finite (n : Z) : bool := Z.abs n <? 2 ^ 1024 - 2 ^ 970.

(** The Number values that come out of a conversion from text. *)
Inductive number :=
| NaN
| Infinity
| Num (n : Z).

(** The Number value of the integer [n]. *)
Definition number_of (n : Z) : number :=
  if finite n then Num (to_number n) else Infinity.

(** One property of [{ ...a, [k]: v }]: a key that is there keeps its place
    and takes the new value, a new key goes to the end. *)
Fixpoint assign (k v : string) (props : list (string * string)) : list (string * string) :=
  match props with
  | [] => [(k, v)]
  | (k', v') :: rest =>
      if String.eqb k k' then (k, v) :: rest else (k', v') :: assign k v rest
  end.

(** [{ ...a, ...b }] on objects whose values are strings. *)
Definition spread (a b : list (string * string)) : list (string * string) :=
  fold_left (fun props kv => assign (fst kv) (snd kv) props) b a.

Fixpoint join (sep : string) (parts : list string) : string :=
  match parts with
  | [] => ""
  | [p] => p
  | p :: rest => p +:+ sep +:+ join sep rest
  end.

(** [String(v)], also the conversion inside template literals. *)
Fixpoint toString (v : jsval) : string :=
  match v with
  | JUndefined => "undefined"
  | JNull => "null"
  | JBool true => "true"
  | JBool false => "false"
  | JNum n => string_of_Z n
  | JStr s => s
  | JArr items =>
      join "," (map (fun x => if nullish x then "" else toString x) items)
  | JObj _ => "[object Object]"
  end.

(** [s === v] for a string [s]. *)
Definition str_eq (s : string) (v : jsval) : bool :=
  match v with JStr s' => String.eqb s s' | _ => false end.

(** [typeof v === 'number'] *)
Definition is_number (v : jsval) : bool :=
  match v with JNum _ => true | _ => false end.

(** [Object.values(v)] for a value that is neither [null] nor [undefined]:
    the property values in enumeration order. *)
Definition values (v : jsval) : list jsval :=
  match v with
  | JObj props => map snd props
  | JArr items => items
  | JStr s => map (fun c => JStr (String c EmptyString)) (list_ascii_of_string s)
  | _ => []
  end.

(** [a !== b] on primitive values; two objects (or arrays) reaching a
    comparison are distinct references, every one of them being freshly
    parsed from a response. *)
Definition strict_eq (a b : jsval) : bool :=
  match a, b with
  | JUndefined, JUndefined => true
  | JNull, JNull => true
  | JBool x, JBool y => Bool.eqb x y
  | JNum x, JNum y => x =? y
  | JStr x, JStr y => String.eqb x y
  | _, _ => false
  end.

Definition primitive (v : jsval) : bool :=
  match v with JArr _ | JObj _ => false | _ => true end.

(** ASCII letters of [String.prototype.toUpperCase]. *)
Definition upper_ascii (c : ascii) : ascii :=
  let n := nat_of_ascii c in
  if (97 <=? n)%nat && (n <=? 122)%nat then ascii_of_nat (n - 32) else c.

Fixpoint toUpperCase (s : string) : string :=
  match s with
  | EmptyString => EmptyString
  | String c t => String (upper_ascii c) (toUpperCase t)
  end.

(** [s.startsWith(p)], returning the remainder. *)
Fixpoint strip_prefix (p s : string) : option string :=
  match p, s with
  | EmptyString, _ => Some s
  | String a p', String b s' => if Ascii.eqb a b then strip_prefix p' s' else None
  | String _ _, EmptyString => None
  end.

(** [s.includes(p)] *)
Fixpoint includes (p s : string) : bool :=
  match strip_prefix p s with
  | Some _ => true
  | None => match s with
            | EmptyString => false
            | String _ t => includes p t
            end
  end.

End JS.

(** ** The world *)

(** The instance fields of [RohlikClient] (RohlikClient.js, constructor). *)
Record RohlikClient := {
  username : jsval;
  password : jsval;
  baseUrl : string;
  sessionCookies : string;
  userId : jsval;
  addressId : jsval;
  lastRequestTime : Z;
  minRequestInterval : Z
}.

(** The second argument of [fetch]. *)
Record request := {
  req_url : string;
  req_method : option string;
  req_headers : list (string * string);
  req_body : option jsval
}.

(** What the client reads of a [fetch] response: [status], [statusText],
    [headers.get('set-cookie')] and the outcome of [json()] ([None] when the
    body is not JSON). *)
Record response := {
  status : Z;
  statusText : string;
  set_cookie : option string;
  json : option jsval
}.

(** [response.ok] *)
Definition ok (r : response) : bool := (200 <=? status r) && (status r <=? 299).

Inductive outcome :=
| Responds (r : response)
| Rejects (e : exn).

(** The methods of the client that the model follows. *)
Inductive operation :=
| Login
| Logout
| GetCartContent
| RemoveFromCart (orderFieldId : jsval)
| GetUpcomingOrders
| GetDeliverySlots
| GetDeliveryAnnouncements
| GetReusableBagsInfo.

Inductive origin := ViaLogin | ViaMakeRequest.

Inductive event :=
| Call (op : operation)
| Fetch (at_time : Z) (via : origin) (rq : request)
| Emit (name : string) (payload : jsval).

(** The environment of the process: the clock behind [Date.now()]; the
    durations of the pauses to come, in ms (for a fetch the time its answer
    takes, for a timer the time by which it fires late, or early when
    negative); the responses the remote service will give; the trace of
    what happened so far; and, for the times when two promises started
    together both reject, whether the first of them does so first. *)
Record Env := {
  clock : Z;
  delays : list Z;
  network : list outcome;
  trace : list event;
  races : list bool
}.

Inductive callback := CbUpdateData | CbUpdateDeliveryStatusOnly.

(** Which device class registered its [reusable_bags] listener on the
    client ([initClient]). *)
Inductive listener := DeviceListener | DeviceCopyListener.

Inductive level := LogInfo | LogError.

(** The device instance and the state the host platform keeps for it. *)
Record Device := {
  capabilities : gmap string jsval;
  sinkAccepts : string -> jsval -> bool;
  writes : list (string * jsval);
  deviceLog : list (level * string * option exn);
  available : bool;
  unavailableMessage : option jsval;
  triggers : list (string * jsval);
  intervals : list (nat * callback * Z);
  nextHandle : nat;
  pollingInterval : option nat;
  deliveryPollingInterval : option nat;
  listening : option listener
}.

Record World := {
  client : RohlikClient;
  env : Env;
  device : Device
}.

Definition with_client (c : RohlikClient) (w : World) : World :=
  {| client := c; env := env w; device := device w |}.
Definition with_env (e : Env) (w : World) : World :=
  {| client := client w; env := e; device := device w |}.
Definition with_device (d : Device) (w : World) : World :=
  {| client := client w; env := env w; device := d |}.

Definition set_sessionCookies (v : string) (c : RohlikClient) : RohlikClient :=
  {| username := username c; password := password c; baseUrl := baseUrl c;
     sessionCookies := v; userId := userId c; addressId := addressId c;
     lastRequestTime := lastRequestTime c; minRequestInterval := minRequestInterval c |}.
Definition set_userId (v : jsval) (c : RohlikClient) : RohlikClient :=
  {| username := username c; password := password c; baseUrl := baseUrl c;
     sessionCookies := sessionCookies c; userId := v; addressId := addressId c;
     lastRequestTime := lastRequestTime c; minRequestInterval := minRequestInterval c |}.
Definition set_addressId (v : jsval) (c : RohlikClient) : RohlikClient :=
  {| username := username c; password := password c; baseUrl := baseUrl c;
     sessionCookies := sessionCookies c; userId := userId c; addressId := v;
     lastRequestTime := lastRequestTime c; minRequestInterval := minRequestInterval c |}.
Definition set_lastRequestTime (v : Z) (c : RohlikClient) : RohlikClient :=
  {| username := username c; password := password c; baseUrl := baseUrl c;
     sessionCookies := sessionCookies c; userId := userId c; addressId := addressId c;
     lastRequestTime := v; minRequestInterval := minRequestInterval c |}.

Definition set_clock (t : Z) (e : Env) : Env :=
  {| clock := t; delays := delays e; network := network e; trace := trace e;
     races := races e |}.
Definition set_delays (d : list Z) (e : Env) : Env :=
  {| clock := clock e; delays := d; network := network e; trace := trace e;
     races := races e |}.
Definition set_network (n : list outcome) (e : Env) : Env :=
  {| clock := clock e; delays := delays e; network := n; trace := trace e;
     races := races e |}.
Definition record (ev : event) (e : Env) : Env :=
  {| clock := clock e; delays := delays e; network := network e; trace := trace e ++ [ev];
     races := races e |}.
Definition set_races (r : list bool) (e : Env) : Env :=
  {| clock := clock e; delays := delays e; network := network e; trace := trace e;
     races := r |}.

(** ** The monad of asynchronous methods *)

Definition M (A : Type) : Type := World -> result A * World.

Definition ret {A} (a : A) : M A := fun w => (Ok a, w).
Definition throw {A} (e : exn) : M A := fun w => (Throw e, w).
Definition bind {A B} (m : M A) (f : A -> M B) : M B :=
  fun w => match m w with
           | (Ok a, w') => f a w'
           | (Throw e, w') => (Throw e, w')
           end.
(** [try { m } catch (e) { h e }] *)
Definition try_catch {A} (m : M A) (h : exn -> M A) : M A :=
  fun w => match m w with
           | (Ok a, w') => (Ok a, w')
           | (Throw e, w') => h e w'
           end.
(** A synchronous expression that may throw. *)
Definition lift {A} (r : result A) : M A := fun w => (r, w).
Definition gets {A} (f : World -> A) : M A := fun w => (Ok (f w), w).
Definition modify (f : World -> World) : M unit := fun w => (Ok tt, f w).
Definition when (b : bool) (m : M unit) : M unit := if b then m else ret tt.

Declare Scope js_scope.
Delimit Scope js_scope with js.
Notation "x <- m ;; k" := (bind m (fun x => k))
  (at level 100, m at next level, right associativity) : js_scope.
Notation "m ;; k" := (bind m (fun _ => k))
  (at level 100, right associativity) : js_scope.
Local Open Scope js_scope.

Fixpoint mapM {A B} (f : A -> result B) (l : list A) : result (list B) :=
  match l with
  | [] => Ok []
  | x :: rest =>
      match f x with
      | Throw e => Throw e
      | Ok y => match mapM f rest with
                | Throw e => Throw e
                | Ok ys => Ok (y :: ys)
                end
      end
  end.

(** ** The host platform (Homey.Device) *)

Module Homey.

Definition on_device (f : Device -> Device) : M unit :=
  modify (fun w => with_device (f (device w)) w).

Definition add_log (entry : level * string * option exn) (d : Device) : Device :=
  {| capabilities := capabilities d; sinkAccepts := sinkAccepts d; writes := writes d;
     deviceLog := deviceLog d ++ [entry]; available := available d;
     unavailableMessage := unavailableMessage d; triggers := triggers d;
     intervals := intervals d; nextHandle := nextHandle d;
     pollingInterval := pollingInterval d;
     deliveryPollingInterval := deliveryPollingInterval d; listening := listening d |}.

(** [this.log(msg)] *)
Definition log (msg : string) : M unit := on_device (add_log (LogInfo, msg, None)).

(** [this.error(msg, err)]; as the handler of a [.catch], [msg] is empty. *)
Definition error (msg : string) (err : exn) : M unit :=
  on_device (add_log (LogError, msg, Some err)).

(** [this.getCapabilityValue(id)]: [null] until a value has been set. *)
Definition getCapabilityValue (capabilityId : string) : M jsval :=
  gets (fun w => default JNull (capabilities (device w) !! capabilityId)).

Definition store (capabilityId : string) (value : jsval) (accepted : bool) (d : Device) : Device :=
  {| capabilities := if accepted then <[capabilityId := value]> (capabilities d)
                     else capabilities d;
     sinkAccepts := sinkAccepts d;
     writes := writes d ++ [(capabilityId, value)];
     deviceLog := deviceLog d; available := available d;
     unavailableMessage := unavailableMessage d; triggers := triggers d;
     intervals := intervals d; nextHandle := nextHandle d;
     pollingInterval := pollingInterval d;
     deliveryPollingInterval := deliveryPollingInterval d; listening := listening d |}.

(** [this.setCapabilityValue(id, value)]: a write to the sink, which the
    host either performs or rejects. *)
Definition setCapabilityValue (capabilityId : string) (value : jsval) : M unit :=
  accepted <- gets (fun w => sinkAccepts (device w) capabilityId value) ;;
  on_device (store capabilityId value accepted) ;;
  if accepted then ret tt
  else throw (Error ("Invalid Capability: " +:+ capabilityId)).

Definition set_availability (a : bool) (msg : option jsval) (d : Device) : Device :=
  {| capabilities := capabilities d; sinkAccepts := sinkAccepts d; writes := writes d;
     deviceLog := deviceLog d; available := a; unavailableMessage := msg;
     triggers := triggers d; intervals := intervals d; nextHandle := nextHandle d;
     pollingInterval := pollingInterval d;
     deliveryPollingInterval := deliveryPollingInterval d; listening := listening d |}.

Definition setAvailable : M unit := on_device (set_availability true None).
Definition setUnavailable (msg : jsval) : M unit :=
  on_device (set_availability false (Some msg)).

Definition add_trigger (card : string) (tokens : jsval) (d : Device) : Device :=
  {| capabilities := capabilities d; sinkAccepts := sinkAccepts d; writes := writes d;
     deviceLog := deviceLog d; available := available d;
     unavailableMessage := unavailableMessage d;
     triggers := triggers d ++ [(card, tokens)];
     intervals := intervals d; nextHandle := nextHandle d;
     pollingInterval := pollingInterval d;
     deliveryPollingInterval := deliveryPollingInterval d; listening := listening d |}.

(** [this.homey.flow.getTriggerCard(card).trigger(this, tokens).catch(this.error)] *)
Definition trigger (card : string) (tokens : jsval) : M unit :=
  on_device (add_trigger card tokens).

Definition set_timers (ivs : list (nat * callback * Z)) (next : nat)
    (general delivery : option nat) (d : Device) : Device :=
  {| capabilities := capabilities d; sinkAccepts := sinkAccepts d; writes := writes d;
     deviceLog := deviceLog d; available := available d;
     unavailableMessage := unavailableMessage d; triggers := triggers d;
     intervals := ivs; nextHandle := next;
     pollingInterval := general; deliveryPollingInterval := delivery;
     listening := listening d |}.

(** The delay [setTimeout] and [setInterval] work with: the host takes a
    delay below 1 or above 2^31-1 as 1. *)
Definition timer_delay (delay : Z) : Z :=
  if (delay <? 1) || (2147483647 <? delay) then 1 else delay.

Definition handle_of (iv : nat * callback * Z) : nat := fst (fst iv).
Definition callback_of (iv : nat * callback * Z) : callback := snd (fst iv).

(** [clearInterval(h)] on the host's table of running intervals. *)
Definition clear (h : nat) (ivs : list (nat * callback * Z)) : list (nat * callback * Z) :=
  List.filter (fun iv => negb (Nat.eqb (handle_of iv) h)) ivs.

End Homey.

(** ** Publishing to a capability sink (device.js, [updateCapabilityValue]) *)

Definition updateCapabilityValue (capabilityId : string) (value : jsval) : M unit :=
  currentValue <- Homey.getCapabilityValue capabilityId ;;
  if negb (JS.strict_eq currentValue value)
  then try_catch (Homey.setCapabilityValue capabilityId value) (Homey.error "")
  else ret tt.

(** The [reusable_bags] listeners installed by [initClient]: device.js
    publishes through [updateCapabilityValue], the second copy of the device
    class writes to the sink directly. *)
Definition on_reusable_bags (l : listener) (count : jsval) : M unit :=
  match l with
  | DeviceListener =>
      Homey.log "Event: Reusable bags count updated:" ;;
      try_catch (updateCapabilityValue "measure_reusable_bags" count) (Homey.error "")
  | DeviceCopyListener =>
      Homey.log "Event: Reusable bags count updated:" ;;
      try_catch (Homey.setCapabilityValue "measure_reusable_bags" count) (Homey.error "")
  end.

(** ** lib/RohlikClient.js *)

Module Client.

Definition COUNTRY_URLS : gmap string string :=
  <["CZ" := "https://www.rohlik.cz"]>
  (<["DE" := "https://www.knuspr.de"]>
  (<["AT" := "https://www.gurkerl.at"]>
  (<["HU" := "https://www.kifli.hu"]>
  (<["RO" := "https://www.sezamo.ro"]> ∅)))).

(** [country?.toUpperCase()] *)
Definition country_key (country : jsval) : result jsval :=
  match country with
  | JUndefined | JNull => Ok JUndefined
  | JStr s => Ok (JStr (JS.toUpperCase s))
  | _ => Throw (TypeError "country?.toUpperCase is not a function")
  end.

(** [new RohlikClient({ username, password, country })] *)
Definition constructor (username password country : jsval) : result RohlikClient :=
  match country_key country with
  | Throw e => Throw e
  | Ok key =>
      Ok {| username := username;
            password := password;
            baseUrl := default (default "" (COUNTRY_URLS !! "CZ"))
                               (COUNTRY_URLS !! JS.toString key);
            sessionCookies := "";
            userId := JNull;
            addressId := JNull;
            lastRequestTime := 0;
            minRequestInterval := 100 |}
  end.

Definition on_client (f : RohlikClient -> RohlikClient) : M unit :=
  modify (fun w => with_client (f (client w)) w).
Definition on_env (f : Env -> Env) : M unit :=
  modify (fun w => with_env (f (env w)) w).

(** Time passing while the method waits for an answer: the next duration
    of the environment's list, none when the list is used up.  The clock
    does not go back. *)
Definition elapse : M unit :=
  on_env (fun e => match delays e with
                   | [] => e
                   | d :: rest => set_clock (clock e + Z.max 0 d) (set_delays rest e)
                   end).

(** [await new Promise(resolve => setTimeout(resolve, delay))].  By the
    clock of [Date.now()] the timer fires about [delay] ms later: the next
    entry of the environment's list is the time by which it is late, or
    early when negative (a timer set for 100 ms is seen to fire after 99). *)
Definition sleep (delay : Z) : M unit :=
  on_env (fun e => match delays e with
                   | [] => set_clock (clock e + Homey.timer_delay delay) e
                   | d :: rest =>
                       set_clock (clock e + Z.max 0 (Homey.timer_delay delay + d))
                                 (set_delays rest e)
                   end).

Definition rateLimit : M unit :=
  now <- gets (fun w => clock (env w)) ;;
  last <- gets (fun w => lastRequestTime (client w)) ;;
  min <- gets (fun w => minRequestInterval (client w)) ;;
  let timeSinceLastRequest := now - last in
  when (timeSinceLastRequest <? min) (sleep (min - timeSinceLastRequest)) ;;
  now' <- gets (fun w => clock (env w)) ;;
  on_client (set_lastRequestTime now').

(** [rateLimit] in the two runs it is made of when it has to wait: up to
    its [await] (lines 27-32), which gives the delay asked of the timer if
    there is one, and from there on (line 34). *)
Definition rateLimit_start : M (option Z) :=
  now <- gets (fun w => clock (env w)) ;;
  last <- gets (fun w => lastRequestTime (client w)) ;;
  min <- gets (fun w => minRequestInterval (client w)) ;;
  let timeSinceLastRequest := now - last in
  if timeSinceLastRequest <? min then ret (Some (min - timeSinceLastRequest))
  else ret None.

Definition rateLimit_resume : M unit :=
  now' <- gets (fun w => clock (env w)) ;;
  on_client (set_lastRequestTime now').

(** [await fetch(url, init)]: the request is dispatched now and answered by
    the next outcome of the network script. *)
Definition fetch (via : origin) (rq : request) : M response :=
  t <- gets (fun w => clock (env w)) ;;
  on_env (record (Fetch t via rq)) ;;
  script <- gets (fun w => network (env w)) ;;
  match script with
  | [] => throw (FetchError "request failed")
  | o :: rest =>
      on_env (set_network rest) ;;
      elapse ;;
      match o with
      | Responds r => ret r
      | Rejects e => throw e
      end
  end.

(** [await response.json()] *)
Definition parse (r : response) : M jsval :=
  match json r with
  | Some v => ret v
  | None => throw (FetchError "invalid json response body")
  end.

(** [this.emit(name, payload)] *)
Definition emit (name : string) (payload : jsval) : M unit :=
  on_env (record (Emit name payload)) ;;
  l <- gets (fun w => listening (device w)) ;;
  match l with
  | Some l => if String.eqb name "reusable_bags" then on_reusable_bags l payload else ret tt
  | None => ret tt
  end.

Definition store_cookies (r : response) : M unit :=
  match set_cookie r with
  | Some setCookieHeader =>
      when (negb (String.eqb setCookieHeader ""))
           (on_client (set_sessionCookies setCookieHeader))
  | None => ret tt
  end.

Definition userAgent : string :=
  "Mozilla/5.0 (Macintosh; Intel Mac OS X 10_15_7) AppleWebKit/537.36".

(** Lines 117-138 of [login]: what is made of the response. *)
Definition read_login (response : response) : M unit :=
  store_cookies response ;;
  data <- parse response ;;
  let isSuccess := (status response =? 200) || (status response =? 202) in
  if negb isSuccess then
    messages <- lift (JS.get data "messages") ;;
    let errorMsg :=
      JS.or (JS.or (JS.get_opt (JS.first_opt messages) "content") (JS.prop data "message"))
            (JStr "Login failed") in
    throw (Error ("Login failed: " +:+ JS.toString errorMsg))
  else
    payload <- lift (JS.get data "data") ;;
    on_client (set_userId (JS.get_opt (JS.get_opt payload "user") "id")) ;;
    on_client (set_addressId (JS.get_opt (JS.get_opt payload "address") "id")) ;;
    id <- gets (fun w => userId (client w)) ;;
    if negb (JS.truthy id) then throw (Error "Login succeeded but no User ID returned.")
    else ret tt.

Definition login : M unit :=
  on_env (record (Call Login)) ;;
  email <- gets (fun w => username (client w)) ;;
  pass <- gets (fun w => password (client w)) ;;
  let loginData := JObj [("email", email); ("password", pass)] in
  rateLimit ;;
  base <- gets (fun w => baseUrl (client w)) ;;
  response <- fetch ViaLogin
    {| req_url := base +:+ "/services/frontend-service/login";
       req_method := Some "POST";
       req_headers := [("Content-Type", "application/json"); ("User-Agent", userAgent)];
       req_body := Some loginData |} ;;
  read_login response.

(** The [options] argument of [makeRequest]. *)
Record options := {
  opt_method : option string;
  opt_headers : list (string * string);
  opt_body : option jsval
}.

Definition no_options : options :=
  {| opt_method := None; opt_headers := []; opt_body := None |}.

Definition auth_failed (r : response) : bool := (status r =? 401) || (status r =? 403).

(** Lines 38-60 of [makeRequest]: pace, build the headers, dispatch, keep
    the cookies of the response. *)
Definition dispatch (url : string) (o : options) : M response :=
  rateLimit ;;
  cookies <- gets (fun w => sessionCookies (client w)) ;;
  let headers :=
    JS.spread
      (JS.spread [("Content-Type", "application/json"); ("User-Agent", userAgent)]
                 (if negb (String.eqb cookies "") then [("Cookie", cookies)] else []))
      (opt_headers o) in
  base <- gets (fun w => baseUrl (client w)) ;;
  response <- fetch ViaMakeRequest
    {| req_url := base +:+ url; req_method := opt_method o;
       req_headers := headers; req_body := opt_body o |} ;;
  store_cookies response ;;
  ret response.

(** Lines 72-87 of [makeRequest]: the answer of a response that is not an
    authentication failure. *)
Definition deliver (url : string) (response : response) : M jsval :=
  if negb (ok response) then
    throw (Error ("HTTP " +:+ JS.string_of_Z (status response) +:+ ": " +:+ statusText response))
  else
    jsonData <- parse response ;;
    when (JS.includes "/api/v1/reusable-bags/user-info" url)
      (inner <- lift (JS.get jsonData "data") ;;
       let bagsData := JS.or inner jsonData in
       when (JS.truthy bagsData && JS.is_number (JS.prop bagsData "current"))
            (emit "reusable_bags" (JS.prop bagsData "current"))) ;;
    ret jsonData.

(** The body of [makeRequest] with its recursive call as a parameter.  The
    [catch] of the source logs to the console and rethrows. *)
Definition makeRequest_body (self : string -> options -> bool -> M jsval)
    (url : string) (o : options) (isRetry : bool) : M jsval :=
  response <- dispatch url o ;;
  if auth_failed response then
    if negb isRetry then
      login ;;
      self url o true
    else throw (Error "Unauthorized after retry")
  else deliver url response.

(** [makeRequest]: the recursive call passes [isRetry = true], and a call
    with [isRetry = true] does not recurse, so two unfoldings of the body
    are the whole function ([makeRequest_unfold]). *)
Definition makeRequest : string -> options -> bool -> M jsval :=
  makeRequest_body (makeRequest_body (fun _ _ _ => throw (Error "unreachable"))).

(** A cart line as [getCartContent] reshapes it. *)
Record CartItem := {
  id : string;
  cart_item_id : string;
  name : jsval;
  quantity : jsval;
  price : jsval;
  pricePerUnit : jsval
}.

Record Cart := {
  totalPrice : jsval;
  totalItems : Z;
  items : list CartItem
}.

Definition removeFromCart (orderFieldId : jsval) : M bool :=
  on_env (record (Call (RemoveFromCart orderFieldId))) ;;
  makeRequest ("/services/frontend-service/v2/cart?orderFieldId=" +:+ JS.toString orderFieldId)
    {| opt_method := Some "DELETE"; opt_headers := []; opt_body := None |} false ;;
  ret true.

Definition cart_item (item : jsval) : result CartItem :=
  match JS.get item "productId" with
  | Throw e => Throw e
  | Ok productId =>
      Ok {| id := JS.toString productId;
            cart_item_id := JS.toString (JS.prop item "orderFieldId");
            name := JS.prop item "productName";
            quantity := JS.prop item "quantity";
            price := JS.prop item "price";
            pricePerUnit := JS.prop item "pricePerUnit" |}
  end.

Definition getCartContent : M Cart :=
  on_env (record (Call GetCartContent)) ;;
  response <- makeRequest "/services/frontend-service/v2/cart" no_options false ;;
  inner <- lift (JS.get response "data") ;;
  let data := JS.or inner (JObj []) in
  items <- lift (mapM cart_item (JS.values (JS.or (JS.prop data "items") (JObj [])))) ;;
  ret {| totalPrice := JS.or (JS.prop data "totalPrice") (JNum 0);
         totalItems := Z.of_nat (length items);
         items := items |}.

Definition getUpcomingOrders : M jsval :=
  on_env (record (Call GetUpcomingOrders)) ;;
  response <- makeRequest "/api/v3/orders/upcoming" no_options false ;;
  inner <- lift (JS.get response "data") ;;
  ret (JS.or inner (JArr [])).

Definition getDeliverySlots : M jsval :=
  on_env (record (Call GetDeliverySlots)) ;;
  uid <- gets (fun w => userId (client w)) ;;
  aid <- gets (fun w => addressId (client w)) ;;
  if negb (JS.truthy uid) || negb (JS.truthy aid) then ret JNull
  else
    let url := "/services/frontend-service/timeslots-api/0?userId=" +:+ JS.toString uid
               +:+ "&addressId=" +:+ JS.toString aid +:+ "&reasonableDeliveryTime=true" in
    response <- makeRequest url no_options false ;;
    lift (JS.get response "data").

Definition logout : M unit :=
  on_env (record (Call Logout)) ;;
  makeRequest "/services/frontend-service/logout"
    {| opt_method := Some "POST"; opt_headers := []; opt_body := None |} false ;;
  on_client (set_sessionCookies "").

Definition getReusableBagsInfo : M jsval :=
  on_env (record (Call GetReusableBagsInfo)) ;;
  response <- makeRequest "/api/v1/reusable-bags/user-info" no_options false ;;
  inner <- lift (JS.get response "data") ;;
  ret (JS.or inner response).

Definition getDeliveryAnnouncements : M jsval :=
  on_env (record (Call GetDeliveryAnnouncements)) ;;
  response <- makeRequest "/services/frontend-service/announcements/delivery" no_options false ;;
  inner <- lift (JS.get response "data") ;;
  ret (JS.or inner response).

End Client.

(** ** The delivery classifier's pattern

    [content.match(/<span[^>]*>(\d+)<\/span>/)]: the first capture of the
    leftmost match.  At a given start the match is forced: [[^>]*] runs to
    the first [>], and [\d+] takes the whole run of digits because the next
    symbol of the pattern is [<]. *)

Module Regex.

Definition is_digit (c : ascii) : bool :=
  let n := nat_of_ascii c in (48 <=? n)%nat && (n <=? 57)%nat.

(** [[^>]*>] *)
Fixpoint skip_attrs (s : string) : option string :=
  match s with
  | EmptyString => None
  | String c t => if Ascii.eqb c ">" then Some t else skip_attrs t
  end.

(** A maximal run of digits and what follows it. *)
Fixpoint take_digits (s : string) : string * string :=
  match s with
  | EmptyString => (EmptyString, EmptyString)
  | String c t =>
      if is_digit c then let (d, r) := take_digits t in (String c d, r)
      else (EmptyString, s)
  end.

(** The pattern anchored at the start of [s]. *)
Definition span_at (s : string) : option string :=
  match JS.strip_prefix "<span" s with
  | None => None
  | Some r =>
      match skip_attrs r with
      | None => None
      | Some r1 =>
          let (d, r2) := take_digits r1 in
          match d, JS.strip_prefix "</span>" r2 with
          | String _ _, Some _ => Some d
          | _, _ => None
          end
      end
  end.

(** [s.match(...)[1]], [None] when [match] returns [null]. *)
Fixpoint span_number (s : string) : option string :=
  match span_at s with
  | Some d => Some d
  | None => match s with
            | EmptyString => None
            | String _ t => span_number t
            end
  end.

Definition digit_value (c : ascii) : Z := Z.of_nat (nat_of_ascii c) - 48.

Fixpoint parse_digits (acc : Z) (s : string) : Z :=
  match s with
  | EmptyString => acc
  | String c t => parse_digits (10 * acc + digit_value c) t
  end.

(** [parseInt(d, 10)] on a run of digits: the Number nearest to the
    integer the digits denote.  (From [2^1024 - 2^970] on that is
    [Infinity], which [Z] does not hold: nothing is stated of runs of 309
    digits and more.) *)
Definition parseInt (d : string) : Z := JS.to_number (parse_digits 0 d).

End Regex.

(** ** drivers/rohlik/device.js *)

Inductive ShipmentState := no_upcoming_order | preparing_bags | delivery.

Definition state_name (s : ShipmentState) : string :=
  match s with
  | no_upcoming_order => "no_upcoming_order"
  | preparing_bags => "preparing_bags"
  | delivery => "delivery"
  end.

(** Which of two promises that both reject does so first: the next choice
    of the environment, the first of the two when it has none left. *)
Definition race : M bool :=
  choices <- gets (fun w => races (env w)) ;;
  match choices with
  | [] => ret true
  | first :: rest => modify (fun w => with_env (set_races rest (env w)) w) ;; ret first
  end.

(** [await Promise.all([a, b])]: both are started and both run to their
    end, also when one of them has failed; the outcome is the failure of
    the one that fails, and of the one that fails first when both do.  The
    effects of the two are taken one after the other here: how their steps
    interleave is not followed, and nothing is stated of the order or the
    pace of the requests of the two. *)
Definition all2 (a b : M unit) : M unit :=
  fun w => match a w with
           | (ra, w1) =>
               match b w1 with
               | (rb, w2) =>
                   match ra, rb with
                   | Ok _, _ => (rb, w2)
                   | Throw ea, Ok _ => (Throw ea, w2)
                   | Throw ea, Throw eb =>
                       (first <- race ;; throw (if first then ea else eb)) w2
                   end
               end
           end.

(** [arr.find(p)] where evaluating [p] may throw. *)
Fixpoint findM (p : jsval -> result bool) (l : list jsval) : result jsval :=
  match l with
  | [] => Ok JUndefined
  | x :: rest =>
      match p x with
      | Throw e => Throw e
      | Ok true => Ok x
      | Ok false => findM p rest
      end
  end.

Module Device.

(** The block shared by [updateGeneralData] (lines 302-320) and
    [updateDeliveryStatusOnly] (lines 207-223): shipment state and ETA from
    the answer of [getDeliveryAnnouncements]. *)
Definition classify (deliveryAnnouncements : jsval) : result (ShipmentState * Z) :=
  let announcements := JS.prop deliveryAnnouncements "announcements" in
  if JS.truthy deliveryAnnouncements && JS.truthy announcements && JS.nonempty announcements
  then
    let announcement := JS.first announcements in
    match JS.get announcement "icon" with
    | Throw e => Throw e
    | Ok icon =>
        if JS.str_eq "iconDeliveryCar" icon then
          let content := JS.prop announcement "content" in
          if JS.truthy content then
            match content with
            | JStr s =>
                match Regex.span_number s with
                | Some d => Ok (delivery, Regex.parseInt d)
                | None => Ok (delivery, 0)
                end
            | _ => Throw (TypeError "announcement.content.match is not a function")
            end
          else Ok (delivery, 0)
        else if JS.str_eq "iconProducts" icon then Ok (preparing_bags, 0)
        else Ok (no_upcoming_order, 0)
    end
  else Ok (no_upcoming_order, 0).

Definition manageDeliveryPolling (status : ShipmentState) : M unit :=
  current <- gets (fun w => deliveryPollingInterval (device w)) ;;
  match status, current with
  | delivery, None =>
      Homey.log "Starting fast delivery polling (1 min)" ;;
      Homey.on_device (fun d =>
        Homey.set_timers (intervals d ++ [(nextHandle d, CbUpdateDeliveryStatusOnly, 60 * 1000)])
                         (S (nextHandle d)) (pollingInterval d) (Some (nextHandle d)) d)
  | delivery, Some _ => ret tt
  | _, Some h =>
      Homey.log "Stopping fast delivery polling" ;;
      Homey.on_device (fun d =>
        Homey.set_timers (Homey.clear h (intervals d)) (nextHandle d) (pollingInterval d) None d)
  | _, None => ret tt
  end.

Definition publish_shipment (shipmentState : ShipmentState) (eta : Z) : M unit :=
  updateCapabilityValue "string_next_delivery_status" (JStr (state_name shipmentState)) ;;
  updateCapabilityValue "measure_next_delivery_eta" (JNum eta) ;;
  manageDeliveryPolling shipmentState.

Definition updateDeliveryStatusOnly : M unit :=
  uid <- gets (fun w => userId (client w)) ;;
  if negb (JS.truthy uid) then ret tt
  else
    try_catch
      (deliveryAnnouncements <- Client.getDeliveryAnnouncements ;;
       derived <- lift (classify deliveryAnnouncements) ;;
       publish_shipment (fst derived) (snd derived))
      (Homey.error "Delivery status update failed:").

(** Step 1 of [updateGeneralData]. *)
Definition general_cart : M unit :=
  cart <- Client.getCartContent ;;
  updateCapabilityValue "measure_cart_total" (Client.totalPrice cart) ;;
  updateCapabilityValue "measure_cart_items" (JNum (Client.totalItems cart)).

(** Step 2: the minutes to the next order are computed and dropped; only
    the reads of [upcoming[0]] can be observed. *)
Definition general_upcoming : M unit :=
  upcoming <- Client.getUpcomingOrders ;;
  if JS.truthy upcoming && JS.nonempty upcoming then
    lift (JS.get (JS.first upcoming) "deliveryUnixTime") ;;
    ret tt
  else ret tt.

(** Step 3. *)
Definition general_delivery : M unit :=
  deliveryAnnouncements <- Client.getDeliveryAnnouncements ;;
  derived <- lift (classify deliveryAnnouncements) ;;
  publish_shipment (fst derived) (snd derived).

(** Step 4. *)
Definition general_bags : M unit :=
  bagsInfo <- Client.getReusableBagsInfo ;;
  when (JS.truthy bagsInfo && JS.is_number (JS.prop bagsInfo "current"))
       (updateCapabilityValue "measure_reusable_bags" (JS.prop bagsInfo "current")).

Definition updateGeneralData : M unit :=
  uid <- gets (fun w => userId (client w)) ;;
  if negb (JS.truthy uid) then ret tt
  else
    general_cart ;;
    general_upcoming ;;
    general_delivery ;;
    general_bags.

(** [v > 0] for a number or a boolean; other operands (numeric strings)
    are taken as not positive. *)
Definition positive (v : jsval) : bool :=
  match v with
  | JNum n => 0 <? n
  | JBool b => b
  | _ => false
  end.

Fixpoint drop_closing (s : string) : string :=
  match s with
  | EmptyString => EmptyString
  | String c EmptyString => if Ascii.eqb c ")" then EmptyString else s
  | String c t => String c (drop_closing t)
  end.

(** [s.replace(/^\(|\)$/g, '')] *)
Definition strip_parens (s : string) : string :=
  match s with
  | String c t => if Ascii.eqb c "(" then drop_closing t else drop_closing s
  | EmptyString => EmptyString
  end.

Definition unavailable : jsval := JStr "Nedostupné".

(** [preselectedSlots.find(s => s.type === kind)] and the text published
    for the slot found. *)
Definition slot_text (kind : string) (slots : list jsval) : result jsval :=
  match findM (fun s => match JS.get s "type" with
                        | Ok t => Ok (JS.str_eq kind t)
                        | Throw e => Throw e
                        end) slots with
  | Throw e => Throw e
  | Ok slot =>
      if JS.truthy slot && JS.truthy (JS.prop slot "subtitle") then
        match JS.prop slot "subtitle" with
        | JStr subtitle => Ok (JStr (strip_parens subtitle))
        | _ => Throw (TypeError "subtitle.replace is not a function")
        end
      else Ok unavailable
  end.

Definition updateSlotsData : M unit :=
  uid <- gets (fun w => userId (client w)) ;;
  if negb (JS.truthy uid) then ret tt
  else
    deliverySlots <- Client.getDeliverySlots ;;
    (if JS.truthy deliverySlots && JS.truthy (JS.prop deliverySlots "expressSlot") then
       let express := JS.prop deliverySlots "expressSlot" in
       let capacity := JS.prop express "timeSlotCapacityDTO" in
       if JS.truthy capacity then
         let isAvailable := positive (JS.prop capacity "totalFreeCapacityPercent") in
         updateCapabilityValue "alarm_slots_available" (JBool isAvailable) ;;
         updateCapabilityValue "delivery_express"
           (JS.or (JS.prop capacity "capacityMessage") (JStr "Unknown"))
       else ret tt
     else
       updateCapabilityValue "alarm_slots_available" (JBool false) ;;
       updateCapabilityValue "delivery_express" unavailable) ;;
    match (if JS.truthy deliverySlots then JS.prop deliverySlots "preselectedSlots"
           else JUndefined) with
    | JArr slots =>
        commonText <- lift (slot_text "FIRST" slots) ;;
        updateCapabilityValue "delivery_common" commonText ;;
        ecoText <- lift (slot_text "ECO" slots) ;;
        updateCapabilityValue "delivery_eco" ecoText
    | _ =>
        updateCapabilityValue "delivery_common" unavailable ;;
        updateCapabilityValue "delivery_eco" unavailable
    end.

(** [err.message || fallback] *)
Definition message_or (fallback : string) (err : exn) : jsval :=
  JS.or (JStr (message err)) (JStr fallback).

Definition updateData : M unit :=
  try_catch
    (all2 updateGeneralData updateSlotsData ;;
     Homey.setAvailable)
    (fun err =>
       Homey.error "Update failed:" err ;;
       Homey.setUnavailable (message_or "Update failed" err) ;;
       Homey.trigger "error_occurred" (JObj [("error", message_or "Unknown error" err)])).

(** [cart.items.find(i => i.id === product_id || i.id === String(product_id))] *)
Definition find_line (product_id : jsval) (items : list Client.CartItem) : option Client.CartItem :=
  List.find (fun i => JS.str_eq (Client.id i) product_id
                      || String.eqb (Client.id i) (JS.toString product_id)) items.

(** [onFlowActionRemoveItemById(args)] with [product_id = args.product_id]. *)
Definition onFlowActionRemoveItemById (product_id : jsval) : M unit :=
  if negb (JS.truthy product_id) then throw (Error "No product ID provided")
  else
    cart <- Client.getCartContent ;;
    match find_line product_id (Client.items cart) with
    | None => throw (Error "Product not found in cart")
    | Some item =>
        Client.removeFromCart (JStr (Client.cart_item_id item)) ;;
        updateData
    end.

(** [onDeleted]: both intervals are cleared, the fields keep their handles. *)
Definition onDeleted : M unit :=
  Homey.on_device (fun d =>
    let ivs := match pollingInterval d with
               | Some h => Homey.clear h (intervals d)
               | None => intervals d
               end in
    let ivs := match deliveryPollingInterval d with
               | Some h => Homey.clear h ivs
               | None => ivs
               end in
    Homey.set_timers ivs (nextHandle d) (pollingInterval d) (deliveryPollingInterval d) d) ;;
  Homey.log "RohlikDevice deleted, intervals cleared".

End Device.

(** ** The second copy of the device class (unnamed/part_000)

    Its general-data tick writes to the sinks directly, has no fast polling,
    derives the shipment state without an ETA, and wraps the announcement
    and bag steps, and then the whole tick, in handlers of their own. *)

Module DeviceCopy.

Section Tick.

(** The courier-approaching block of step 2 (lines 193-216): it compares
    the delivery time of the next order with the wall clock and may fire a
    flow trigger.  No property below depends on what it does. *)
Variable courier_approaching : jsval -> M unit.

Definition classify (deliveryAnnouncements : jsval) : result ShipmentState :=
  let announcements := JS.prop deliveryAnnouncements "announcements" in
  if JS.truthy deliveryAnnouncements && JS.truthy announcements && JS.nonempty announcements
  then
    match JS.get (JS.first announcements) "icon" with
    | Throw e => Throw e
    | Ok icon =>
        if JS.str_eq "iconDeliveryCar" icon then Ok delivery
        else if JS.str_eq "iconProducts" icon then Ok preparing_bags
        else Ok no_upcoming_order
    end
  else Ok no_upcoming_order.

Definition general_cart : M unit :=
  cart <- Client.getCartContent ;;
  Homey.setCapabilityValue "measure_cart_total" (Client.totalPrice cart) ;;
  Homey.setCapabilityValue "measure_cart_items" (JNum (Client.totalItems cart)).

Definition general_upcoming : M unit :=
  upcoming <- Client.getUpcomingOrders ;;
  if JS.truthy upcoming && JS.nonempty upcoming then
    lift (JS.get (JS.first upcoming) "deliveryUnixTime") ;;
    courier_approaching (JS.first upcoming)
  else ret tt.

(** The body of the [try] of step 4. *)
Definition delivery_step : M unit :=
  deliveryAnnouncements <- Client.getDeliveryAnnouncements ;;
  shipmentState <- lift (classify deliveryAnnouncements) ;;
  Homey.setCapabilityValue "string_next_delivery_status" (JStr (state_name shipmentState)).

Definition general_delivery : M unit :=
  try_catch delivery_step (Homey.error "Failed to update delivery status:").

(** The body of the [try] of step 5. *)
Definition bags_step : M unit :=
  bagsInfo <- Client.getReusableBagsInfo ;;
  when (JS.truthy bagsInfo && JS.is_number (JS.prop bagsInfo "current"))
       (Homey.setCapabilityValue "measure_reusable_bags" (JS.prop bagsInfo "current")).

Definition general_bags : M unit :=
  try_catch bags_step (Homey.error "Failed to update reusable bags:").

Definition updateGeneralData : M unit :=
  uid <- gets (fun w => userId (client w)) ;;
  if negb (JS.truthy uid) then ret tt
  else
    try_catch
      (general_cart ;;
       general_upcoming ;;
       general_delivery ;;
       general_bags)
      (Homey.error "Update General Data failed").

End Tick.

End DeviceCopy.

(** * The rest of the client and of the device *)

(** ** Text and objects on the wire

    Library functions the client calls, on strings held as their UTF-8
    bytes: [URLSearchParams.prototype.toString], [parseInt(v, 10)] and
    the assignment [obj[k] = v]. *)

Module Web.

Definition hex_digit (n : nat) : ascii :=
  ascii_of_nat (if (n <? 10)%nat then 48 + n else 55 + n).

(** The bytes the form-urlencoded serializer writes as they are: ASCII
    letters and digits, [*], [-], [.] and [_]. *)
Definition unreserved (c : ascii) : bool :=
  let n := nat_of_ascii c in
  ((48 <=? n)%nat && (n <=? 57)%nat) || ((65 <=? n)%nat && (n <=? 90)%nat)
  || ((97 <=? n)%nat && (n <=? 122)%nat)
  || Nat.eqb n 42 || Nat.eqb n 45 || Nat.eqb n 46 || Nat.eqb n 95.

(** One name or value of the query: a space becomes [+], every other
    reserved byte [%XX]. *)
Fixpoint encode (s : string) : string :=
  match s with
  | EmptyString => EmptyString
  | String c t =>
      if unreserved c then String c (encode t)
      else if Ascii.eqb c " " then String "+" (encode t)
      else
        let n := nat_of_ascii c in
        String "%" (String (hex_digit (n / 16)) (String (hex_digit (n mod 16)) (encode t)))
  end.

(** [`${new URLSearchParams(params)}`] *)
Definition searchParams (params : list (string * string)) : string :=
  JS.join "&" (map (fun p => encode (fst p) +:+ "=" +:+ encode (snd p)) params).

Definition code (c : ascii) : N := N_of_ascii c.

(** The width in bytes of the white space or line terminator that [s]
    starts with, 0 when it starts with none: TAB, LF, VT, FF, CR, SP,
    U+00A0, U+1680, U+2000 to U+200A, U+2028, U+2029, U+202F, U+205F,
    U+3000 and U+FEFF. *)
Definition space_width (s : string) : nat :=
  match s with
  | EmptyString => 0
  | String a t =>
      let a := code a in
      if ((9 <=? a)%N && (a <=? 13)%N) || (a =? 32)%N then 1
      else
        match t with
        | EmptyString => 0
        | String b u =>
            let b := code b in
            if (a =? 194)%N && (b =? 160)%N then 2
            else
              match u with
              | EmptyString => 0
              | String c _ =>
                  let c := code c in
                  if (a =? 225)%N && (b =? 154)%N && (c =? 128)%N then 3
                  else if (a =? 226)%N && (b =? 128)%N
                          && (((128 <=? c)%N && (c <=? 138)%N)
                              || (c =? 168)%N || (c =? 169)%N || (c =? 175)%N) then 3
                  else if (a =? 226)%N && (b =? 129)%N && (c =? 159)%N then 3
                  else if (a =? 227)%N && (b =? 128)%N && (c =? 128)%N then 3
                  else if (a =? 239)%N && (b =? 187)%N && (c =? 191)%N then 3
                  else 0
              end
        end
  end%nat.

Fixpoint drop (n : nat) (s : string) : string :=
  match n, s with
  | S k, String _ t => drop k t
  | _, _ => s
  end.

Fixpoint skip_spaces (fuel : nat) (s : string) : string :=
  match fuel with
  | O => s
  | S k =>
      match space_width s with
      | O => s
      | n => skip_spaces k (drop n s)
      end
  end.

(** The leading white space of [s] removed. *)
Definition trimStart (s : string) : string := skip_spaces (String.length s) s.

(** [parseInt(v, 10)]: [String(v)] without its leading white space, an
    optional sign, then the longest run of decimal digits; [NaN] when
    there is no digit, else the Number value of the integer denoted. *)
Definition parseInt (v : jsval) : JS.number :=
  let s := trimStart (JS.toString v) in
  let signed :=
    match s with
    | String c t =>
        if Ascii.eqb c "-" then (true, t)
        else if Ascii.eqb c "+" then (false, t)
        else (false, s)
    | EmptyString => (false, s)
    end in
  match fst (Regex.take_digits (snd signed)) with
  | EmptyString => JS.NaN
  | d => JS.number_of (if fst signed then - Regex.parse_digits 0 d
                       else Regex.parse_digits 0 d)
  end.

(** [obj[k] = v] on the properties of a plain object. *)
Fixpoint set (k : string) (v : jsval) (props : list (string * jsval)) : list (string * jsval) :=
  match props with
  | [] => [(k, v)]
  | (k', v') :: rest =>
      if String.eqb k k' then (k, v) :: rest else (k', v') :: set k v rest
  end.

End Web.

(** ** lib/RohlikClient.js: the catalogue, the cart and the account

    The methods of this part record no [Call] event; the requests they send
    are on the trace as [Fetch] events. *)

Module Account.

Definition quote : string := String (ascii_of_nat 34) EmptyString.

(** [JSON.stringify({ filters: [] })] *)
Definition filterData : string := "{" +:+ quote +:+ "filters" +:+ quote +:+ ":[]}".

(** A product as [searchProducts] reshapes it. *)
Record Product := {
  id : string;
  name : jsval;
  price : jsval;
  currency : jsval;
  brand : jsval;
  image : jsval
}.

Definition product (p : jsval) : result Product :=
  match JS.get p "productId" with
  | Throw e => Throw e
  | Ok productId =>
      match JS.get (JS.prop p "price") "full" with
      | Throw e => Throw e
      | Ok full =>
          Ok {| id := JS.toString productId;
                name := JS.prop p "productName";
                price := full;
                currency := JS.prop (JS.prop p "price") "currency";
                brand := JS.prop p "brand";
                image := JS.first_opt (JS.prop p "images") |}
      end
  end.

(** The number of elements [arr.slice(0, limit)] keeps of an array of
    [len] elements: a negative [limit] counts from the end. *)
Definition slice_end (len : nat) (limit : Z) : nat :=
  if limit <? 0 then Z.to_nat (Z.max (Z.of_nat len + limit) 0)
  else Z.to_nat (Z.min limit (Z.of_nat len)).

Definition search_path (query : jsval) (limit : Z) : string :=
  "/services/frontend-service/search-metadata?" +:+
  Web.searchParams [("search", JS.toString query); ("offset", "0");
                    ("limit", JS.string_of_Z limit); ("companyId", "1");
                    ("filterData", filterData); ("canCorrect", "true")].

(** [searchProducts(query, limit)]; a caller that gives no [limit] gets 20. *)
Definition searchProducts (query : jsval) (limit : Z) : M (list Product) :=
  response <- Client.makeRequest (search_path query limit) Client.no_options false ;;
  inner <- lift (JS.get response "data") ;;
  let products := JS.or (JS.get_opt inner "productList") (JArr []) in
  match products with
  | JArr l => lift (mapM product (firstn (slice_end (length l) limit) l))
  | JStr _ => throw (TypeError "products.slice(...).map is not a function")
  | _ => throw (TypeError "products.slice is not a function")
  end.

(** The payload of [addToCart] as [JSON.stringify] writes it: [NaN], the
    product id of a text that starts with no number, and [Infinity] are
    written [null]. *)
Definition cart_payload (productId quantity : jsval) : jsval :=
  JObj [("productId", match Web.parseInt productId with
                      | JS.Num n => JNum n
                      | JS.NaN | JS.Infinity => JNull
                      end);
        ("quantity", quantity);
        ("source", JStr "true:Homey")].

(** [addToCart(productId, quantity = 1)] *)
Definition addToCart (productId quantity : jsval) : M bool :=
  let quantity := match quantity with JUndefined => JNum 1 | q => q end in
  Client.makeRequest "/services/frontend-service/v2/cart"
    {| Client.opt_method := Some "POST"; Client.opt_headers := [];
       Client.opt_body := Some (cart_payload productId quantity) |} false ;;
  ret true.

(** [response.data || response] of the answer to a GET of [path]: the body
    of [getOrderHistory], [getDeliveryInfo], [getPremiumInfo],
    [getAnnouncements] and [getOrderDetail], and of each step of
    [getAccountData]. *)
Definition unwrapped (path : string) : M jsval :=
  response <- Client.makeRequest path Client.no_options false ;;
  inner <- lift (JS.get response "data") ;;
  ret (JS.or inner response).

Definition getShoppingList (shoppingListId : jsval) : M jsval :=
  listData <- unwrapped ("/api/v1/shopping-lists/id/" +:+ JS.toString shoppingListId) ;;
  ret (JObj [("name", JS.or (JS.get_opt listData "name") (JStr "Unknown List"));
             ("products", JS.or (JS.get_opt listData "products") (JArr []))]).

(** [getOrderHistory(limit)]; a caller that gives no [limit] gets 50. *)
Definition getOrderHistory (limit : Z) : M jsval :=
  unwrapped ("/api/v3/orders/delivered?offset=0&limit=" +:+ JS.string_of_Z limit).

Definition getDeliveryInfo : M jsval :=
  unwrapped "/services/frontend-service/first-delivery?reasonableDeliveryTime=true".

Definition getPremiumInfo : M jsval :=
  unwrapped "/services/frontend-service/premium/profile".

Definition getAnnouncements : M jsval :=
  unwrapped "/services/frontend-service/announcements/top".

Definition getOrderDetail (orderId : jsval) : M jsval :=
  unwrapped ("/api/v3/orders/" +:+ JS.toString orderId).

(** The [endpoints] table of [getAccountData], in the order of its keys. *)
Definition endpoints : list (string * string) :=
  [("delivery", "/services/frontend-service/first-delivery?reasonableDeliveryTime=true");
   ("next_order", "/api/v3/orders/upcoming");
   ("announcements", "/services/frontend-service/announcements/top");
   ("bags", "/api/v1/reusable-bags/user-info");
   ("timeslot", "/services/frontend-service/v1/timeslot-reservation");
   ("last_order", "/api/v3/orders/delivered?offset=0&limit=1");
   ("premium_profile", "/services/frontend-service/premium/profile");
   ("delivery_announcements", "/services/frontend-service/announcements/delivery");
   ("delivered_orders", "/api/v3/orders/delivered?offset=0&limit=50")].

(** [try { result = await m } catch (error) { result = null }] *)
Definition or_null (m : M jsval) : M jsval := try_catch m (fun _ => ret JNull).

(** The loop over [Object.entries(endpoints)]. *)
Fixpoint collect (eps : list (string * string)) (result : list (string * jsval))
    : M (list (string * jsval)) :=
  match eps with
  | [] => ret result
  | (endpoint, path) :: rest =>
      v <- or_null (unwrapped path) ;;
      collect rest (Web.set endpoint v result)
  end.

Definition item_value (item : Client.CartItem) : jsval :=
  JObj [("id", JStr (Client.id item));
        ("cart_item_id", JStr (Client.cart_item_id item));
        ("name", Client.name item);
        ("quantity", Client.quantity item);
        ("price", Client.price item);
        ("pricePerUnit", Client.pricePerUnit item)].

(** The object [getCartContent] returns. *)
Definition cart_value (cart : Client.Cart) : jsval :=
  JObj [("totalPrice", Client.totalPrice cart);
        ("totalItems", JNum (Client.totalItems cart));
        ("items", JArr (map item_value (Client.items cart)))].

Definition getAccountData : M jsval :=
  result <- collect endpoints [] ;;
  uid <- gets (fun w => userId (client w)) ;;
  aid <- gets (fun w => addressId (client w)) ;;
  slot <- (if JS.truthy uid && JS.truthy aid then
             or_null (unwrapped ("/services/frontend-service/timeslots-api/0?userId="
                                 +:+ JS.toString uid +:+ "&addressId=" +:+ JS.toString aid
                                 +:+ "&reasonableDeliveryTime=true"))
           else ret JNull) ;;
  let result := Web.set "next_delivery_slot" slot result in
  cart <- or_null (cart <- Client.getCartContent ;; ret (cart_value cart)) ;;
  ret (JObj (Web.set "cart" cart result)).

End Account.

(** ** drivers/rohlik/device.js: start-up, settings and the other cards *)

(** [a < b]: exact on two numbers.  What JavaScript makes of the other
    operands (it converts a string, an array or an object to a number that
    need not be an integer) is left to [less_than]; likewise [v * k] for a
    [v] that is not a number is left to [product_of]. *)
Definition lt (less_than : jsval -> jsval -> bool) (a b : jsval) : bool :=
  match a, b with
  | JNum x, JNum y => x <? y
  | _, _ => less_than a b
  end.

Definition times (product_of : jsval -> Z -> Z) (v : jsval) (k : Z) : Z :=
  match v with
  | JNum n => n * k
  | _ => product_of v k
  end.

Module Lifecycle.

Definition with_listener (l : option listener) (d : Device) : Device :=
  {| capabilities := capabilities d; sinkAccepts := sinkAccepts d; writes := writes d;
     deviceLog := deviceLog d; available := available d;
     unavailableMessage := unavailableMessage d; triggers := triggers d;
     intervals := intervals d; nextHandle := nextHandle d;
     pollingInterval := pollingInterval d;
     deliveryPollingInterval := deliveryPollingInterval d; listening := l |}.

(** [this.updateData()] without [await]: the poll is started and its
    promise dropped, so nothing it throws reaches the caller.  The poll
    runs to its end here before the caller goes on; how its steps
    interleave with the caller's is not followed. *)
Definition detached (m : M unit) : M unit := fun w => (Ok tt, snd (m w)).

(** [initClient(settings)]: the listeners of the client in place are
    dropped, a new client is built and the device's listener put on it. *)
Definition initClient (settings : jsval) : M unit :=
  Homey.on_device (with_listener None) ;;
  username <- lift (JS.get settings "username") ;;
  password <- lift (JS.get settings "password") ;;
  country <- lift (JS.get settings "country") ;;
  c <- lift (Client.constructor username password (JS.or country (JStr "CZ"))) ;;
  modify (with_client c) ;;
  Homey.on_device (with_listener (Some DeviceListener)).

Definition connect : M unit :=
  try_catch
    (Client.login ;;
     Homey.setAvailable ;;
     Homey.log "Logged in successfully" ;;
     detached Device.updateData)
    (fun err =>
       Homey.error "Login failed" err ;;
       Homey.setUnavailable (JStr (message err))).

Section Settings.

Variable product_of : jsval -> Z -> Z.

(** [startPolling()], [settings] being what [this.getSettings()] returns. *)
Definition startPolling (settings : jsval) : M unit :=
  Homey.on_device (fun d =>
    match pollingInterval d with
    | Some h => Homey.set_timers (Homey.clear h (intervals d)) (nextHandle d)
                  (pollingInterval d) (deliveryPollingInterval d) d
    | None => d
    end) ;;
  polling_interval <- lift (JS.get settings "polling_interval") ;;
  let intervalMinutes := JS.or polling_interval (JNum 10) in
  Homey.log ("Starting Polling: " +:+ JS.toString intervalMinutes +:+ " min") ;;
  Homey.on_device (fun d =>
    Homey.set_timers
      (intervals d ++ [(nextHandle d, CbUpdateData,
                        Homey.timer_delay (times product_of intervalMinutes 60000))])
      (S (nextHandle d)) (Some (nextHandle d)) (deliveryPollingInterval d) d) ;;
  detached Device.updateData.

(** [changedKeys.some(key => names.includes(key))] *)
Definition mentions (keys : list jsval) (names : list string) : bool :=
  existsb (fun key => existsb (fun n => JS.str_eq n key) names) keys.

(** [onSettings({ oldSettings, newSettings, changedKeys })], [settings]
    being what [this.getSettings()] returns while it runs. *)
Definition onSettings (settings newSettings changedKeys : jsval) : M unit :=
  Homey.log "Settings changed:" ;;
  match changedKeys with
  | JArr keys =>
      when (mentions keys ["polling_interval"])
        (Homey.log "Polling interval changed, restarting timer..." ;;
         startPolling settings) ;;
      when (mentions keys ["username"; "password"; "region"])
        (Homey.log "Login credentials or region changed, performing re-login..." ;;
         try_catch Client.logout
           (fun _ => Homey.log "Logout failed (may not have been logged in):") ;;
         username <- lift (JS.get newSettings "username") ;;
         password <- lift (JS.get newSettings "password") ;;
         region <- lift (JS.get newSettings "region") ;;
         initClient (JObj [("username", username); ("password", password);
                           ("country", JS.or region (JStr "cz"))]) ;;
         connect) ;;
      when (mentions keys ["enable_logging"])
        (lift (JS.get newSettings "enable_logging") ;;
         Homey.log "Debug logging is now:")
  | _ =>
      lift (JS.get changedKeys "some") ;;
      throw (TypeError "changedKeys.some is not a function")
  end.

(** [onInit()]: the registrations of the flow cards, whose listeners are
    the [onFlow...] methods, leave no trace in the world. *)
Definition onInit (settings : jsval) : M unit :=
  Homey.log "RohlikDevice has been initialized" ;;
  initClient settings ;;
  connect ;;
  startPolling settings.

End Settings.

End Lifecycle.

Module Cards.

Definition suggestion (p : Account.Product) : jsval :=
  JObj [("name", Account.name p);
        ("description", JStr (JS.toString (Account.price p) +:+ " "
                              +:+ JS.toString (Account.currency p) +:+ " ("
                              +:+ JS.toString (Account.brand p) +:+ ")"));
        ("id", JStr (Account.id p))].

Definition onFlowActionAddItemAutocomplete (query : jsval) : M (list jsval) :=
  if negb (JS.truthy query) then ret []
  else
    try_catch
      (results <- Account.searchProducts query 20 ;;
       ret (map suggestion results))
      (fun err => Homey.error "" err ;; ret []).

Section Pieces.

Variable less_than : jsval -> jsval -> bool.

(** [args.pieces && args.pieces > 0 ? args.pieces : 1] *)
Definition quantity_of (pieces : jsval) : jsval :=
  if JS.truthy pieces && lt less_than (JNum 0) pieces then pieces else JNum 1.

Definition onFlowActionAddItem (args : jsval) : M unit :=
  product <- lift (JS.get args "product") ;;
  if negb (JS.truthy product) || negb (JS.truthy (JS.prop product "id"))
  then throw (Error "No product selected")
  else
    Account.addToCart (JS.prop product "id") (quantity_of (JS.prop args "pieces")) ;;
    Device.updateData.

Definition onFlowActionAddItemById (args : jsval) : M unit :=
  product_id <- lift (JS.get args "product_id") ;;
  if negb (JS.truthy product_id) then throw (Error "No product ID provided")
  else
    Account.addToCart product_id (quantity_of (JS.prop args "pieces")) ;;
    Device.updateData.


End Pieces.

Definition onFlowActionRemoveItem (args : jsval) : M unit :=
  product_in_cart <- lift (JS.get args "product_in_cart") ;;
  if negb (JS.truthy product_in_cart) || negb (JS.truthy (JS.prop product_in_cart "id"))
  then throw (Error "No item selected")
  else
    Client.removeFromCart (JS.prop product_in_cart "id") ;;
    Device.updateData.

Definition onFlowActionGetProductId (args : jsval) : M jsval :=
  product <- lift (JS.get args "product") ;;
  if negb (JS.truthy product) || negb (JS.truthy (JS.prop product "id"))
  then throw (Error "No product selected")
  else ret (JObj [("product_id", JStr (JS.toString (JS.prop product "id")))]).

(** One line of the text of [onFlowActionGetCartContent]. *)
Definition line_text (item : Client.CartItem) : string :=
  JS.toString (Client.name item) +:+ ", " +:+ JS.toString (Client.quantity item)
  +:+ " ks, " +:+ JS.toString (JS.or (Client.pricePerUnit item) (Client.price item))
  +:+ " Kč".

Definition onFlowActionGetCartContent : M jsval :=
  cart <- Client.getCartContent ;;
  match Client.items cart with
  | [] => ret (JObj [("cart_content", JStr "Košík je prázdný")])
  | items => ret (JObj [("cart_content", JStr (JS.join "; " (map line_text items)))])
  end.


Definition onFlowConditionExpressSlotsAvailable : M bool :=
  value <- Homey.getCapabilityValue "alarm_slots_available" ;;
  ret (JS.strict_eq value (JBool true)).

End Cards.

(** * Properties *)

(** ** Region selection (constructor) *)

Module Region.

Definition all_ascii : list ascii := List.map ascii_of_nat (seq 0 256).

Lemma all_ascii_complete (a : ascii) : In a all_ascii.
Proof.
  unfold all_ascii. rewrite <- (ascii_nat_embedding a).
  apply in_map, in_seq. pose proof (nat_ascii_bounded a). lia.
Qed.

Lemma ascii_forall (P : ascii -> bool) :
  forallb P all_ascii = true -> forall a, P a = true.
Proof. intros H a. rewrite forallb_forall in H. apply H, all_ascii_complete. Qed.

Definition is_upper (c : ascii) : bool :=
  let n := nat_of_ascii c in (65 <=? n)%nat && (n <=? 90)%nat.
Definition is_lower (c : ascii) : bool :=
  let n := nat_of_ascii c in (97 <=? n)%nat && (n <=? 122)%nat.

(** Two characters that are equal, or the two cases of one ASCII letter. *)
Definition same_letter (a b : ascii) : bool :=
  Ascii.eqb a b
  || (is_lower a && is_upper b && Nat.eqb (nat_of_ascii a) (nat_of_ascii b + 32))
  || (is_upper a && is_lower b && Nat.eqb (nat_of_ascii a + 32) (nat_of_ascii b)).

(** Equality of region codes up to the case of their letters. *)
Fixpoint ci_eqb (a b : string) : bool :=
  match a, b with
  | EmptyString, EmptyString => true
  | String x a', String y b' => same_letter x y && ci_eqb a' b'
  | _, _ => false
  end.

Fixpoint all_upper (s : string) : bool :=
  match s with
  | EmptyString => true
  | String c t => is_upper c && all_upper t
  end.

(** The supported region codes and their mirror domains. *)
Definition mirror_for (code : string) : option string :=
  if ci_eqb code "CZ" then Some "https://www.rohlik.cz"
  else if ci_eqb code "DE" then Some "https://www.knuspr.de"
  else if ci_eqb code "AT" then Some "https://www.gurkerl.at"
  else if ci_eqb code "HU" then Some "https://www.kifli.hu"
  else if ci_eqb code "RO" then Some "https://www.sezamo.ro"
  else None.

Lemma same_letter_upper (a b : ascii) :
  is_upper b = true -> same_letter a b = Ascii.eqb (JS.upper_ascii a) b.
Proof.
  assert (H : forall x y, implb (is_upper y)
                (Bool.eqb (same_letter x y) (Ascii.eqb (JS.upper_ascii x) y)) = true).
  { intros x. apply ascii_forall. revert x. apply ascii_forall. vm_compute. reflexivity. }
  intros Hb. specialize (H a b). rewrite Hb in H. simpl in H.
  apply eqb_prop in H. exact H.
Qed.

Lemma ci_eqb_upper (s k : string) :
  all_upper k = true -> ci_eqb s k = String.eqb (JS.toUpperCase s) k.
Proof.
  revert k. induction s as [|c s IH]; intros [|d k]; simpl; try reflexivity.
  intros H. apply andb_prop in H as [Hd Hk].
  rewrite same_letter_upper by exact Hd. rewrite IH by exact Hk.
  reflexivity.
Qed.

Lemma lookup_country (s : string) :
  Client.COUNTRY_URLS !! JS.toUpperCase s = mirror_for s.
Proof.
  unfold mirror_for. rewrite !ci_eqb_upper by reflexivity.
  unfold Client.COUNTRY_URLS.
  repeat match goal with
  | |- context [String.eqb ?a ?b] =>
      destruct (String.eqb_spec a b) as [Heq|?];
      [ rewrite Heq; reflexivity | rewrite lookup_insert_ne by congruence ]
  end.
  apply lookup_empty.
Qed.

(** C10.  The constructor never fails on an absent country or on a country
    given as a string; an absent country and a code outside CZ, DE, AT, HU,
    RO (compared without regard to case) give the CZ base URL, a code of
    the set gives its own mirror domain. *)
Theorem constructor_selects_region (username password : jsval) :
  (exists c, Client.constructor username password JUndefined = Ok c
             /\ baseUrl c = "https://www.rohlik.cz")
  /\ (exists c, Client.constructor username password JNull = Ok c
                /\ baseUrl c = "https://www.rohlik.cz")
  /\ forall code : string,
       exists c, Client.constructor username password (JStr code) = Ok c
                 /\ baseUrl c = match mirror_for code with
                                | Some domain => domain
                                | None => "https://www.rohlik.cz"
                                end.
Proof.
  split; [|split].
  - eexists. split; reflexivity.
  - eexists. split; reflexivity.
  - intros code. eexists. split; [reflexivity|].
    simpl. rewrite lookup_country. destruct (mirror_for code); reflexivity.
Qed.

End Region.

(** ** The delivery classifier *)

Module Numeral.
Import Regex.

Fixpoint no_gt (s : string) : bool :=
  match s with
  | EmptyString => true
  | String c t => negb (Ascii.eqb c ">") && no_gt t
  end.

Fixpoint all_digits (s : string) : bool :=
  match s with
  | EmptyString => true
  | String c t => is_digit c && all_digits t
  end.

(** An occurrence in [s] of an inline tag [<span ...>] whose whole body is
    the non-empty run of digits [d], [pre] being what precedes the tag. *)
Definition Occurs (pre attrs d post s : string) : Prop :=
  s = pre +:+ "<span" +:+ attrs +:+ ">" +:+ d +:+ "</span>" +:+ post
  /\ no_gt attrs = true /\ all_digits d = true /\ d <> "".

(** [d] is the numeral of the leftmost such tag of [s]. *)
Definition FirstNumeral (s d : string) : Prop :=
  exists pre attrs post,
    Occurs pre attrs d post s
    /\ forall pre' attrs' d' post',
         Occurs pre' attrs' d' post' s -> (String.length pre <= String.length pre')%nat.

Definition NoNumeral (s : string) : Prop :=
  forall pre attrs d post, ~ Occurs pre attrs d post s.

(** The number a run of digits denotes. *)
Fixpoint decimal (d : string) : Z :=
  match d with
  | EmptyString => 0
  | String c t => digit_value c * 10 ^ Z.of_nat (String.length t) + decimal t
  end.

Lemma strip_prefix_app (p r : string) : JS.strip_prefix p (p +:+ r) = Some r.
Proof.
  induction p as [|c p IH]; simpl; [destruct r; reflexivity|].
  rewrite Ascii.eqb_refl. exact IH.
Qed.

Lemma strip_prefix_sound (p s r : string) : JS.strip_prefix p s = Some r -> s = p +:+ r.
Proof.
  revert s. induction p as [|c p IH]; intros s; simpl.
  - destruct s; intros [= <-]; reflexivity.
  - destruct s as [|b s]; [discriminate|].
    destruct (Ascii.eqb_spec c b) as [->|]; [|discriminate].
    intros H. apply IH in H. now subst.
Qed.

Lemma skip_attrs_app (attrs r : string) :
  no_gt attrs = true -> skip_attrs (attrs +:+ String ">" r) = Some r.
Proof.
  induction attrs as [|c a IH]; simpl; [reflexivity|].
  intros H. apply andb_prop in H as [Hc Ha].
  destruct (Ascii.eqb c ">"); [discriminate|]. auto.
Qed.

Lemma skip_attrs_sound (s r : string) :
  skip_attrs s = Some r -> exists attrs, s = attrs +:+ String ">" r /\ no_gt attrs = true.
Proof.
  induction s as [|c s IH]; simpl; [discriminate|].
  destruct (Ascii.eqb_spec c ">") as [->|Hc].
  - intros [= <-]. exists EmptyString. split; reflexivity.
  - intros H. destruct (IH H) as (a & -> & Ha).
    exists (String c a). split; [reflexivity|]. simpl. rewrite Ha.
    destruct (Ascii.eqb_spec c ">"); [contradiction|reflexivity].
Qed.

Lemma take_digits_app (d r : string) :
  all_digits d = true ->
  match r with EmptyString => True | String c _ => is_digit c = false end ->
  take_digits (d +:+ r) = (d, r).
Proof.
  intros Hd Hr. induction d as [|c d IH]; simpl in *.
  - destruct r as [|c r]; [reflexivity|]. simpl. rewrite Hr. reflexivity.
  - apply andb_prop in Hd as [Hc Hd]. rewrite Hc, (IH Hd). reflexivity.
Qed.

Lemma take_digits_sound (s d r : string) :
  take_digits s = (d, r) -> s = d +:+ r /\ all_digits d = true.
Proof.
  revert d r. induction s as [|c s IH]; simpl; intros d r.
  - intros [= <- <-]. split; reflexivity.
  - destruct (is_digit c) eqn:Hc.
    + destruct (take_digits s) as [d' r'] eqn:E. intros [= <- <-].
      destruct (IH _ _ eq_refl) as [-> Hd]. simpl. rewrite Hc, Hd. split; reflexivity.
    + intros [= <- <-]. split; reflexivity.
Qed.

Lemma span_at_complete (attrs d post : string) :
  Occurs "" attrs d post ("<span" +:+ attrs +:+ ">" +:+ d +:+ "</span>" +:+ post) ->
  span_at ("<span" +:+ attrs +:+ ">" +:+ d +:+ "</span>" +:+ post) = Some d.
Proof.
  intros (_ & Ha & Hd & Hne). unfold span_at.
  rewrite strip_prefix_app.
  change (">" +:+ d +:+ "</span>" +:+ post) with (String ">" (d +:+ "</span>" +:+ post)).
  rewrite (skip_attrs_app _ _ Ha).
  rewrite (take_digits_app d ("</span>" +:+ post) Hd) by reflexivity.
  destruct d; [contradiction|].
  rewrite strip_prefix_app. reflexivity.
Qed.

Lemma span_at_iff (s d : string) :
  span_at s = Some d <-> exists attrs post, Occurs "" attrs d post s.
Proof.
  split.
  - unfold span_at. destruct (JS.strip_prefix "<span" s) as [r|] eqn:E1; [|discriminate].
    destruct (skip_attrs r) as [r1|] eqn:E2; [|discriminate].
    destruct (take_digits r1) as [d' r2] eqn:E3.
    destruct d' as [|c d']; [discriminate|].
    destruct (JS.strip_prefix "</span>" r2) as [post|] eqn:E4; [|discriminate].
    intros [= <-].
    apply strip_prefix_sound in E1. apply skip_attrs_sound in E2 as (attrs & -> & Ha).
    apply take_digits_sound in E3 as [-> Hd]. apply strip_prefix_sound in E4. subst.
    exists attrs, post. repeat split; [exact Ha | exact Hd | discriminate].
  - intros (attrs & post & H). pose proof H as (-> & _). now apply span_at_complete.
Qed.

Lemma occurs_shift (c : ascii) (pre attrs d post s : string) :
  Occurs (String c pre) attrs d post (String c s) <-> Occurs pre attrs d post s.
Proof.
  unfold Occurs. simpl. split; intros (H & ?); repeat split; try tauto.
  - now injection H.
  - now rewrite H.
Qed.

Lemma occurs_head (c c' : ascii) (pre attrs d post s : string) :
  Occurs (String c pre) attrs d post (String c' s) -> c = c'.
Proof. intros (H & _). simpl in H. now injection H. Qed.

Lemma span_number_some (s d : string) :
  span_number s = Some d -> FirstNumeral s d.
Proof.
  induction s as [|c s IH]; simpl.
  - destruct (span_at "") eqn:E; [|discriminate]. discriminate.
  - destruct (span_at (String c s)) as [d0|] eqn:E.
    + intros [= <-]. apply span_at_iff in E as (attrs & post & H).
      exists "", attrs, post. split; [exact H|]. intros; simpl; lia.
    + intros H. destruct (IH H) as (pre & attrs & post & Ho & Hmin).
      exists (String c pre), attrs, post. split; [apply (proj2 (occurs_shift _ _ _ _ _ _)); exact Ho|].
      intros [|c' pre'] attrs' d' post' Ho'.
      * exfalso. assert (span_at (String c s) = Some d') as E'
          by (apply span_at_iff; eauto). congruence.
      * pose proof (occurs_head _ _ _ _ _ _ _ Ho') as ->.
        apply (proj1 (occurs_shift _ _ _ _ _ _)) in Ho'. apply Hmin in Ho'. simpl. lia.
Qed.

Lemma span_number_none (s : string) :
  span_number s = None -> NoNumeral s.
Proof.
  induction s as [|c s IH]; simpl.
  - intros _ pre attrs d post (H & _). destruct pre; discriminate.
  - destruct (span_at (String c s)) as [d0|] eqn:E; [discriminate|].
    intros H [|c' pre] attrs d post Ho.
    + assert (span_at (String c s) = Some d) by (apply span_at_iff; eauto). congruence.
    + pose proof (occurs_head _ _ _ _ _ _ _ Ho) as ->.
      apply (proj1 (occurs_shift _ _ _ _ _ _)) in Ho. exact (IH H _ _ _ _ Ho).
Qed.

Lemma parse_digits_decimal (acc : Z) (d : string) :
  parse_digits acc d = acc * 10 ^ Z.of_nat (String.length d) + decimal d.
Proof.
  revert acc. induction d as [|c d IH]; intros acc; simpl decimal; simpl parse_digits.
  - simpl. lia.
  - rewrite IH. change (String.length (String c d)) with (S (String.length d)).
    rewrite Nat2Z.inj_succ, Z.pow_succ_r by lia. lia.
Qed.

Lemma first_numeral_found (s d : string) :
  FirstNumeral s d -> span_number s = Some d.
Proof.
  induction s as [|c s IH]; intros (pre & attrs & post & Ho & Hmin).
  - destruct Ho as (H & _). destruct pre; discriminate.
  - simpl. destruct (span_at (String c s)) as [d0|] eqn:E.
    + pose proof E as E0. apply span_at_iff in E0 as (attrs0 & post0 & H0).
      apply Hmin in H0. destruct pre; [|simpl in H0; lia].
      assert (span_at (String c s) = Some d) by (apply span_at_iff; eauto).
      congruence.
    + destruct pre as [|c' pre].
      * assert (span_at (String c s) = Some d) by (apply span_at_iff; eauto).
        congruence.
      * pose proof (occurs_head _ _ _ _ _ _ _ Ho) as ->.
        apply IH. exists pre, attrs, post.
        split; [exact (proj1 (occurs_shift _ _ _ _ _ _) Ho)|].
        intros pre' attrs' d' post' Ho'.
        apply (proj2 (occurs_shift c _ _ _ _ _)) in Ho'.
        apply Hmin in Ho'. simpl in Ho'. lia.
Qed.

Lemma no_numeral_found (s : string) : NoNumeral s -> span_number s = None.
Proof.
  intros H. destruct (span_number s) as [d|] eqn:E; [|reflexivity].
  apply span_number_some in E as (pre & attrs & post & Ho & _).
  destruct (H _ _ _ _ Ho).
Qed.

Lemma parseInt_decimal (d : string) : parseInt d = JS.to_number (decimal d).
Proof. unfold parseInt. rewrite parse_digits_decimal. f_equal; lia. Qed.

(** The integers up to [2^53] are Numbers. *)
Lemma round_exact (n : Z) : 0 <= n <= 2 ^ 53 -> JS.round n = n.
Proof.
  intros [H0 H1]. destruct (Z.eq_dec n (2 ^ 53)) as [->|Hne]; [reflexivity|].
  unfold JS.round.
  assert (He : Z.log2 n - 52 <= 0).
  { destruct (Z.eq_dec n 0) as [->|Hz]; [simpl; lia|].
    assert (Z.log2 n < 53) by (apply Z.log2_lt_pow2; lia). lia. }
  destruct (Z.leb_spec (Z.log2 n - 52) 0); [reflexivity|lia].
Qed.

Lemma to_number_exact (n : Z) : Z.abs n <= 2 ^ 53 -> JS.to_number n = n.
Proof.
  intros H. unfold JS.to_number. destruct (Z.ltb_spec n 0).
  - rewrite round_exact by lia. lia.
  - apply round_exact. lia.
Qed.

Lemma decimal_nonneg (d : string) : all_digits d = true -> 0 <= decimal d.
Proof.
  induction d as [|c d IH]; simpl; [lia|].
  intros H. apply andb_prop in H as [Hc Hd]. specialize (IH Hd).
  assert (0 <= digit_value c).
  { unfold is_digit in Hc. unfold digit_value.
    apply andb_prop in Hc as [Hc _]. apply Nat.leb_le in Hc. lia. }
  assert (0 <= 10 ^ Z.of_nat (String.length d)) by (apply Z.pow_nonneg; lia).
  nia.
Qed.

End Numeral.

Module Classifier.
Import Numeral.

Lemma announcements_object (da : jsval) (anns : list jsval) :
  JS.prop da "announcements" = JArr anns -> JS.truthy da = true.
Proof. destruct da; simpl; try discriminate; reflexivity. Qed.

Lemma classify_cons (da a : jsval) (rest : list jsval) :
  JS.prop da "announcements" = JArr (a :: rest) ->
  Device.classify da =
  match JS.get a "icon" with
  | Throw e => Throw e
  | Ok icon =>
      if JS.str_eq "iconDeliveryCar" icon then
        let content := JS.prop a "content" in
        if JS.truthy content then
          match content with
          | JStr s => match Regex.span_number s with
                      | Some d => Ok (delivery, Regex.parseInt d)
                      | None => Ok (delivery, 0)
                      end
          | _ => Throw (TypeError "announcement.content.match is not a function")
          end
        else Ok (delivery, 0)
      else if JS.str_eq "iconProducts" icon then Ok (preparing_bags, 0)
      else Ok (no_upcoming_order, 0)
  end.
Proof.
  intros H. unfold Device.classify.
  rewrite (announcements_object _ _ H), H. reflexivity.
Qed.

(** C2, as the code has it.  For the answer [da] of the announcement
    endpoint holding the list [anns]: an empty list gives
    [no_upcoming_order] and ETA 0; only the first announcement counts; when
    it is an object, the icon [iconDeliveryCar] gives [delivery], with the
    ETA read by [parseInt] from the digits of the leftmost
    [<span ...>digits</span>] of its content, and 0 when the content has no
    such tag or is absent or empty; the icon [iconProducts] gives
    [preparing_bags] and ETA 0; any other icon gives [no_upcoming_order]
    and ETA 0.  The ETA read from the digits is a Number: the number the
    digits denote when that is at most [2^53], and the double nearest to
    it beyond (stated for the digits whose nearest double is finite). *)
Theorem classify_first_announcement (da : jsval) (anns : list jsval) :
  JS.prop da "announcements" = JArr anns ->
  (anns = [] -> Device.classify da = Ok (no_upcoming_order, 0))
  /\ (forall a rest, anns = a :: rest ->
        Device.classify da = Device.classify (JObj [("announcements", JArr [a])]))
  /\ (forall props rest, anns = JObj props :: rest ->
        let icon := JS.assoc "icon" props in
        let content := JS.assoc "content" props in
        (icon = JStr "iconDeliveryCar" ->
           (forall s d, content = JStr s -> FirstNumeral s d ->
              JS.finite (decimal d) = true ->
              Device.classify da = Ok (delivery, JS.to_number (decimal d))
              /\ (decimal d <= 2 ^ 53 -> JS.to_number (decimal d) = decimal d))
           /\ (forall s, content = JStr s -> NoNumeral s ->
                 Device.classify da = Ok (delivery, 0))
           /\ (JS.truthy content = false -> Device.classify da = Ok (delivery, 0)))
        /\ (icon = JStr "iconProducts" ->
              Device.classify da = Ok (preparing_bags, 0))
        /\ (JS.str_eq "iconDeliveryCar" icon = false ->
            JS.str_eq "iconProducts" icon = false ->
              Device.classify da = Ok (no_upcoming_order, 0))).
Proof.
  intros Hda. split; [|split].
  - intros ->. unfold Device.classify.
    rewrite (announcements_object _ _ Hda), Hda. reflexivity.
  - intros a rest ->. rewrite (classify_cons _ _ _ Hda).
    symmetry. apply (classify_cons _ a []). reflexivity.
  - intros props rest -> icon content. subst icon content.
    rewrite (classify_cons _ _ _ Hda).
    change (JS.get (JObj props) "icon") with (Ok (JS.assoc "icon" props)).
    change (JS.prop (JObj props) "content") with (JS.assoc "content" props).
    cbv iota zeta. split; [|split].
    + intros Hi. rewrite Hi. simpl JS.str_eq. cbv iota zeta. split; [|split].
      * intros s d Hc Hd _. split.
        -- rewrite Hc.
           rewrite (first_numeral_found _ _ Hd), parseInt_decimal.
           destruct (JS.truthy (JStr s)) eqn:Ht; [reflexivity|].
           destruct Hd as (pre & attrs & post & (Hs & _) & _).
           rewrite Hs in Ht. destruct pre; discriminate.
        -- intros Hle. apply to_number_exact.
           destruct Hd as (pre & attrs & post & (_ & _ & Hdig & _) & _).
           pose proof (decimal_nonneg d Hdig). lia.
      * intros s Hc Hs. rewrite Hc. rewrite (no_numeral_found _ Hs).
        destruct (JS.truthy (JStr s)); reflexivity.
      * intros Ht. rewrite Ht. reflexivity.
    + intros Hi. rewrite Hi. reflexivity.
    + intros H1 H2. rewrite H1, H2. reflexivity.
Qed.

Definition seven_minutes : jsval :=
  JObj [("announcements",
         JArr [JObj [("icon", JStr "iconDeliveryCar");
                     ("content", JStr "<span>7</span>")]])].

Lemma classify_seven_minutes :
  Device.classify seven_minutes = Ok (delivery, 7).
Proof.
  destruct (classify_first_announcement seven_minutes _ eq_refl) as (_ & _ & H).
  destruct (H _ _ eq_refl) as (Hcar & _).
  destruct (Hcar eq_refl) as (Hnum & _).
  exact (proj1 (Hnum "<span>7</span>" "7" eq_refl
                  (span_number_some "<span>7</span>" "7" eq_refl) eq_refl)).
Defined.

(** An ETA of [2^53 + 1] minutes is not a Number: the code reads the even
    neighbour [2^53]. *)
Definition beyond_exact : list (string * jsval) :=
  [("icon", JStr "iconDeliveryCar"); ("content", JStr "<span>9007199254740993</span>")].

Lemma eta_is_rounded :
  ~ (forall props s d,
       JS.assoc "icon" props = JStr "iconDeliveryCar" ->
       JS.assoc "content" props = JStr s ->
       FirstNumeral s d ->
       Device.classify (JObj [("announcements", JArr [JObj props])])
       = Ok (delivery, decimal d)).
Proof.
  intros H.
  specialize (H beyond_exact "<span>9007199254740993</span>" "9007199254740993"
                eq_refl eq_refl
                (span_number_some "<span>9007199254740993</span>" "9007199254740993" eq_refl)).
  vm_compute in H. discriminate H.
Qed.

End Classifier.

(** ** Reasoning about methods

    [preserves f m]: running [m] from any world leaves the observation [f]
    of the world as it was, whether [m] returns or throws. *)

Module Frame.

Definition preserves {A B} (f : World -> B) (m : M A) : Prop :=
  forall w, f (snd (m w)) = f w.

Section Combinators.
Context {B : Type} (f : World -> B).

Lemma preserves_ret {A} (a : A) : preserves f (ret a).
Proof. intros w. reflexivity. Qed.

Lemma preserves_throw {A} (e : exn) : preserves f (@throw A e).
Proof. intros w. reflexivity. Qed.

Lemma preserves_lift {A} (r : result A) : preserves f (lift r).
Proof. intros w. reflexivity. Qed.

Lemma preserves_gets {A} (g : World -> A) : preserves f (gets g).
Proof. intros w. reflexivity. Qed.

Lemma preserves_bind {A C} (m : M A) (k : A -> M C) :
  preserves f m -> (forall a, preserves f (k a)) -> preserves f (bind m k).
Proof.
  intros Hm Hk w. unfold bind. specialize (Hm w).
  destruct (m w) as [[a|e] w1]; simpl in *; [|exact Hm].
  rewrite (Hk a w1). exact Hm.
Qed.

Lemma preserves_try_catch {A} (m : M A) (h : exn -> M A) :
  preserves f m -> (forall e, preserves f (h e)) -> preserves f (try_catch m h).
Proof.
  intros Hm Hh w. unfold try_catch. specialize (Hm w).
  destruct (m w) as [[a|e] w1]; simpl in *; [exact Hm|].
  rewrite (Hh e w1). exact Hm.
Qed.

Lemma preserves_when (b : bool) (m : M unit) : preserves f m -> preserves f (when b m).
Proof. intros Hm. destruct b; [exact Hm|apply preserves_ret]. Qed.

Lemma preserves_all2 (a b : M unit) :
  preserves f a -> preserves f b -> preserves f race -> preserves f (all2 a b).
Proof.
  intros Ha Hb Hr w. unfold all2. specialize (Ha w).
  destruct (a w) as [ra w1]. specialize (Hb w1).
  destruct (b w1) as [rb w2]. cbn [snd] in *.
  destruct ra as [[]|ea], rb as [[]|eb]; cbn [snd]; try congruence.
  unfold bind, throw. specialize (Hr w2).
  destruct (race w2) as [[first|e] w3]; cbn [snd] in *; congruence.
Qed.

End Combinators.

(** [invariant P m]: running [m] from a world where [P] holds ends, by a
    return or by a throw, in a world where [P] holds. *)
Definition invariant {A} (P : World -> Prop) (m : M A) : Prop :=
  forall w, P w -> P (snd (m w)).

Lemma invariant_bind {A C} (P : World -> Prop) (m : M A) (k : A -> M C) :
  invariant P m -> (forall a, invariant P (k a)) -> invariant P (bind m k).
Proof.
  intros Hm Hk w Hw. unfold bind. specialize (Hm w Hw).
  destruct (m w) as [[a|e] w1]; simpl in *; [|exact Hm]. apply Hk, Hm.
Qed.

Lemma invariant_try_catch {A} (P : World -> Prop) (m : M A) (h : exn -> M A) :
  invariant P m -> (forall e, invariant P (h e)) -> invariant P (try_catch m h).
Proof.
  intros Hm Hh w Hw. unfold try_catch. specialize (Hm w Hw).
  destruct (m w) as [[a|e] w1]; simpl in *; [exact Hm|]. apply Hh, Hm.
Qed.

Lemma invariant_all2 (P : World -> Prop) (a b : M unit) :
  invariant P a -> invariant P b -> invariant P race -> invariant P (all2 a b).
Proof.
  intros Ha Hb Hr w Hw. unfold all2. specialize (Ha w Hw).
  destruct (a w) as [ra w1]. specialize (Hb w1 Ha).
  destruct (b w1) as [rb w2]. cbn [snd] in *.
  destruct ra as [[]|ea], rb as [[]|eb]; cbn [snd]; try assumption.
  unfold bind, throw. specialize (Hr w2 Hb).
  destruct (race w2) as [[first|e] w3]; cbn [snd] in *; assumption.
Qed.

(** The outcome of [all2]: it returns when both return, and fails with the
    failure of one that fails. *)
Lemma all2_outcome (a b : M unit) (w : World) :
  let ra := fst (a w) in
  let rb := fst (b (snd (a w))) in
  match fst (all2 a b w) with
  | Ok _ => ra = Ok tt /\ rb = Ok tt
  | Throw e => (ra = Throw e \/ rb = Throw e)
               /\ (rb = Ok tt -> ra = Throw e) /\ (ra = Ok tt -> rb = Throw e)
  end.
Proof.
  unfold all2. destruct (a w) as [[[]|ea] w1]; cbn [fst snd];
    destruct (b w1) as [[[]|eb] w2]; cbn [fst snd].
  - split; reflexivity.
  - split; [right; reflexivity|]. split; [discriminate|reflexivity].
  - split; [left; reflexivity|]. split; [reflexivity|discriminate].
  - unfold race, bind, gets, throw, ret, modify. cbv beta.
    destruct (races (env w2)) as [|[|] rest]; simpl.
    + split; [left; reflexivity|]. split; discriminate.
    + split; [left; reflexivity|]. split; discriminate.
    + split; [right; reflexivity|]. split; discriminate.
Qed.

Lemma invariant_preserved {A B} (f : World -> B) (Q : B -> Prop) (m : M A) :
  preserves f m -> invariant (fun w => Q (f w)) m.
Proof. intros H w Hw. simpl. now rewrite H. Qed.

(** Selecting from the trace. *)
Fixpoint pick {B} (sel : event -> option B) (tr : list event) : list B :=
  match tr with
  | [] => []
  | ev :: rest => match sel ev with
                  | Some b => b :: pick sel rest
                  | None => pick sel rest
                  end
  end.

Lemma pick_app {B} (sel : event -> option B) (a b : list event) :
  pick sel (a ++ b) = pick sel a ++ pick sel b.
Proof.
  induction a as [|ev a IH]; simpl; [reflexivity|].
  destruct (sel ev); simpl; now rewrite IH.
Qed.

Definition seen {B} (sel : event -> option B) (w : World) : list B :=
  pick sel (trace (env w)).
Arguments seen : simpl never.

Ltac leaf :=
  first
  [ solve [intros [? [? ? ? ? ?] ?]; reflexivity]
  | solve [intros [? [? [|? ?] ? ? ?] ?]; reflexivity]
  | solve [intros [? [? ? ? ? ?] ?]; unfold seen; simpl; rewrite pick_app; simpl;
           rewrite ?app_nil_r; reflexivity] ].

Ltac frame_step :=
  first
  [ apply preserves_ret
  | apply preserves_throw
  | apply preserves_lift
  | apply preserves_gets
  | apply preserves_bind; [|intro]
  | apply preserves_try_catch; [|intro]
  | apply preserves_when
  | apply preserves_all2
  | match goal with
    | |- preserves _ (match ?x with _ => _ end) => destruct x
    | |- preserves _ (if ?x then _ else _) => destruct x
    end
  | progress unfold race, Client.rateLimit, Client.sleep, Client.elapse, Client.fetch,
      Client.parse, Client.emit, Client.store_cookies, Client.login, Client.read_login,
      Client.dispatch,
      Client.deliver, Client.makeRequest, Client.makeRequest_body,
      Client.on_client, Client.on_env,
      Client.removeFromCart, Client.getCartContent, Client.getUpcomingOrders,
      Client.getDeliverySlots, Client.logout, Client.getReusableBagsInfo,
      Client.getDeliveryAnnouncements,
      Device.manageDeliveryPolling, Device.publish_shipment,
      Device.updateDeliveryStatusOnly, Device.general_cart, Device.general_upcoming,
      Device.general_delivery, Device.general_bags, Device.updateGeneralData,
      Device.updateSlotsData, Device.updateData,
      on_reusable_bags, updateCapabilityValue,
      Homey.log, Homey.error, Homey.getCapabilityValue, Homey.setCapabilityValue,
      Homey.setAvailable, Homey.setUnavailable, Homey.trigger, Homey.on_device
  | progress unfold modify; leaf ].

Ltac frame := repeat frame_step.

End Frame.

(** ** What one step of the client does to the world *)

Module Run.

(** The part of the world a pause of the method can change: the clock and
    the durations still to come. *)
Definition later (t : Z) (ds : list Z) (w : World) : World :=
  with_env (set_clock t (set_delays ds (env w))) w.

Lemma elapse_run (w : World) :
  exists t ds, Client.elapse w = (Ok tt, later t ds w) /\ clock (env w) <= t.
Proof.
  unfold Client.elapse, Client.on_env, modify.
  destruct w as [c [clk dl net tr rc] d]. simpl.
  destruct dl as [|x dl]; simpl.
  - exists clk, []. split; [reflexivity|lia].
  - exists (clk + Z.max 0 x), dl. split; [reflexivity|lia].
Qed.

Lemma timer_delay_positive (delay : Z) : 1 <= Homey.timer_delay delay.
Proof.
  unfold Homey.timer_delay.
  destruct (Z.ltb_spec delay 1), (Z.ltb_spec 2147483647 delay); simpl; lia.
Qed.

Lemma sleep_run (delay : Z) (w : World) :
  exists t ds, Client.sleep delay w = (Ok tt, later t ds w) /\ clock (env w) <= t.
Proof.
  unfold Client.sleep, Client.on_env, modify.
  pose proof (timer_delay_positive delay).
  destruct w as [c [clk dl net tr rc] d]. simpl.
  destruct dl as [|x dl]; simpl.
  - exists (clk + Homey.timer_delay delay), []. split; [reflexivity|lia].
  - exists (clk + Z.max 0 (Homey.timer_delay delay + x)), dl. split; [reflexivity|lia].
Qed.

Lemma rateLimit_run (w : World) :
  exists t ds,
    Client.rateLimit w = (Ok tt, with_client (set_lastRequestTime t (client w)) (later t ds w))
    /\ clock (env w) <= t.
Proof.
  unfold Client.rateLimit, bind, gets, when.
  destruct (_ <? _).
  - match goal with |- context [Client.sleep ?d w] =>
      destruct (sleep_run d w) as (t & ds & -> & Ht) end.
    exists t, ds. destruct w as [c [clk dl net tr rc] d]. split; [reflexivity|exact Ht].
  - exists (clock (env w)), (delays (env w)).
    destruct w as [c [clk dl net tr rc] d]. split; [reflexivity|simpl; lia].
Qed.

Definition answer (o : outcome) : result response :=
  match o with Responds r => Ok r | Rejects e => Throw e end.

Lemma fetch_run (via : origin) (rq : request) (w : World) (o : outcome) (rest : list outcome) :
  network (env w) = o :: rest ->
  exists t ds,
    Client.fetch via rq w =
      (answer o, later t ds (with_env (set_network rest (record (Fetch (clock (env w)) via rq) (env w))) w)).
Proof.
  intros Hnet. destruct w as [c [clk dl net tr rc] d]. simpl in Hnet. subst net.
  unfold Client.fetch, Client.elapse, bind, gets, Client.on_env, modify, later. simpl.
  destruct dl as [|x dl]; do 2 eexists; destruct o; reflexivity.
Qed.

End Run.

(** ** Sample worlds *)

Module Sample.

Definition device0 : Device :=
  {| capabilities := ∅; sinkAccepts := fun _ _ => true; writes := [];
     deviceLog := []; available := true; unavailableMessage := None;
     triggers := []; intervals := []; nextHandle := 0%nat;
     pollingInterval := None; deliveryPollingInterval := None;
     listening := Some DeviceListener |}.

(** The client [new RohlikClient({username: 'u', password: 'p', country: 'CZ'})]. *)
Definition client0 : RohlikClient :=
  {| username := JStr "u"; password := JStr "p";
     baseUrl := "https://www.rohlik.cz"; sessionCookies := "";
     userId := JNull; addressId := JNull;
     lastRequestTime := 0; minRequestInterval := 100 |}.

Lemma client0_constructed :
  Client.constructor (JStr "u") (JStr "p") (JStr "CZ") = Ok client0.
Proof. reflexivity. Qed.

(** The same client after a login that returned user 42 and address 7. *)
Definition client1 : RohlikClient :=
  {| username := JStr "u"; password := JStr "p";
     baseUrl := "https://www.rohlik.cz"; sessionCookies := "sid=1";
     userId := JNum 42; addressId := JNum 7;
     lastRequestTime := 1000000; minRequestInterval := 100 |}.

Definition world_of (c : RohlikClient) (script : list outcome) : World :=
  {| client := c;
     env := {| clock := 1000000; delays := []; network := script; trace := [];
               races := [] |};
     device := device0 |}.

Definition answers (code : Z) (body : jsval) : outcome :=
  Responds {| status := code; statusText := ""; set_cookie := None; json := Some body |}.

Definition login_accepted : outcome :=
  Responds {| status := 200; statusText := "OK"; set_cookie := Some "sid=1";
              json := Some (JObj [("data", JObj [("user", JObj [("id", JNum 42)]);
                                                 ("address", JObj [("id", JNum 7)])])]) |}.

Lemma client1_logged_in :
  client (snd (Client.login (world_of client0 [login_accepted]))) = client1.
Proof. reflexivity. Qed.

End Sample.

(** ** Login *)

Module Session.
Import Run.

(** The request [login] sends, dispatched at time [t]. *)
Definition login_request (w : World) : request :=
  {| req_url := baseUrl (client w) +:+ "/services/frontend-service/login";
     req_method := Some "POST";
     req_headers := [("Content-Type", "application/json"); ("User-Agent", Client.userAgent)];
     req_body := Some (JObj [("email", username (client w)); ("password", password (client w))]) |}.

(** The world in which the answer of a login is read: the call and the
    request are on the trace, the outcome is off the script, the dispatch
    time [t] is recorded, and the clock stands at [t']. *)
Definition login_sent (t t' : Z) (ds : list Z) (rest : list outcome) (w : World) : World :=
  with_client (set_lastRequestTime t (client w))
    (with_env {| clock := t'; delays := ds; network := rest;
                 trace := trace (env w) ++ [Call Login; Fetch t ViaLogin (login_request w)];
                 races := races (env w) |} w).

Lemma login_run (w : World) (o : outcome) (rest : list outcome) :
  network (env w) = o :: rest ->
  exists t t' ds,
    clock (env w) <= t /\
    Client.login w =
      match o with
      | Responds r => Client.read_login r (login_sent t t' ds rest w)
      | Rejects e => (Throw e, login_sent t t' ds rest w)
      end.
Proof.
  intros Hnet. unfold Client.login.
  unfold bind at 1. unfold Client.on_env at 1, modify at 1.
  unfold bind at 1, gets at 1. unfold bind at 1, gets at 1.
  unfold bind at 1.
  match goal with |- context [Client.rateLimit ?w0] =>
    destruct (rateLimit_run w0) as (t & ds & -> & Ht) end.
  unfold bind at 1, gets at 1. unfold bind at 1.
  match goal with |- context [Client.fetch ?v ?rq ?w0] =>
    destruct (fetch_run v rq w0 o rest) as (t' & ds' & ->) end.
  { destruct w as [c [clk dl net tr rc] d]. exact Hnet. }
  exists t, t', ds'. split; [exact Ht|].
  destruct w as [c [clk dl net tr rc] d]. simpl in *.
  unfold answer, login_sent, later, with_env, with_client, set_clock, set_delays,
    set_network, record, login_request. simpl.
  rewrite <- app_assoc. destruct o; reflexivity.
Qed.


Definition accepted (r : response) : bool := (status r =? 200) || (status r =? 202).

(** [data.data?.user?.id] and [data.data?.address?.id] *)
Definition user_id (data : jsval) : jsval :=
  JS.get_opt (JS.get_opt (JS.prop data "data") "user") "id".
Definition address_id (data : jsval) : jsval :=
  JS.get_opt (JS.get_opt (JS.prop data "data") "address") "id".

(** The message of the service: the content of its first message, else its
    [message], else the words [Login failed]. *)
Definition upstream_message (data : jsval) : string :=
  let content := JS.get_opt (JS.first_opt (JS.prop data "messages")) "content" in
  if JS.truthy content then JS.toString content
  else if JS.truthy (JS.prop data "message") then JS.toString (JS.prop data "message")
  else "Login failed".

Inductive LoginError : exn -> Prop :=
| Rejected (upstream : string) : LoginError (Error ("Login failed: " +:+ upstream))
| NoUserId : LoginError (Error "Login succeeded but no User ID returned.").

Lemma read_login_run (r : response) (data : jsval) (w : World) :
  json r = Some data -> JS.nullish data = false ->
  exists w',
    Client.read_login r w =
      (if accepted r then
         if JS.truthy (user_id data) then Ok tt
         else Throw (Error "Login succeeded but no User ID returned.")
       else Throw (Error ("Login failed: " +:+ upstream_message data)), w')
    /\ (accepted r = true ->
        userId (client w') = user_id data /\ addressId (client w') = address_id data).
Proof.
  intros Hjson Hdata. unfold Client.read_login, Client.parse. rewrite Hjson.
  unfold bind at 1.
  destruct (Client.store_cookies r w) as [[[]|e] w1] eqn:E1.
  2:{ exfalso. unfold Client.store_cookies, when in E1.
      destruct (set_cookie r) as [c|]; [destruct (negb _)|]; discriminate. }
  unfold bind at 1, ret at 1. fold (accepted r).
  unfold JS.get. rewrite Hdata.
  destruct (accepted r) eqn:Hacc; simpl negb; cbv iota.
  - unfold bind, lift, Client.on_client, modify, gets. simpl.
    fold (user_id data). destruct (JS.truthy (user_id data)); simpl;
      eexists; (split; [reflexivity|]); intros _; split; reflexivity.
  - unfold bind, lift, throw. eexists. split; [|discriminate].
    f_equal. f_equal. f_equal. f_equal. unfold upstream_message, JS.or.
    destruct (JS.truthy (JS.get_opt _ "content")) eqn:Hc; [rewrite Hc; reflexivity|].
    destruct (JS.truthy (JS.prop data "message")) eqn:Hm; rewrite ?Hm; reflexivity.
Qed.

(** A body that is [null] is read before the status is looked at. *)
Lemma read_login_null (r : response) (data : jsval) (w : World) :
  json r = Some data -> JS.nullish data = true ->
  exists msg w', Client.read_login r w = (Throw (TypeError msg), w').
Proof.
  intros Hjson Hdata. unfold Client.read_login, Client.parse. rewrite Hjson.
  unfold bind at 1.
  destruct (Client.store_cookies r w) as [[[]|e] w1] eqn:E1.
  2:{ exfalso. unfold Client.store_cookies, when in E1.
      destruct (set_cookie r) as [c|]; [destruct (negb _)|]; discriminate. }
  unfold bind at 1, ret at 1. unfold JS.get. rewrite Hdata.
  destruct (negb _); unfold bind, lift; eexists _, _; reflexivity.
Qed.

Lemma read_login_unparsed (r : response) (w : World) :
  json r = None ->
  exists w', Client.read_login r w
             = (Throw (FetchError "invalid json response body"), w').
Proof.
  intros Hjson. unfold Client.read_login, Client.parse. rewrite Hjson.
  unfold bind at 1.
  destruct (Client.store_cookies r w) as [[[]|e] w1] eqn:E1.
  2:{ exfalso. unfold Client.store_cookies, when in E1.
      destruct (set_cookie r) as [c|]; [destruct (negb _)|]; discriminate. }
  unfold bind, throw. eexists. reflexivity.
Qed.

(** A login that returns has stored the identifiers of its response. *)
Lemma login_returned (w w' : World) (r : response) (rest : list outcome) (data : jsval) :
  network (env w) = Responds r :: rest -> json r = Some data ->
  Client.login w = (Ok tt, w') ->
  userId (client w') = user_id data
  /\ addressId (client w') = address_id data
  /\ JS.truthy (user_id data) = true.
Proof.
  intros Hnet Hjson El.
  destruct (login_run w _ _ Hnet) as (t & t' & ds & _ & E).
  destruct (JS.nullish data) eqn:Hdata.
  { destruct (read_login_null r data (login_sent t t' ds rest w) Hjson Hdata)
      as (msg & wx & Ex). congruence. }
  destruct (read_login_run r data (login_sent t t' ds rest w) Hjson Hdata)
    as (wx & Ex & Hids).
  rewrite Ex, El in E.
  destruct (accepted r) eqn:Hacc; [|discriminate].
  destruct (JS.truthy (user_id data)) eqn:Hid; [|discriminate].
  inversion E; subst wx. destruct (Hids eq_refl) as [-> ->]. auto.
Qed.

(** C9, as the code has it.  [login] reads the body of the response
    before it looks at the status.  A response whose body is not JSON makes
    the login fail with the error of the parser, and one whose body is
    [null] with a [TypeError], whatever the status: these failures are no
    [LoginError]s.  For a response whose body is JSON and not [null]: an
    accepted status (200 or 202) with a user id in the payload makes the
    login succeed and stores the user id and the address id of the payload;
    another status makes it fail with the error that carries the message of
    the service; an accepted status without a user id makes it fail too;
    every failure is then a [LoginError], and a login that returns had an
    accepted status and has stored a user id. *)
Theorem login_outcome (w : World) (r : response) (rest : list outcome) :
  network (env w) = Responds r :: rest ->
  (json r = None ->
     exists w', Client.login w = (Throw (FetchError "invalid json response body"), w'))
  /\ (forall data, json r = Some data -> JS.nullish data = true ->
        exists msg w', Client.login w = (Throw (TypeError msg), w'))
  /\ (forall data, json r = Some data -> JS.nullish data = false ->
        (accepted r = true -> JS.truthy (user_id data) = true ->
           exists w', Client.login w = (Ok tt, w')
                      /\ userId (client w') = user_id data
                      /\ addressId (client w') = address_id data)
        /\ (accepted r = false ->
             exists w', Client.login w =
                          (Throw (Error ("Login failed: " +:+ upstream_message data)), w'))
        /\ (accepted r = true -> JS.truthy (user_id data) = false ->
             exists w', Client.login w =
                          (Throw (Error "Login succeeded but no User ID returned."), w'))
        /\ (forall e w', Client.login w = (Throw e, w') -> LoginError e)
        /\ (forall w', Client.login w = (Ok tt, w') ->
              accepted r = true /\ JS.truthy (userId (client w')) = true)).
Proof.
  intros Hnet.
  destruct (login_run w _ _ Hnet) as (t & t' & ds & _ & E).
  split; [|split].
  - intros Hjson.
    destruct (read_login_unparsed r (login_sent t t' ds rest w) Hjson) as (w' & E').
    exists w'. congruence.
  - intros data Hjson Hdata.
    destruct (read_login_null r data (login_sent t t' ds rest w) Hjson Hdata)
      as (msg & w' & E').
    exists msg, w'. congruence.
  - intros data Hjson Hdata.
    destruct (read_login_run r data (login_sent t t' ds rest w) Hjson Hdata)
      as (w' & E' & Hids).
    rewrite E' in E. clear E'.
    split; [|split; [|split; [|split]]].
    + intros Hacc Hid. rewrite Hacc, Hid in E. exists w'.
      destruct (Hids Hacc) as [-> ->]. auto.
    + intros Hacc. rewrite Hacc in E. eauto.
    + intros Hacc Hid. rewrite Hacc, Hid in E. eauto.
    + intros e w2 E2. rewrite E2 in E.
      destruct (accepted r); [destruct (JS.truthy (user_id data))|];
        inversion E; constructor.
    + intros w2 E2. rewrite E2 in E.
      destruct (accepted r) eqn:Hacc; [|discriminate].
      destruct (JS.truthy (user_id data)) eqn:Hid; [|discriminate].
      inversion E; subst w2. destruct (Hids eq_refl) as [-> _]. auto.
Qed.

Lemma login_accepted_stores_user :
  exists w', Client.login (Sample.world_of Sample.client0 [Sample.login_accepted]) = (Ok tt, w')
             /\ userId (client w') = JNum 42
             /\ addressId (client w') = JNum 7.
Proof.
  destruct (login_outcome (Sample.world_of Sample.client0 [Sample.login_accepted])
              _ _ eq_refl) as (_ & _ & H).
  exact (proj1 (H _ eq_refl eq_refl) eq_refl eq_refl).
Defined.

(** A login refused with a page that is not JSON. *)
Definition refused : response :=
  {| status := 403; statusText := "Forbidden"; set_cookie := None; json := None |}.

Lemma refused_without_json_is_no_LoginError :
  ~ (forall w r rest e w',
       network (env w) = Responds r :: rest ->
       accepted r = false ->
       Client.login w = (Throw e, w') ->
       LoginError e).
Proof.
  intros H.
  specialize (H (Sample.world_of Sample.client0 [Responds refused]) refused [] _ _
                eq_refl eq_refl eq_refl).
  inversion H.
Qed.

End Session.

(** ** The request executor *)

Module Executor.
Import Frame Run.

Definition sel_login (ev : event) : option unit :=
  match ev with Call Login => Some tt | _ => None end.

Definition sel_attempt (ev : event) : option request :=
  match ev with Fetch _ ViaMakeRequest rq => Some rq | _ => None end.

(** The request [makeRequest(url, o)] sends from the world [w]. *)
Definition call_request (url : string) (o : Client.options) (w : World) : request :=
  {| req_url := baseUrl (client w) +:+ url;
     req_method := Client.opt_method o;
     req_headers :=
       JS.spread
         (JS.spread [("Content-Type", "application/json"); ("User-Agent", Client.userAgent)]
                    (if negb (String.eqb (sessionCookies (client w)) "")
                     then [("Cookie", sessionCookies (client w))] else []))
         (Client.opt_headers o);
     req_body := Client.opt_body o |}.

Definition same_call (a b : request) : Prop :=
  req_url a = req_url b /\ req_method a = req_method b /\ req_body a = req_body b.

Definition AuthError : exn := Error "Unauthorized after retry".

Lemma makeRequest_retry (self self' : string -> Client.options -> bool -> M jsval)
    (url : string) (o : Client.options) (w : World) :
  Client.makeRequest_body self url o true w = Client.makeRequest_body self' url o true w.
Proof.
  unfold Client.makeRequest_body, bind.
  destruct (Client.dispatch url o w) as [[r|e] w1]; [|reflexivity].
  destruct (Client.auth_failed r); reflexivity.
Qed.

(** [makeRequest] is the fixed point of its body. *)
Lemma makeRequest_unfold (url : string) (o : Client.options) (isRetry : bool) (w : World) :
  Client.makeRequest url o isRetry w =
  Client.makeRequest_body Client.makeRequest url o isRetry w.
Proof.
  destruct isRetry; [apply makeRequest_retry|].
  unfold Client.makeRequest at 1. unfold Client.makeRequest_body at 1 3, bind.
  destruct (Client.dispatch url o w) as [[r|e] w1]; [|reflexivity].
  destruct (Client.auth_failed r); [|reflexivity]. cbn [negb]. cbv beta iota.
  destruct (Client.login w1) as [[[]|e] w2]; [|reflexivity].
  apply makeRequest_retry.
Qed.

Lemma fetch_trace (via : origin) (rq : request) (w : World) :
  trace (env (snd (Client.fetch via rq w))) = trace (env w) ++ [Fetch (clock (env w)) via rq].
Proof.
  destruct w as [c [clk dl net tr rc] d].
  unfold Client.fetch, Client.elapse, bind, gets, Client.on_env, modify. simpl.
  destruct net as [|[r|e] net]; [reflexivity| |]; destruct dl; reflexivity.
Qed.

Lemma read_login_trace (r : response) : preserves (fun w => trace (env w)) (Client.read_login r).
Proof. frame. Qed.

Lemma store_cookies_trace (r : response) : preserves (fun w => trace (env w)) (Client.store_cookies r).
Proof. frame. Qed.

Lemma login_trace (w : World) :
  exists t, trace (env (snd (Client.login w))) =
            trace (env w) ++ [Call Login; Fetch t ViaLogin (Session.login_request w)].
Proof.
  unfold Client.login.
  unfold bind at 1. unfold Client.on_env at 1, modify at 1.
  unfold bind at 1, gets at 1. unfold bind at 1, gets at 1. unfold bind at 1.
  match goal with |- context [Client.rateLimit ?w0] =>
    destruct (rateLimit_run w0) as (t & ds & -> & Ht) end.
  unfold bind at 1, gets at 1. unfold bind at 1.
  match goal with |- context [Client.fetch ?v ?rq ?w0] =>
    pose proof (fetch_trace v rq w0) as Hf;
    destruct (Client.fetch v rq w0) as [[r|e] w1] end.
  - rewrite read_login_trace. simpl in Hf. rewrite Hf.
    exists t. destruct w as [c [clk dl net tr rc] d]. simpl. rewrite <- app_assoc. reflexivity.
  - simpl in *. rewrite Hf.
    exists t. destruct w as [c [clk dl net tr rc] d]. simpl. rewrite <- app_assoc. reflexivity.
Qed.

Lemma dispatch_trace (url : string) (o : Client.options) (w : World) :
  exists t, trace (env (snd (Client.dispatch url o w))) =
            trace (env w) ++ [Fetch t ViaMakeRequest (call_request url o w)].
Proof.
  unfold Client.dispatch. unfold bind at 1.
  destruct (rateLimit_run w) as (t & ds & -> & Ht).
  unfold bind at 1, gets at 1. unfold bind at 1, gets at 1. unfold bind at 1.
  match goal with |- context [Client.fetch ?v ?rq ?w0] =>
    pose proof (fetch_trace v rq w0) as Hf;
    destruct (Client.fetch v rq w0) as [[r|e] w1] end.
  - unfold bind. pose proof (store_cookies_trace r w1) as Hs.
    destruct (Client.store_cookies r w1) as [[[]|e] w2]; simpl in *;
      rewrite Hs, Hf; exists t; destruct w as [c [clk dl net tr rc] d]; reflexivity.
  - simpl in *. rewrite Hf. exists t. destruct w as [c [clk dl net tr rc] d]. reflexivity.
Qed.

Lemma dispatch_outcome (url : string) (o : Client.options) (w : World)
    (out : outcome) (rest : list outcome) :
  network (env w) = out :: rest ->
  exists w1, Client.dispatch url o w = (answer out, w1) /\ network (env w1) = rest.
Proof.
  intros Hnet. unfold Client.dispatch. unfold bind at 1.
  destruct (rateLimit_run w) as (t & ds & -> & Ht).
  unfold bind at 1, gets at 1. unfold bind at 1, gets at 1. unfold bind at 1.
  match goal with |- context [Client.fetch ?v ?rq ?w0] =>
    destruct (fetch_run v rq w0 out rest) as (t' & ds' & ->) end.
  { destruct w as [c [clk dl net tr rc] d]. exact Hnet. }
  destruct out as [r|e]; simpl answer; cbv beta iota.
  - unfold bind, Client.store_cookies, when.
    destruct (set_cookie r) as [c|]; [destruct (negb _)|];
      destruct w as [cl [clk dl net tr rc] d]; eexists; split; reflexivity.
  - destruct w as [cl [clk dl net tr rc] d]; eexists; split; reflexivity.
Qed.

Lemma dispatch_attempt (url : string) (o : Client.options) (w : World) :
  seen sel_attempt (snd (Client.dispatch url o w)) = seen sel_attempt w ++ [call_request url o w].
Proof.
  destruct (dispatch_trace url o w) as (t & E). unfold seen. rewrite E, pick_app. reflexivity.
Qed.

Lemma dispatch_login (url : string) (o : Client.options) :
  preserves (seen sel_login) (Client.dispatch url o).
Proof. frame. Qed.

Lemma dispatch_baseUrl (url : string) (o : Client.options) :
  preserves (fun w => baseUrl (client w)) (Client.dispatch url o).
Proof. frame. Qed.

Lemma deliver_attempt (url : string) (r : response) :
  preserves (seen sel_attempt) (Client.deliver url r).
Proof. frame. Qed.

Lemma deliver_login (url : string) (r : response) :
  preserves (seen sel_login) (Client.deliver url r).
Proof. frame. Qed.

Lemma login_login (w : World) :
  seen sel_login (snd (Client.login w)) = seen sel_login w ++ [tt].
Proof.
  destruct (login_trace w) as (t & E). unfold seen. rewrite E, pick_app. reflexivity.
Qed.

Lemma login_attempt : preserves (seen sel_attempt) Client.login.
Proof. frame. Qed.

Lemma login_baseUrl : preserves (fun w => baseUrl (client w)) Client.login.
Proof. frame. Qed.

(** A call with [isRetry = true]: one dispatch, no login, and the
    authentication failure of its response is final. *)
Lemma retry_run (url : string) (o : Client.options) (w : World) :
  let run := Client.makeRequest url o true w in
  seen sel_attempt (snd run) = seen sel_attempt w ++ [call_request url o w]
  /\ seen sel_login (snd run) = seen sel_login w
  /\ forall r w1, Client.dispatch url o w = (Ok r, w1) -> Client.auth_failed r = true ->
       run = (Throw AuthError, w1).
Proof.
  cbv zeta. rewrite makeRequest_unfold. unfold Client.makeRequest_body, bind.
  pose proof (dispatch_attempt url o w) as Ha.
  pose proof (dispatch_login url o w) as Hl.
  destruct (Client.dispatch url o w) as [[r|e] w1]; simpl in Ha, Hl.
  - destruct (Client.auth_failed r) eqn:Hauth; simpl.
    + repeat split; try assumption. intros r' w' [= <- <-] _. reflexivity.
    + rewrite deliver_attempt, deliver_login.
      repeat split; try assumption. intros r' w' [= <- <-]. congruence.
  - simpl. repeat split; try assumption. discriminate.
Qed.

(** C1.  In every execution of [makeRequest] a call logs in at most once
    and is dispatched at most twice.  When the first response is 401 or
    403, exactly one login is made; if that login returns, the same call is
    dispatched exactly once more, and a second 401 or 403 fails with
    [Unauthorized after retry]; if the login throws, its error is the
    outcome of the call and there is no second dispatch. *)
Theorem reauthentication_is_bounded (url : string) (o : Client.options) (w : World) :
  let run := Client.makeRequest url o false w in
  (length (seen sel_login (snd run)) <= length (seen sel_login w) + 1)%nat
  /\ (length (seen sel_attempt (snd run)) <= length (seen sel_attempt w) + 2)%nat
  /\ forall r1 w1,
       Client.dispatch url o w = (Ok r1, w1) -> Client.auth_failed r1 = true ->
       seen sel_login (snd run) = seen sel_login w ++ [tt]
       /\ (forall w2, Client.login w1 = (Ok tt, w2) ->
             (exists rq1 rq2,
                seen sel_attempt (snd run) = seen sel_attempt w ++ [rq1; rq2]
                /\ same_call rq1 rq2)
             /\ forall r2 w3,
                  Client.dispatch url o w2 = (Ok r2, w3) -> Client.auth_failed r2 = true ->
                  run = (Throw AuthError, w3))
       /\ (forall e w2, Client.login w1 = (Throw e, w2) ->
             run = (Throw e, w2)
             /\ seen sel_attempt (snd run) = seen sel_attempt w ++ [call_request url o w]).
Proof.
  intros run.
  assert (Hrun : run = Client.makeRequest_body Client.makeRequest url o false w)
    by apply makeRequest_unfold.
  clearbody run. unfold Client.makeRequest_body, bind in Hrun.
  pose proof (dispatch_attempt url o w) as Ha.
  pose proof (dispatch_login url o w) as Hl.
  pose proof (dispatch_baseUrl url o w) as Hb.
  destruct (Client.dispatch url o w) as [[r|e] w1]; cbn [snd] in Ha, Hl, Hb.
  2:{ subst run. cbn [snd]. rewrite Ha, Hl, length_app. cbn [length].
      split; [lia|]. split; [lia|]. intros ? ? [=]. }
  destruct (Client.auth_failed r) eqn:Hauth; cbn [negb] in Hrun; cbv beta iota in Hrun.
  2:{ subst run. rewrite deliver_attempt, deliver_login, Ha, Hl, length_app. cbn [length].
      split; [lia|]. split; [lia|]. intros r1 w1' [= <- <-]. congruence. }
  pose proof (login_login w1) as Hll.
  pose proof (login_attempt w1) as Hla.
  pose proof (login_baseUrl w1) as Hlb.
  destruct (Client.login w1) as [[[]|e] w2] eqn:El; cbn [snd] in Hll, Hla, Hlb; subst run.
  - destruct (retry_run url o w2) as (Hra & Hrl & Hfinal).
    rewrite Hra, Hrl, Hla, Hll, Ha, Hl. rewrite !length_app. cbn [length].
    split; [lia|]. split; [lia|].
    intros r1 w1' [= <- <-] _. split; [reflexivity|]. split.
    + intros w2' E. assert (w2' = w2) as -> by congruence. clear E. split.
      * exists (call_request url o w), (call_request url o w2).
        split; [rewrite <- app_assoc; reflexivity|].
        unfold same_call, call_request. cbn [req_url req_method req_body].
        rewrite Hlb, Hb. auto.
      * exact Hfinal.
    + intros e w2' E. congruence.
  - cbn [snd]. rewrite Hla, Hll, Ha, Hl. rewrite !length_app. cbn [length].
    split; [lia|]. split; [lia|].
    intros r1 w1' [= <- <-] _. split; [reflexivity|]. split.
    + intros w2' E. congruence.
    + intros e' w2' E. assert (e' = e /\ w2' = w2) as [-> ->] by (split; congruence).
      split; reflexivity.
Qed.

Definition forbidden : response :=
  {| status := 403; statusText := "Forbidden"; set_cookie := None; json := None |}.

(** A logged-in client whose session has expired: the call and its retry
    are both answered 403, the login in between is accepted. *)
Definition expired : World :=
  Sample.world_of Sample.client1
    [Responds forbidden; Sample.login_accepted; Responds forbidden].

Definition expired_1 : World :=
  Eval vm_compute in snd (Client.dispatch "/api/v3/orders/upcoming" Client.no_options expired).
Definition expired_2 : World :=
  Eval vm_compute in snd (Client.login expired_1).
Definition expired_3 : World :=
  Eval vm_compute in snd (Client.dispatch "/api/v3/orders/upcoming" Client.no_options expired_2).

Lemma expired_first :
  Client.dispatch "/api/v3/orders/upcoming" Client.no_options expired = (Ok forbidden, expired_1).
Proof. vm_compute. reflexivity. Qed.

Lemma expired_login : Client.login expired_1 = (Ok tt, expired_2).
Proof. vm_compute. reflexivity. Qed.

Lemma expired_second :
  Client.dispatch "/api/v3/orders/upcoming" Client.no_options expired_2 = (Ok forbidden, expired_3).
Proof. vm_compute. reflexivity. Qed.

Lemma still_unauthorized_after_retry :
  Client.makeRequest "/api/v3/orders/upcoming" Client.no_options false expired
    = (Throw AuthError, expired_3)
  /\ seen sel_login expired_3 = [tt].
Proof.
  pose proof (reauthentication_is_bounded "/api/v3/orders/upcoming" Client.no_options expired)
    as (_ & _ & H).
  destruct (H forbidden expired_1 expired_first eq_refl) as (_ & Hretry & _).
  destruct (Hretry expired_2 expired_login) as (_ & Hfinal).
  split; [exact (Hfinal forbidden expired_3 expired_second eq_refl)|].
  vm_compute. reflexivity.
Defined.

End Executor.

(** ** Logout *)

Module Logout.
Import Frame Run.
Import Executor.

(** The session as the constructor creates it. *)
Definition session_empty (c : RohlikClient) : Prop :=
  sessionCookies c = "" /\ userId c = JNull /\ addressId c = JNull.

Definition identifiers (w : World) : jsval * jsval :=
  (userId (client w), addressId (client w)).

Lemma dispatch_identifiers (url : string) (o : Client.options) :
  preserves identifiers (Client.dispatch url o).
Proof. frame. Qed.

Lemma deliver_identifiers (url : string) (r : response) :
  preserves identifiers (Client.deliver url r).
Proof. frame. Qed.

Lemma retry_identifiers (url : string) (o : Client.options) :
  preserves identifiers (Client.makeRequest url o true).
Proof.
  intros w. rewrite makeRequest_unfold. revert w.
  change (preserves identifiers (Client.makeRequest_body Client.makeRequest url o true)).
  unfold Client.makeRequest_body.
  apply preserves_bind; [apply dispatch_identifiers|]. intros r.
  destruct (Client.auth_failed r); [apply preserves_throw|apply deliver_identifiers].
Qed.

Lemma login_returns_user (w w' : World) :
  Client.login w = (Ok tt, w') -> JS.truthy (userId (client w')) = true.
Proof.
  unfold Client.login.
  unfold bind at 1. unfold Client.on_env at 1, modify at 1.
  unfold bind at 1, gets at 1. unfold bind at 1, gets at 1. unfold bind at 1.
  match goal with |- context [Client.rateLimit ?w0] =>
    destruct (rateLimit_run w0) as (t & ds & -> & Ht) end.
  unfold bind at 1, gets at 1. unfold bind at 1.
  match goal with |- context [Client.fetch ?v ?rq ?w0] =>
    destruct (Client.fetch v rq w0) as [[r|e] w1] end; [|discriminate].
  unfold Client.read_login, bind.
  destruct (Client.store_cookies r w1) as [[[]|e] w2]; [|discriminate].
  destruct (Client.parse r w2) as [[data|e] w3]; [|discriminate].
  destruct (negb _).
  - unfold lift, throw. destruct (JS.get data "messages"); discriminate.
  - unfold lift. destruct (JS.get data "data") as [payload|e]; [|discriminate].
    unfold Client.on_client, modify, gets. simpl.
    destruct (JS.truthy _) eqn:Hid; simpl; [|discriminate].
    intros [= <-]. exact Hid.
Qed.

Lemma dispatch_answer (url : string) (o : Client.options) (w : World)
    (r : response) (rest : list outcome) :
  network (env w) = Responds r :: rest ->
  fst (Client.dispatch url o w) = Ok r.
Proof.
  intros Hnet. unfold Client.dispatch. unfold bind at 1.
  destruct (rateLimit_run w) as (t & ds & -> & Ht).
  unfold bind at 1, gets at 1. unfold bind at 1, gets at 1. unfold bind at 1.
  match goal with |- context [Client.fetch ?v ?rq ?w0] =>
    destruct (fetch_run v rq w0 (Responds r) rest) as (t' & ds' & ->) end.
  { destruct w as [c [clk dl net tr rc] d]. exact Hnet. }
  unfold answer, bind, Client.store_cookies, when.
  destruct (set_cookie r) as [c|]; [destruct (negb _)|]; reflexivity.
Qed.

Definition logout_options : Client.options :=
  {| Client.opt_method := Some "POST"; Client.opt_headers := []; Client.opt_body := None |}.

(** C5, as the code has it.  When [logout] returns, the cookie header is
    empty.  [logout] itself assigns neither identifier, and a user id that
    was set is still set.  When the logout request is answered without an
    authentication failure, the user id and the address id are what they
    were.  When it is answered 401 or 403, the login that [makeRequest]
    then makes has stored the user id and the address id of its own
    response in their place: a user id, and the address id if the response
    has one. *)
Theorem logout_clears_cookies_only (w w' : World) :
  Client.logout w = (Ok tt, w') ->
  sessionCookies (client w') = ""
  /\ (JS.truthy (userId (client w)) = true -> JS.truthy (userId (client w')) = true)
  /\ (forall r rest,
        network (env w) = Responds r :: rest -> Client.auth_failed r = false ->
        userId (client w') = userId (client w)
        /\ addressId (client w') = addressId (client w))
  /\ (forall r rl rest data,
        network (env w) = Responds r :: Responds rl :: rest ->
        Client.auth_failed r = true -> json rl = Some data ->
        userId (client w') = Session.user_id data
        /\ addressId (client w') = Session.address_id data
        /\ JS.truthy (Session.user_id data) = true).
Proof.
  unfold Client.logout. unfold bind at 1. unfold Client.on_env at 1, modify at 1.
  set (w0 := with_env (record (Call Logout) (env w)) w).
  assert (Hid0 : identifiers w0 = identifiers w) by reflexivity.
  assert (Hnet0 : network (env w0) = network (env w)) by reflexivity.
  clearbody w0. unfold bind at 1.
  fold logout_options.
  rewrite makeRequest_unfold. unfold Client.makeRequest_body. unfold bind at 1.
  pose proof (dispatch_identifiers "/services/frontend-service/logout" logout_options w0) as Hd.
  pose proof (dispatch_answer "/services/frontend-service/logout" logout_options w0) as Hans.
  pose proof (dispatch_outcome "/services/frontend-service/logout" logout_options w0) as Hout.
  destruct (Client.dispatch _ logout_options w0) as [[r|e] w1]; [|discriminate].
  cbn [snd fst] in Hd, Hans.
  assert (Hsame : forall w2, identifiers w2 = identifiers w ->
            Client.on_client (set_sessionCookies "") w2 = (Ok tt, w') ->
            sessionCookies (client w') = ""
            /\ userId (client w') = userId (client w)
            /\ addressId (client w') = addressId (client w)).
  { intros w2 Hw2 [= <-]. unfold identifiers in Hw2. simpl.
    inversion Hw2. auto. }
  destruct (Client.auth_failed r) eqn:Hauth; cbn [negb]; cbv beta iota.
  - unfold bind at 1.
    destruct (Client.login w1) as [[[]|e] w2] eqn:El; [|discriminate].
    pose proof (login_returns_user _ _ El) as Hu.
    pose proof (retry_identifiers "/services/frontend-service/logout" logout_options w2) as Hr.
    destruct (Client.makeRequest _ logout_options true w2) as [[v|e] w3]; [|discriminate].
    cbn [snd] in Hr. intros [= <-]. simpl. split; [reflexivity|]. split; [|split].
    + intros _. unfold identifiers in Hr. inversion Hr. congruence.
    + intros r' rest Hnet. rewrite <- Hnet0 in Hnet.
      specialize (Hans _ _ Hnet). congruence.
    + intros r' rl rest data Hnet _ Hjson. rewrite <- Hnet0 in Hnet.
      destruct (Hout _ _ Hnet) as (w1' & E1 & Hnet1).
      injection E1 as _ <-.
      destruct (Session.login_returned w1 w2 rl rest data Hnet1 Hjson El)
        as (Hux & Hax & Hid).
      unfold identifiers in Hr. inversion Hr. split; [congruence|]. split; [congruence|].
      exact Hid.
  - pose proof (deliver_identifiers "/services/frontend-service/logout" r w1) as Hv.
    destruct (Client.deliver _ r w1) as [[v|e] w2]; [|discriminate].
    cbn [snd] in Hv. intros E.
    destruct (Hsame w2 ltac:(congruence) E) as (Hc & Hu & Ha).
    split; [exact Hc|]. split; [congruence|]. split; [intros; split; assumption|].
    intros r' rl rest data Hnet Hauth'. rewrite <- Hnet0 in Hnet.
    specialize (Hans _ _ Hnet). congruence.
Qed.

Definition logged_in : World :=
  Sample.world_of Sample.client1 [Sample.answers 200 (JObj [])].
Definition logged_out : World := Eval vm_compute in snd (Client.logout logged_in).

Lemma logout_completes : Client.logout logged_in = (Ok tt, logged_out).
Proof. vm_compute. reflexivity. Qed.

Lemma logout_keeps_identifiers :
  ~ (forall w w', Client.logout w = (Ok tt, w') -> session_empty (client w')).
Proof.
  intros H. destruct (H _ _ logout_completes) as (_ & Hu & _). discriminate Hu.
Qed.

(** The session of user 42 has expired: the logout is answered 401, the
    login that follows returns user 43 and no address, and the second
    logout request is accepted. *)
Definition login_without_address : response :=
  {| status := 200; statusText := "OK"; set_cookie := Some "sid=2";
     json := Some (JObj [("data", JObj [("user", JObj [("id", JNum 43)])])]) |}.
Definition expired : World :=
  Sample.world_of Sample.client1
    [Sample.answers 401 (JObj []); Responds login_without_address;
     Sample.answers 200 (JObj [])].
Definition logged_out_again : World := Eval vm_compute in snd (Client.logout expired).

Lemma logout_after_expiry : Client.logout expired = (Ok tt, logged_out_again).
Proof. vm_compute. reflexivity. Qed.

Lemma logout_of_logged_in :
  (sessionCookies (client logged_out) = ""
   /\ userId (client logged_out) = JNum 42
   /\ addressId (client logged_out) = JNum 7)
  /\ (sessionCookies (client logged_out_again) = ""
      /\ userId (client logged_out_again) = JNum 43
      /\ addressId (client logged_out_again) = JUndefined).
Proof.
  split.
  - destruct (logout_clears_cookies_only _ _ logout_completes) as (Hc & _ & Hk & _).
    destruct (Hk _ _ eq_refl eq_refl) as (Hu & Ha).
    split; [exact Hc|]. split; [exact Hu|exact Ha].
  - destruct (logout_clears_cookies_only _ _ logout_after_expiry) as (Hc & _ & _ & Hk).
    destruct (Hk _ _ _ _ eq_refl eq_refl eq_refl) as (Hu & Ha & _).
    split; [exact Hc|]. split; [exact Hu|exact Ha].
Defined.

End Logout.

(** ** Write-if-changed *)

Module Sink.

(** The value the sink holds: the last one written to it, [null] before
    any write. *)
Definition current (capabilityId : string) (w : World) : jsval :=
  default JNull (capabilities (device w) !! capabilityId).

Lemma strict_eq_primitive (a b : jsval) :
  JS.primitive b = true -> (JS.strict_eq a b = true <-> a = b).
Proof.
  intros Hb. split.
  - destruct a, b; simpl; try discriminate; try reflexivity; intros H.
    + apply eqb_prop in H. now subst.
    + apply Z.eqb_eq in H. now subst.
    + apply String.eqb_eq in H. now subst.
  - intros ->. destruct b; simpl in *; try reflexivity; try discriminate.
    + apply eqb_reflx.
    + apply Z.eqb_refl.
    + apply String.eqb_refl.
Qed.

(** C6.  Publishing to a sink a value equal to the one it holds writes
    nothing and leaves the world as it was.  Publishing a new value twice
    in a row to a sink that accepts it writes exactly once: the first call
    writes, the second finds the value in place. *)
Theorem write_if_changed (capabilityId : string) (value : jsval) (w : World) :
  JS.primitive value = true ->
  (current capabilityId w = value ->
     updateCapabilityValue capabilityId value w = (Ok tt, w))
  /\ (current capabilityId w <> value ->
      sinkAccepts (device w) capabilityId value = true ->
      exists w1,
        updateCapabilityValue capabilityId value w = (Ok tt, w1)
        /\ writes (device w1) = writes (device w) ++ [(capabilityId, value)]
        /\ current capabilityId w1 = value
        /\ updateCapabilityValue capabilityId value w1 = (Ok tt, w1)).
Proof.
  intros Hprim.
  assert (Hsame : forall w0, current capabilityId w0 = value ->
            updateCapabilityValue capabilityId value w0 = (Ok tt, w0)).
  { intros w0 Hcur. unfold updateCapabilityValue, bind, Homey.getCapabilityValue, gets.
    fold (current capabilityId w0).
    rewrite (proj2 (strict_eq_primitive _ _ Hprim) Hcur). reflexivity. }
  split; [apply Hsame|].
  intros Hne Hacc.
  assert (Hcur : current capabilityId
            (with_device (Homey.store capabilityId value true (device w)) w) = value).
  { unfold current. simpl. rewrite lookup_insert_eq. reflexivity. }
  exists (with_device (Homey.store capabilityId value true (device w)) w).
  split; [|split; [|split]].
  - unfold updateCapabilityValue, bind, Homey.getCapabilityValue, gets.
    fold (current capabilityId w).
    destruct (JS.strict_eq (current capabilityId w) value) eqn:E.
    { apply strict_eq_primitive in E; [contradiction|exact Hprim]. }
    unfold try_catch, Homey.setCapabilityValue, bind, gets, Homey.on_device, modify.
    cbn [negb]. cbv beta iota. rewrite Hacc. reflexivity.
  - reflexivity.
  - exact Hcur.
  - apply Hsame. exact Hcur.
Qed.

Lemma eta_published_once :
  exists w1,
    updateCapabilityValue "measure_next_delivery_eta" (JNum 7) (Sample.world_of Sample.client1 [])
      = (Ok tt, w1)
    /\ writes (device w1) = [("measure_next_delivery_eta", JNum 7)]
    /\ current "measure_next_delivery_eta" w1 = JNum 7
    /\ updateCapabilityValue "measure_next_delivery_eta" (JNum 7) w1 = (Ok tt, w1).
Proof.
  exact (proj2 (write_if_changed "measure_next_delivery_eta" (JNum 7)
                  (Sample.world_of Sample.client1 []) eq_refl)
               ltac:(discriminate) eq_refl).
Defined.

End Sink.

(** ** Fast delivery polling *)

Module Polling.
Import Frame.

Definition is_fast (iv : nat * callback * Z) : bool :=
  match Homey.callback_of iv with
  | CbUpdateDeliveryStatusOnly => true
  | CbUpdateData => false
  end.

(** The running intervals that call [updateDeliveryStatusOnly]. *)
Definition fast_timers (w : World) : list (nat * callback * Z) :=
  List.filter is_fast (intervals (device w)).

Definition armed (w : World) : Prop :=
  deliveryPollingInterval (device w) <> None.

(** The field [deliveryPollingInterval] holds the handle of the one fast
    timer, or nothing when there is none. *)
Definition consistent (w : World) : Prop :=
  fast_timers w =
  match deliveryPollingInterval (device w) with
  | Some h => [(h, CbUpdateDeliveryStatusOnly, 60000)]
  | None => []
  end.

Definition timers (w : World) : list (nat * callback * Z) * option nat :=
  (intervals (device w), deliveryPollingInterval (device w)).

Lemma consistent_timers (w w' : World) :
  timers w' = timers w -> consistent w -> consistent w'.
Proof.
  unfold timers, consistent, fast_timers. intros [= -> ->]. auto.
Qed.

Lemma filter_clear (h : nat) (ivs : list (nat * callback * Z)) :
  List.filter is_fast (Homey.clear h ivs) = Homey.clear h (List.filter is_fast ivs).
Proof.
  unfold Homey.clear. induction ivs as [|iv ivs IH]; simpl; [reflexivity|].
  destruct (negb (Nat.eqb (Homey.handle_of iv) h)) eqn:E1, (is_fast iv) eqn:E2;
    simpl; rewrite ?E1, ?E2, ?IH; reflexivity.
Qed.

Lemma invariant_timers {A} (m : M A) : preserves timers m -> invariant consistent m.
Proof. intros H w Hw. exact (consistent_timers _ _ (H w) Hw). Qed.

Lemma manage_run (status : ShipmentState) (w : World) :
  consistent w ->
  exists w',
    Device.manageDeliveryPolling status w = (Ok tt, w')
    /\ consistent w'
    /\ (armed w' <-> status = delivery)
    /\ (status = delivery -> armed w -> w' = w)
    /\ (status = delivery -> exists h, fast_timers w' = [(h, CbUpdateDeliveryStatusOnly, 60000)])
    /\ (status <> delivery -> fast_timers w' = []).
Proof.
  unfold consistent, armed, fast_timers, Device.manageDeliveryPolling,
    bind, gets, Homey.log, Homey.on_device, modify.
  destruct w as [c e d]. cbn [device].
  destruct (deliveryPollingInterval d) as [h|] eqn:Hd; intros Hc; destruct status;
    eexists; (split; [reflexivity|]); simpl; rewrite ?Hd, ?filter_clear, ?Hc; simpl;
    rewrite ?Nat.eqb_refl; simpl.
  all: repeat split; try congruence; try discriminate; eauto.
  all: try (rewrite List.filter_app, Hc; reflexivity).
  all: intros _; eexists; rewrite List.filter_app, Hc; reflexivity.
Qed.

Lemma publish_timers (capabilityId : string) (value : jsval) (w : World) :
  exists w', updateCapabilityValue capabilityId value w = (Ok tt, w') /\ timers w' = timers w.
Proof.
  unfold updateCapabilityValue, bind, Homey.getCapabilityValue, gets.
  destruct (negb _); [|eexists; split; reflexivity].
  unfold try_catch, Homey.setCapabilityValue, bind, gets, Homey.on_device, modify, Homey.error.
  destruct (sinkAccepts _ _ _); eexists; split; reflexivity.
Qed.

Lemma general_cart_timers : preserves timers Device.general_cart.
Proof. unfold Device.general_cart, Client.getCartContent. frame. Qed.

Lemma general_upcoming_timers : preserves timers Device.general_upcoming.
Proof. unfold Device.general_upcoming, Client.getUpcomingOrders. frame. Qed.

Lemma general_bags_timers : preserves timers Device.general_bags.
Proof. unfold Device.general_bags, Client.getReusableBagsInfo. frame. Qed.

Lemma announcements_timers : preserves timers Client.getDeliveryAnnouncements.
Proof. unfold Client.getDeliveryAnnouncements. frame. Qed.

Lemma publish_shipment_consistent (status : ShipmentState) (eta : Z) :
  invariant consistent (Device.publish_shipment status eta).
Proof.
  unfold Device.publish_shipment.
  apply invariant_bind; [apply invariant_timers; frame|]. intros _.
  apply invariant_bind; [apply invariant_timers; frame|]. intros _.
  intros w Hw. destruct (manage_run status w Hw) as (w' & -> & Hc & _). exact Hc.
Qed.

Lemma derive_consistent :
  invariant consistent
    (deliveryAnnouncements <- Client.getDeliveryAnnouncements ;;
     derived <- lift (Device.classify deliveryAnnouncements) ;;
     Device.publish_shipment (fst derived) (snd derived)).
Proof.
  apply invariant_bind; [apply invariant_timers, announcements_timers|]. intros da.
  apply invariant_bind; [apply invariant_timers; frame|]. intros derived.
  apply publish_shipment_consistent.
Qed.

Lemma updateGeneralData_consistent : invariant consistent Device.updateGeneralData.
Proof.
  unfold Device.updateGeneralData.
  apply invariant_bind; [apply invariant_timers; frame|]. intros uid.
  destruct (negb _); [apply invariant_timers; frame|].
  apply invariant_bind; [apply invariant_timers, general_cart_timers|]. intros _.
  apply invariant_bind; [apply invariant_timers, general_upcoming_timers|]. intros _.
  apply invariant_bind; [exact derive_consistent|]. intros _.
  apply invariant_timers, general_bags_timers.
Qed.

Lemma updateDeliveryStatusOnly_consistent :
  invariant consistent Device.updateDeliveryStatusOnly.
Proof.
  unfold Device.updateDeliveryStatusOnly.
  apply invariant_bind; [apply invariant_timers; frame|]. intros uid.
  destruct (negb _); [apply invariant_timers; frame|].
  apply invariant_try_catch; [exact derive_consistent|].
  intros e. apply invariant_timers. frame.
Qed.

(** The whole poll, [updateData], keeps the agreement too: the slot tick
    and the error handler touch no timer. *)
Lemma updateData_consistent : invariant consistent Device.updateData.
Proof.
  unfold Device.updateData.
  apply invariant_try_catch.
  - apply invariant_bind.
    + apply invariant_all2;
        [exact updateGeneralData_consistent | apply invariant_timers; frame
        | apply invariant_timers; frame].
    + intros _. apply invariant_timers. frame.
  - intros e. apply invariant_timers. frame.
Qed.

(** What a tick that has derived [status] leaves of the timers of [w]:
    the field and the fast timers agree, at most one fast timer runs, and
    the timer is armed exactly when [status] is [delivery]; deriving
    [delivery] while armed changes no timer. *)
Definition follows (status : ShipmentState) (w w' : World) : Prop :=
  consistent w'
  /\ (length (fast_timers w') <= 1)%nat
  /\ (armed w' <-> status = delivery)
  /\ (status = delivery -> armed w -> timers w' = timers w)
  /\ (status = delivery ->
      exists h, fast_timers w' = [(h, CbUpdateDeliveryStatusOnly, 60000)])
  /\ (status <> delivery -> fast_timers w' = []).

(** The state that the block shared by the two ticks derives in [w], if
    the announcements are fetched and classified. *)
Definition derived_at (w : World) : option ShipmentState :=
  match Client.getDeliveryAnnouncements w with
  | (Ok deliveryAnnouncements, _) =>
      match Device.classify deliveryAnnouncements with
      | Ok derived => Some (fst derived)
      | Throw _ => None
      end
  | (Throw _, _) => None
  end.

(** The state that a tick started in [w] derives: none without a user id,
    none when a step before the block ([steps]) fails. *)
Definition derived (steps : M unit) (w : World) : option ShipmentState :=
  if JS.truthy (userId (client w)) then
    match steps w with
    | (Ok _, w1) => derived_at w1
    | (Throw _, _) => None
    end
  else None.

(** The timers after a tick: they follow the state it derived, and are
    what they were when it derived none. *)
Definition after (state : option ShipmentState) (w w' : World) : Prop :=
  match state with
  | Some status => follows status w w'
  | None => timers w' = timers w /\ consistent w'
  end.

Lemma follows_timers (status : ShipmentState) (w0 w1 w w' : World) :
  timers w0 = timers w -> timers w' = timers w1 ->
  follows status w0 w1 -> follows status w w'.
Proof.
  unfold follows, consistent, armed, fast_timers, timers.
  intros [= -> ->] [= -> ->]. auto.
Qed.

Lemma after_timers (state : option ShipmentState) (w0 w1 w w' : World) :
  timers w0 = timers w -> timers w' = timers w1 ->
  after state w0 w1 -> after state w w'.
Proof.
  destruct state as [status|]; simpl.
  - apply follows_timers.
  - intros H0 H1 [Ht Hc]. split; [congruence|].
    exact (consistent_timers _ _ H1 Hc).
Qed.

Lemma manage_follows (status : ShipmentState) (w : World) :
  consistent w ->
  exists w', Device.manageDeliveryPolling status w = (Ok tt, w') /\ follows status w w'.
Proof.
  intros Hw.
  destruct (manage_run status w Hw) as (w' & E & Hc & Harm & Hidem & Hone & Hoff).
  exists w'. split; [exact E|].
  split; [exact Hc|].
  split; [|split; [exact Harm|split; [|split; [exact Hone|exact Hoff]]]].
  - unfold consistent in Hc. rewrite Hc.
    destruct (deliveryPollingInterval (device w')); simpl; lia.
  - intros Hs Ha. rewrite (Hidem Hs Ha). reflexivity.
Qed.

Lemma publish_shipment_follows (status : ShipmentState) (eta : Z) (w : World) :
  consistent w ->
  exists w', Device.publish_shipment status eta w = (Ok tt, w') /\ follows status w w'.
Proof.
  intros Hw. unfold Device.publish_shipment. unfold bind at 1.
  destruct (publish_timers "string_next_delivery_status" (JStr (state_name status)) w)
    as (w1 & -> & H1).
  unfold bind at 1.
  destruct (publish_timers "measure_next_delivery_eta" (JNum eta) w1) as (w2 & -> & H2).
  assert (Hw2 : consistent w2)
    by (apply (consistent_timers w); [congruence|exact Hw]).
  destruct (manage_follows status w2 Hw2) as (w' & -> & Hf).
  exists w'. split; [reflexivity|].
  apply (follows_timers status w2 w'); [congruence|reflexivity|exact Hf].
Qed.

Lemma general_delivery_after (w : World) :
  consistent w -> after (derived_at w) w (snd (Device.general_delivery w)).
Proof.
  intros Hw. unfold Device.general_delivery, derived_at. unfold bind at 1.
  pose proof (announcements_timers w) as Ht.
  destruct (Client.getDeliveryAnnouncements w) as [[da|e] w1]; cbn [snd] in Ht.
  - unfold bind at 1, lift.
    destruct (Device.classify da) as [[status eta]|e]; cbn [fst snd after].
    + destruct (publish_shipment_follows status eta w1 (consistent_timers _ _ Ht Hw))
        as (w' & -> & Hf).
      apply (follows_timers status w1 w'); [exact Ht|reflexivity|exact Hf].
    + split; [exact Ht|exact (consistent_timers _ _ Ht Hw)].
  - cbn [snd after]. split; [exact Ht|exact (consistent_timers _ _ Ht Hw)].
Qed.

Lemma updateDeliveryStatusOnly_after (w : World) :
  consistent w ->
  after (derived (ret tt) w) w (snd (Device.updateDeliveryStatusOnly w)).
Proof.
  intros Hw. unfold derived, Device.updateDeliveryStatusOnly. unfold bind at 1, gets.
  destruct (JS.truthy (userId (client w))); cbn [negb];
    [|split; [reflexivity|exact Hw]].
  change (deliveryAnnouncements <- Client.getDeliveryAnnouncements ;;
          derived <- lift (Device.classify deliveryAnnouncements) ;;
          Device.publish_shipment (fst derived) (snd derived))
    with Device.general_delivery.
  unfold ret. pose proof (general_delivery_after w Hw) as H.
  unfold try_catch. destruct (Device.general_delivery w) as [[[]|e] w1]; cbn [snd] in *.
  - exact H.
  - apply (after_timers _ w w1); [reflexivity| |exact H].
    assert (Hp : preserves timers (Homey.error "Delivery status update failed:" e))
      by frame.
    apply Hp.
Qed.

Lemma updateGeneralData_after (w : World) :
  consistent w ->
  after (derived (Device.general_cart ;; Device.general_upcoming) w) w
        (snd (Device.updateGeneralData w)).
Proof.
  intros Hw. unfold derived, Device.updateGeneralData. unfold bind at 2, gets.
  destruct (JS.truthy (userId (client w))); cbn [negb];
    [|split; [reflexivity|exact Hw]].
  unfold bind.
  pose proof (general_cart_timers w) as H1.
  destruct (Device.general_cart w) as [[[]|e] w1]; cbn [snd] in *;
    [|split; [exact H1|exact (consistent_timers _ _ H1 Hw)]].
  pose proof (general_upcoming_timers w1) as H2.
  destruct (Device.general_upcoming w1) as [[[]|e] w2]; cbn [snd] in *;
    [|split; [congruence|apply (consistent_timers w); [congruence|exact Hw]]].
  assert (Hw2 : consistent w2) by (apply (consistent_timers w); [congruence|exact Hw]).
  pose proof (general_delivery_after w2 Hw2) as H.
  destruct (Device.general_delivery w2) as [[[]|e] w3]; cbn [snd] in *.
  - apply (after_timers _ w2 w3); [congruence|apply general_bags_timers|exact H].
  - apply (after_timers _ w2 w3); [congruence|reflexivity|exact H].
Qed.

(** The timers after the whole poll are those after its general tick. *)
Lemma updateData_timers (w : World) :
  timers (snd (Device.updateData w)) = timers (snd (Device.updateGeneralData w)).
Proof.
  assert (Hh : forall e, preserves timers
                 (Homey.error "Update failed:" e ;;
                  Homey.setUnavailable (Device.message_or "Update failed" e) ;;
                  Homey.trigger "error_occurred"
                    (JObj [("error", Device.message_or "Unknown error" e)])))
    by (intros e; frame).
  assert (Hk : preserves timers Homey.setAvailable) by frame.
  assert (Hs : preserves timers Device.updateSlotsData) by frame.
  assert (Hr : preserves timers race) by frame.
  unfold Device.updateData, try_catch. unfold bind at 1. unfold all2.
  destruct (Device.updateGeneralData w) as [ra w1]. cbn [snd].
  specialize (Hs w1). destruct (Device.updateSlotsData w1) as [rb w2]. cbn [snd] in Hs.
  destruct ra as [[]|ea], rb as [[]|eb].
  - specialize (Hk w2). destruct (Homey.setAvailable w2) as [[[]|e] w3]; cbn [snd] in *;
      [congruence|]. rewrite (Hh e w3). congruence.
  - rewrite (Hh eb w2). exact Hs.
  - rewrite (Hh ea w2). exact Hs.
  - unfold bind at 1. specialize (Hr w2).
    destruct (race w2) as [[first|e] w3]; cbn [snd] in Hr; unfold throw;
      rewrite Hh; congruence.
Qed.

(** C7.  From a world in which the field [deliveryPollingInterval] and the
    fast timers agree, each tick, run to its end, leaves the fast timer
    armed exactly when the state it has derived is [delivery]: the fast
    poll ([updateDeliveryStatusOnly]), the general tick
    ([updateGeneralData]) and the whole poll ([updateData]) end in a world
    where field and timers still agree, where at most one fast timer runs,
    where the timer is armed if and only if the derived state is
    [delivery], where deriving [delivery] while armed has changed no timer
    and where deriving another state has left no fast timer.  A tick that
    derives no state (no user id, or a fetch or the classification failed)
    leaves the timers as they were.  The same holds of the synchronous
    step that arms and disarms, [manageDeliveryPolling], for every state. *)
Theorem fast_timer_follows_state (w : World) :
  consistent w ->
  (forall status,
     exists w', Device.manageDeliveryPolling status w = (Ok tt, w')
                /\ follows status w w')
  /\ after (derived (ret tt) w) w (snd (Device.updateDeliveryStatusOnly w))
  /\ after (derived (Device.general_cart ;; Device.general_upcoming) w) w
           (snd (Device.updateGeneralData w))
  /\ after (derived (Device.general_cart ;; Device.general_upcoming) w) w
           (snd (Device.updateData w)).
Proof.
  intros Hw. split; [|split; [|split]].
  - intros status. exact (manage_follows status w Hw).
  - exact (updateDeliveryStatusOnly_after w Hw).
  - exact (updateGeneralData_after w Hw).
  - apply (after_timers _ w (snd (Device.updateGeneralData w)));
      [reflexivity|apply updateData_timers|exact (updateGeneralData_after w Hw)].
Qed.

(** Tearing the device down while armed stops the fast timer. *)
Lemma onDeleted_stops_fast_timer (w : World) :
  consistent w -> fast_timers (snd (Device.onDeleted w)) = [].
Proof.
  unfold consistent, fast_timers, Device.onDeleted, bind, Homey.on_device, Homey.log, modify.
  destruct w as [c e d]. simpl. intros Hc.
  destruct (deliveryPollingInterval d) as [h|];
    destruct (pollingInterval d) as [g|]; simpl;
    rewrite ?filter_clear, ?Hc; unfold Homey.clear, Homey.handle_of; simpl;
    try destruct (Nat.eqb h g); simpl; rewrite ?Nat.eqb_refl; reflexivity.
Qed.

Definition quiet : World := Sample.world_of Sample.client1 [].

Lemma quiet_consistent : consistent quiet.
Proof. reflexivity. Qed.

(** Three fast polls of a logged-in device: the courier is seven minutes
    away, still seven minutes away, and then the next order is being
    packed. *)
Definition packing : jsval :=
  JObj [("announcements", JArr [JObj [("icon", JStr "iconProducts")]])].
Definition approaching : World :=
  Sample.world_of Sample.client1
    [Sample.answers 200 Classifier.seven_minutes;
     Sample.answers 200 Classifier.seven_minutes;
     Sample.answers 200 packing].
Definition delivering : World :=
  Eval vm_compute in snd (Device.updateDeliveryStatusOnly approaching).
Definition still_delivering : World :=
  Eval vm_compute in snd (Device.updateDeliveryStatusOnly delivering).
Definition delivered : World :=
  Eval vm_compute in snd (Device.updateDeliveryStatusOnly still_delivering).

Lemma one_fast_timer_when_delivering :
  (follows delivery approaching delivering
   /\ fast_timers delivering = [(0%nat, CbUpdateDeliveryStatusOnly, 60000)])
  /\ (follows delivery delivering still_delivering
      /\ timers still_delivering = timers delivering)
  /\ (follows preparing_bags still_delivering delivered
      /\ fast_timers delivered = []).
Proof.
  pose (H1 := proj1 (proj2 (fast_timer_follows_state approaching eq_refl))
              <: follows delivery approaching delivering).
  pose (H2 := proj1 (proj2 (fast_timer_follows_state delivering eq_refl))
              <: follows delivery delivering still_delivering).
  pose (H3 := proj1 (proj2 (fast_timer_follows_state still_delivering eq_refl))
              <: follows preparing_bags still_delivering delivered).
  split; [|split].
  - split; [exact H1|reflexivity].
  - split; [exact H2|].
    destruct H2 as (_ & _ & Ha & Hidem & _).
    destruct H1 as (_ & _ & Ha1 & _).
    exact (Hidem eq_refl (proj2 Ha1 eq_refl)).
  - split; [exact H3|].
    destruct H3 as (_ & _ & _ & _ & _ & Hoff). apply Hoff. discriminate.
Defined.

End Polling.

(** ** Removal by product id *)

Module Removal.
Import Frame Run Executor.

(** The line ids passed to [removeFromCart]. *)
Definition sel_remove (ev : event) : option jsval :=
  match ev with Call (RemoveFromCart x) => Some x | _ => None end.

(** The DELETE requests sent. *)
Definition sel_delete (ev : event) : option request :=
  match ev with
  | Fetch _ _ rq =>
      match req_method rq with
      | Some m => if String.eqb m "DELETE" then Some rq else None
      | None => None
      end
  | _ => None
  end.

Definition delete_options : Client.options :=
  {| Client.opt_method := Some "DELETE"; Client.opt_headers := []; Client.opt_body := None |}.

Definition line_path (orderFieldId : string) : string :=
  "/services/frontend-service/v2/cart?orderFieldId=" +:+ orderFieldId.

Lemma find_line_some (product_id : jsval) (items : list Client.CartItem) (line : Client.CartItem) :
  Device.find_line product_id items = Some line ->
  In line items /\ Client.id line = JS.toString product_id.
Proof.
  unfold Device.find_line. intros H. apply find_some in H as [Hin Hp].
  split; [exact Hin|].
  apply orb_prop in Hp as [Hp|Hp].
  - destruct product_id; simpl in Hp; try discriminate.
    apply String.eqb_eq in Hp. simpl. exact Hp.
  - apply String.eqb_eq in Hp. exact Hp.
Qed.

Lemma find_line_none (product_id : jsval) (items : list Client.CartItem) :
  (forall line, In line items -> Client.id line <> JS.toString product_id) ->
  Device.find_line product_id items = None.
Proof.
  intros H. destruct (Device.find_line product_id items) as [line|] eqn:E; [|reflexivity].
  apply find_line_some in E as [Hin Hid]. destruct (H line Hin Hid).
Qed.

Lemma dispatch_delete (url : string) (w : World) :
  seen sel_delete (snd (Client.dispatch url delete_options w))
  = seen sel_delete w ++ [call_request url delete_options w].
Proof.
  destruct (dispatch_trace url delete_options w) as (t & E).
  unfold seen. rewrite E, pick_app. reflexivity.
Qed.

Lemma deliver_delete (url : string) (r : response) :
  preserves (seen sel_delete) (Client.deliver url r).
Proof. frame. Qed.

Lemma login_delete : preserves (seen sel_delete) Client.login.
Proof. frame. Qed.

Definition targets (base path : string) (rq : request) : Prop :=
  req_url rq = base +:+ path.

Lemma makeRequest_deletes (url : string) (w : World) :
  exists sent,
    seen sel_delete (snd (Client.makeRequest url delete_options false w))
    = seen sel_delete w ++ sent
    /\ sent <> [] /\ (length sent <= 2)%nat
    /\ Forall (targets (baseUrl (client w)) url) sent.
Proof.
  rewrite makeRequest_unfold. unfold Client.makeRequest_body. unfold bind at 1.
  pose proof (dispatch_delete url w) as Hd.
  pose proof (dispatch_baseUrl url delete_options w) as Hb.
  assert (H1 : targets (baseUrl (client w)) url (call_request url delete_options w))
    by reflexivity.
  destruct (Client.dispatch url delete_options w) as [[r|e] w1]; cbn [snd] in *.
  2:{ exists [call_request url delete_options w]. repeat split; auto; simpl; lia. }
  destruct (Client.auth_failed r); cbn [negb]; cbv beta iota.
  2:{ rewrite deliver_delete. exists [call_request url delete_options w].
      repeat split; auto; simpl; lia. }
  unfold bind.
  pose proof (login_delete w1) as Hl. pose proof (login_baseUrl w1) as Hlb.
  destruct (Client.login w1) as [[[]|e] w2]; cbn [snd] in *.
  2:{ exists [call_request url delete_options w]. rewrite Hl.
      repeat split; auto; simpl; lia. }
  rewrite makeRequest_unfold. unfold Client.makeRequest_body, bind.
  pose proof (dispatch_delete url w2) as Hd2.
  assert (H2 : targets (baseUrl (client w)) url (call_request url delete_options w2)).
  { unfold targets, call_request. simpl. congruence. }
  exists [call_request url delete_options w; call_request url delete_options w2].
  destruct (Client.dispatch url delete_options w2) as [[r2|e] w3]; cbn [snd] in *.
  - destruct (Client.auth_failed r2); cbn [negb]; cbv beta iota; unfold throw; cbn [snd];
      rewrite ?deliver_delete;
      rewrite Hd2, Hl, Hd, <- app_assoc; repeat split; auto; simpl; lia.
  - rewrite Hd2, Hl, Hd, <- app_assoc. repeat split; auto; simpl; lia.
Qed.

Lemma getCartContent_remove : preserves (seen sel_remove) Client.getCartContent.
Proof. frame. Qed.
Lemma getCartContent_delete : preserves (seen sel_delete) Client.getCartContent.
Proof. frame. Qed.
Lemma getCartContent_baseUrl : preserves (fun w => baseUrl (client w)) Client.getCartContent.
Proof. frame. Qed.
Lemma updateData_remove : preserves (seen sel_remove) Device.updateData.
Proof. frame. Qed.
Lemma updateData_delete : preserves (seen sel_delete) Device.updateData.
Proof. frame. Qed.
Lemma makeRequest_remove (url : string) (o : Client.options) (r : bool) :
  preserves (seen sel_remove) (Client.makeRequest url o r).
Proof. frame. Qed.

Lemma removeFromCart_run (orderFieldId : string) (w : World) :
  seen sel_remove (snd (Client.removeFromCart (JStr orderFieldId) w))
  = seen sel_remove w ++ [JStr orderFieldId]
  /\ exists sent,
       seen sel_delete (snd (Client.removeFromCart (JStr orderFieldId) w))
       = seen sel_delete w ++ sent
       /\ sent <> [] /\ (length sent <= 2)%nat
       /\ Forall (targets (baseUrl (client w)) (line_path orderFieldId)) sent.
Proof.
  unfold Client.removeFromCart. unfold bind at 1 3. unfold Client.on_env, modify.
  set (w0 := with_env (record (Call (RemoveFromCart (JStr orderFieldId))) (env w)) w).
  assert (Hr : seen sel_remove w0 = seen sel_remove w ++ [JStr orderFieldId]).
  { unfold seen, w0. simpl. rewrite pick_app. reflexivity. }
  assert (Hd : seen sel_delete w0 = seen sel_delete w).
  { unfold seen, w0. simpl. rewrite pick_app. simpl. apply app_nil_r. }
  assert (Hb : baseUrl (client w0) = baseUrl (client w)) by reflexivity.
  clearbody w0. fold delete_options. simpl JS.toString. fold (line_path orderFieldId).
  pose proof (makeRequest_remove (line_path orderFieldId) delete_options false w0) as Hm.
  destruct (makeRequest_deletes (line_path orderFieldId) w0) as (sent & Hs & Hne & Hlen & Hall).
  unfold bind.
  destruct (Client.makeRequest (line_path orderFieldId) delete_options false w0)
    as [[v|e] w1]; simpl in *.
  - split; [congruence|]. exists sent. rewrite Hs, Hd, <- Hb. auto.
  - split; [congruence|]. exists sent. rewrite Hs, Hd, <- Hb. auto.
Qed.

(** C8.  Removal by product id reads the cart first: when that read
    returns, no removal has been asked for and no DELETE request sent.  If a
    line of the cart has the product id, [removeFromCart] is called exactly
    once, with the line id of the first such line, and the DELETE requests
    sent (one, or two when that call is retried after a re-login) all go to
    that line's address; if no line has it, the action fails with
    [Product not found in cart] in the world the cart read left. *)
Theorem remove_by_product_id (product_id : jsval) (w w1 : World) (cart : Client.Cart) :
  JS.truthy product_id = true ->
  Client.getCartContent w = (Ok cart, w1) ->
  let run := Device.onFlowActionRemoveItemById product_id w in
  seen sel_remove w1 = seen sel_remove w
  /\ seen sel_delete w1 = seen sel_delete w
  /\ (forall line,
        In line (Client.items cart) -> Client.id line = JS.toString product_id ->
        exists first,
          Device.find_line product_id (Client.items cart) = Some first
          /\ In first (Client.items cart)
          /\ Client.id first = JS.toString product_id
          /\ seen sel_remove (snd run)
             = seen sel_remove w ++ [JStr (Client.cart_item_id first)]
          /\ exists sent,
               seen sel_delete (snd run) = seen sel_delete w ++ sent
               /\ sent <> [] /\ (length sent <= 2)%nat
               /\ Forall (targets (baseUrl (client w))
                                  (line_path (Client.cart_item_id first))) sent)
  /\ ((forall line, In line (Client.items cart) ->
                    Client.id line <> JS.toString product_id) ->
      run = (Throw (Error "Product not found in cart"), w1)).
Proof.
  intros Ht Hcart run.
  pose proof (getCartContent_remove w) as Hr.
  pose proof (getCartContent_delete w) as Hd.
  pose proof (getCartContent_baseUrl w) as Hb.
  rewrite Hcart in Hr, Hd, Hb. cbn [snd] in Hr, Hd, Hb.
  assert (Hrun : run = match Device.find_line product_id (Client.items cart) with
                       | None => (Throw (Error "Product not found in cart"), w1)
                       | Some item =>
                           bind (Client.removeFromCart (JStr (Client.cart_item_id item)))
                                (fun _ => Device.updateData) w1
                       end).
  { unfold run, Device.onFlowActionRemoveItemById. rewrite Ht. cbn [negb].
    unfold bind at 1. rewrite Hcart.
    destruct (Device.find_line product_id (Client.items cart)); reflexivity. }
  clearbody run.
  split; [exact Hr|]. split; [exact Hd|]. split.
  - intros line Hin Hid.
    destruct (Device.find_line product_id (Client.items cart)) as [first|] eqn:Hf.
    2:{ exfalso. unfold Device.find_line in Hf.
        apply (find_none _ _ Hf) in Hin. rewrite Hid, String.eqb_refl, orb_true_r in Hin.
        discriminate. }
    destruct (find_line_some _ _ _ Hf) as [Hin1 Hid1].
    exists first. split; [reflexivity|]. split; [exact Hin1|]. split; [exact Hid1|].
    destruct (removeFromCart_run (Client.cart_item_id first) w1) as (Hrem & sent & Hs & Hrest).
    subst run. unfold bind.
    destruct (Client.removeFromCart (JStr (Client.cart_item_id first)) w1)
      as [[v|e] w2]; cbn [snd] in *.
    + rewrite updateData_remove, updateData_delete. split; [congruence|].
      exists sent. rewrite Hs, Hd, <- Hb. split; [reflexivity|exact Hrest].
    + split; [congruence|].
      exists sent. rewrite Hs, Hd, <- Hb. split; [reflexivity|exact Hrest].
  - intros Hnone. rewrite (find_line_none _ _ Hnone) in Hrun. exact Hrun.
Qed.

Definition one_line_cart : jsval :=
  JObj [("data",
         JObj [("totalPrice", JNum 25);
               ("items", JObj [("10", JObj [("productId", JNum 10);
                                            ("orderFieldId", JNum 99);
                                            ("productName", JStr "Rohlik")])])])].

Definition shopping : World :=
  Sample.world_of Sample.client1
    [Sample.answers 200 one_line_cart; Sample.answers 200 (JObj [])].

Definition the_line : Client.CartItem :=
  {| Client.id := "10"; Client.cart_item_id := "99"; Client.name := JStr "Rohlik";
     Client.quantity := JUndefined; Client.price := JUndefined;
     Client.pricePerUnit := JUndefined |}.

Definition the_cart : Client.Cart :=
  {| Client.totalPrice := JNum 25; Client.totalItems := 1; Client.items := [the_line] |}.

Definition cart_was_read : World := Eval vm_compute in snd (Client.getCartContent shopping).

Lemma shopping_cart : Client.getCartContent shopping = (Ok the_cart, cart_was_read).
Proof. vm_compute. reflexivity. Qed.

Lemma line_99_removed :
  seen sel_remove (snd (Device.onFlowActionRemoveItemById (JStr "10") shopping))
  = [JStr "99"]
  /\ Device.onFlowActionRemoveItemById (JStr "11") shopping
     = (Throw (Error "Product not found in cart"), cart_was_read).
Proof.
  split.
  - destruct (remove_by_product_id (JStr "10") shopping cart_was_read the_cart
                eq_refl shopping_cart) as (_ & _ & Hfound & _).
    destruct (Hfound the_line (or_introl eq_refl) eq_refl)
      as (first & Hfirst & _ & _ & Hrem & _).
    injection Hfirst as <-. exact Hrem.
  - destruct (remove_by_product_id (JStr "11") shopping cart_was_read the_cart
                eq_refl shopping_cart) as (_ & _ & _ & Hnone).
    apply Hnone. intros line [<-|[]]. discriminate.
Defined.

End Removal.

(** ** Sub-fetches of a general-data tick *)

Module Isolation.
Import Frame.

Definition sel_announcements (ev : event) : option unit :=
  match ev with Call GetDeliveryAnnouncements => Some tt | _ => None end.

Definition sel_bags (ev : event) : option unit :=
  match ev with Call GetReusableBagsInfo => Some tt | _ => None end.

(** Between [w] and [w'] the sub-fetch selected by [sel] was made once. *)
Definition made (sel : event -> option unit) (w w' : World) : Prop :=
  seen sel w' = seen sel w ++ [tt].

(** The sub-fetches of a tick are isolated: whenever the tick gets as far
    as the announcement fetch, it also makes the bag fetch, and it returns
    instead of throwing. *)
Definition sub_fetches_isolated (tick : M unit) : Prop :=
  forall w, made sel_announcements w (snd (tick w)) ->
            fst (tick w) = Ok tt /\ made sel_bags w (snd (tick w)).

Lemma not_made (sel : event -> option unit) (w w' : World) :
  seen sel w' = seen sel w -> ~ made sel w w'.
Proof.
  unfold made. intros -> H. apply (f_equal (@length unit)) in H.
  rewrite length_app in H. simpl in H. lia.
Qed.

Lemma recorded_then {A} (sel : event -> option unit) (ev : event) (k : M A) (w : World) :
  sel ev = Some tt -> preserves (seen sel) k ->
  seen sel (snd ((Client.on_env (record ev) ;; k) w)) = seen sel w ++ [tt].
Proof.
  intros Hev Hk. unfold bind, Client.on_env, modify.
  set (w0 := with_env (record ev (env w)) w).
  assert (H0 : seen sel w0 = seen sel w ++ [tt]).
  { unfold seen, w0. simpl. rewrite pick_app. simpl. rewrite Hev. reflexivity. }
  clearbody w0. specialize (Hk w0). congruence.
Qed.

Lemma logged_never_throws (m : M unit) (label : string) (w : World) :
  exists w', try_catch m (Homey.error label) w = (Ok tt, w').
Proof.
  unfold try_catch. destruct (m w) as [[[]|e] w1]; simpl; eauto.
Qed.

Lemma try_catch_snd {A B} (f : World -> B) (m : M A) (h : exn -> M A) (w : World) :
  (forall e, preserves f (h e)) -> f (snd (try_catch m h w)) = f (snd (m w)).
Proof.
  intros Hh. unfold try_catch. destruct (m w) as [[a|e] w1]; [reflexivity|].
  simpl. apply Hh.
Qed.

Lemma error_seen (sel : event -> option unit) (label : string) (e : exn) :
  preserves (seen sel) (Homey.error label e).
Proof. frame. Qed.

(** *** The second copy of the device: each sub-fetch has its own handler *)

Lemma copy_bags_made (w : World) : made sel_bags w (snd (DeviceCopy.general_bags w)).
Proof.
  unfold made, DeviceCopy.general_bags. rewrite try_catch_snd by (intros; apply error_seen).
  unfold DeviceCopy.bags_step, Client.getReusableBagsInfo.
  match goal with |- context [snd (bind (bind ?r ?k1) ?k2 w)] =>
    change (snd (bind (bind r k1) k2 w)) with (snd (bind r (fun x => bind (k1 x) k2) w)) end.
  apply recorded_then; [reflexivity|]. frame.
Qed.

Lemma copy_delivery_bags : preserves (seen sel_bags) DeviceCopy.general_delivery.
Proof. unfold DeviceCopy.general_delivery, DeviceCopy.delivery_step. frame. Qed.

Lemma copy_delivery_returns (w : World) :
  exists w', DeviceCopy.general_delivery w = (Ok tt, w').
Proof. apply logged_never_throws. Qed.

Lemma copy_cart_announcements : preserves (seen sel_announcements) DeviceCopy.general_cart.
Proof. unfold DeviceCopy.general_cart. frame. Qed.

Lemma copy_cart_bags : preserves (seen sel_bags) DeviceCopy.general_cart.
Proof. unfold DeviceCopy.general_cart. frame. Qed.

(** A step under a handler that logs: the failure of the step is the last
    entry of the log, and the step returns. *)
Lemma logged_failure (m : M unit) (label : string) (w w1 : World) (e : exn) :
  m w = (Throw e, w1) ->
  try_catch m (Homey.error label) w
  = (Ok tt, with_device (Homey.add_log (LogError, label, Some e) (device w1)) w1).
Proof. intros E. unfold try_catch. rewrite E. reflexivity. Qed.

Section Courier.

Variable courier_approaching : jsval -> M unit.

(** The courier block makes no call of the client. *)
Hypothesis courier_quiet :
  forall nextOrder, preserves (fun w => trace (env w)) (courier_approaching nextOrder).

Lemma courier_seen (sel : event -> option unit) (nextOrder : jsval) :
  preserves (seen sel) (courier_approaching nextOrder).
Proof. intros w. unfold seen. now rewrite courier_quiet. Qed.

Lemma copy_upcoming_announcements :
  preserves (seen sel_announcements) (DeviceCopy.general_upcoming courier_approaching).
Proof.
  unfold DeviceCopy.general_upcoming.
  apply preserves_bind; [frame|]. intros upcoming.
  destruct (_ && _); [|frame].
  apply preserves_bind; [frame|]. intros _. apply courier_seen.
Qed.

Lemma copy_upcoming_bags :
  preserves (seen sel_bags) (DeviceCopy.general_upcoming courier_approaching).
Proof.
  unfold DeviceCopy.general_upcoming.
  apply preserves_bind; [frame|]. intros upcoming.
  destruct (_ && _); [|frame].
  apply preserves_bind; [frame|]. intros _. apply courier_seen.
Qed.

Lemma copy_never_throws (w : World) :
  fst (DeviceCopy.updateGeneralData courier_approaching w) = Ok tt.
Proof.
  unfold DeviceCopy.updateGeneralData, bind, gets.
  destruct (negb _); [reflexivity|].
  match goal with |- context [try_catch ?m ?h w] =>
    destruct (logged_never_throws m "Update General Data failed" w) as (w' & ->) end.
  reflexivity.
Qed.

Lemma copy_isolated :
  sub_fetches_isolated (DeviceCopy.updateGeneralData courier_approaching).
Proof.
  intros w Hmade. split; [apply copy_never_throws|].
  revert Hmade. unfold made, DeviceCopy.updateGeneralData. unfold bind at 1 5, gets.
  destruct (negb _).
  { intros H. exfalso. exact (not_made _ w w eq_refl H). }
  rewrite !try_catch_snd by (intros; apply error_seen).
  unfold bind.
  pose proof (copy_cart_announcements w) as Ha1.
  pose proof (copy_cart_bags w) as Hb1.
  destruct (DeviceCopy.general_cart w) as [[[]|e] w1]; cbn [snd] in *.
  2:{ intros H. exfalso. exact (not_made _ _ _ Ha1 H). }
  pose proof (copy_upcoming_announcements w1) as Ha2.
  pose proof (copy_upcoming_bags w1) as Hb2.
  destruct (DeviceCopy.general_upcoming courier_approaching w1) as [[[]|e] w2]; cbn [snd] in *.
  2:{ intros H. exfalso. apply (not_made sel_announcements w w2); [congruence|exact H]. }
  pose proof (copy_delivery_bags w2) as Hb3.
  destruct (copy_delivery_returns w2) as (w3 & E3). rewrite E3 in *. cbn [snd] in *.
  intros _. pose proof (copy_bags_made w3) as Hb4. unfold made in Hb4.
  rewrite Hb4. congruence.
Qed.

End Courier.

(** *** device.js: the sub-fetches have no handler of their own *)

Lemma delivery_bags : preserves (seen sel_bags) Device.general_delivery.
Proof. frame. Qed.

(** The failures that [updateData] has entered in the log of the device,
    oldest first. *)
Definition update_failure (entry : level * string * option exn) : option exn :=
  match entry with
  | (LogError, msg, Some e) => if String.eqb msg "Update failed:" then Some e else None
  | _ => None
  end.

Fixpoint failures (entries : list (level * string * option exn)) : list exn :=
  match entries with
  | [] => []
  | entry :: rest => match update_failure entry with
                     | Some e => e :: failures rest
                     | None => failures rest
                     end
  end.

Definition failures_logged (w : World) : list exn := failures (deviceLog (device w)).

Lemma failures_app (a b : list (level * string * option exn)) :
  failures (a ++ b) = failures a ++ failures b.
Proof.
  induction a as [|entry a IH]; simpl; [reflexivity|].
  destruct (update_failure entry); simpl; now rewrite IH.
Qed.

Ltac log_leaf :=
  solve [unfold modify; intros [? ? []]; unfold failures_logged; simpl;
         rewrite ?failures_app; simpl; rewrite ?app_nil_r; reflexivity].

(** The two ticks enter no such failure themselves, and fire no trigger. *)
Lemma ticks_log_no_failure :
  preserves failures_logged (all2 Device.updateGeneralData Device.updateSlotsData).
Proof. frame; log_leaf. Qed.

Lemma ticks_fire_no_trigger :
  preserves (fun w => triggers (device w))
    (all2 Device.updateGeneralData Device.updateSlotsData).
Proof. frame. Qed.

(** What [updateData], started in [w], leaves when it has reported the
    failure [e]: the device is unavailable with the message of [e], the
    failure has been entered in the log once, and the trigger
    [error_occurred] has fired once, with that message. *)
Definition reported (e : exn) (w w' : World) : Prop :=
  available (device w') = false
  /\ unavailableMessage (device w') = Some (Device.message_or "Update failed" e)
  /\ failures_logged w' = failures_logged w ++ [e]
  /\ triggers (device w')
     = triggers (device w)
       ++ [("error_occurred", JObj [("error", Device.message_or "Unknown error" e)])].

(** [updateData] never throws: it reports the failure of its two ticks. *)
Lemma updateData_run (w : World) :
  exists w',
    Device.updateData w = (Ok tt, w')
    /\ match fst (all2 Device.updateGeneralData Device.updateSlotsData w) with
       | Ok _ => available (device w') = true /\ unavailableMessage (device w') = None
       | Throw e => reported e w w'
       end.
Proof.
  pose proof (ticks_log_no_failure w) as Hl. pose proof (ticks_fire_no_trigger w) as Ht.
  unfold Device.updateData, try_catch. unfold bind at 1.
  destruct (all2 Device.updateGeneralData Device.updateSlotsData w) as [[[]|e] w1];
    cbn [fst snd] in *.
  - eexists. split; [reflexivity|]. split; reflexivity.
  - unfold bind, Homey.error, Homey.setUnavailable, Homey.trigger, Homey.on_device, modify.
    eexists. split; [reflexivity|]. unfold reported.
    split; [reflexivity|]. split; [reflexivity|]. split.
    + rewrite <- Hl. unfold failures_logged. simpl. rewrite failures_app. reflexivity.
    + rewrite <- Ht. reflexivity.
Qed.

(** A failure at the announcement step is the failure of the tick. *)
Lemma delivery_failure_ends_tick (w w1 w' : World) (e : exn) :
  JS.truthy (userId (client w)) = true ->
  (Device.general_cart ;; Device.general_upcoming) w = (Ok tt, w1) ->
  Device.general_delivery w1 = (Throw e, w') ->
  Device.updateGeneralData w = (Throw e, w').
Proof.
  intros Hu Hsteps E. unfold Device.updateGeneralData. unfold bind at 1, gets.
  rewrite Hu. cbn [negb]. unfold bind in Hsteps |- *.
  destruct (Device.general_cart w) as [[[]|e1] wa]; [|discriminate].
  destruct (Device.general_upcoming wa) as [[[]|e2] wb]; [|discriminate].
  injection Hsteps as <-. rewrite E. reflexivity.
Qed.

Lemma failure_surfaces (w w' : World) (e : exn) :
  Device.updateGeneralData w = (Throw e, w') ->
  exists w'' e',
    Device.updateData w = (Ok tt, w'')
    /\ (e' = e \/ fst (Device.updateSlotsData w') = Throw e')
    /\ (fst (Device.updateSlotsData w') = Ok tt -> e' = e)
    /\ reported e' w w''.
Proof.
  intros E. destruct (updateData_run w) as (w'' & Eu & Hrep).
  pose proof (all2_outcome Device.updateGeneralData Device.updateSlotsData w) as Ho.
  cbv zeta in Ho. rewrite E in Ho. cbn [fst snd] in Ho.
  destruct (fst (all2 Device.updateGeneralData Device.updateSlotsData w)) as [[]|e'].
  - destruct Ho as [Ho _]. discriminate Ho.
  - destruct Ho as (Hone & Halone & _).
    exists w'', e'. split; [exact Eu|]. split; [|split; [|exact Hrep]].
    + destruct Hone as [[= ->]|H]; [left; reflexivity|right; exact H].
    + intros Hs. specialize (Halone Hs). congruence.
Qed.

(** C4, as the code has it.  In the second copy of the device class the
    announcement step and the bag step each run under a handler of their
    own: a failure of either step is caught and logged by its handler, the
    tick never throws, and once it has made the announcement fetch it makes
    the bag fetch too.  In device.js the steps run in sequence without
    handlers: a failure at the announcement step is the outcome of the two
    steps, and so of the tick, and no bag fetch is made; and a failure of
    the tick reaches
    [updateData], which returns, enters one failure in the log, marks the
    device unavailable with its message and fires the [error_occurred]
    trigger once with it.  The failure reported is that of the tick, or
    that of the slots tick when that one fails too and fails first. *)
Theorem sub_fetch_isolation (courier_approaching : jsval -> M unit) :
  (forall nextOrder, preserves (fun w => trace (env w)) (courier_approaching nextOrder)) ->
  sub_fetches_isolated (DeviceCopy.updateGeneralData courier_approaching)
  /\ (forall w, fst (DeviceCopy.updateGeneralData courier_approaching w) = Ok tt)
  /\ (forall w w1 e,
        DeviceCopy.delivery_step w = (Throw e, w1) ->
        DeviceCopy.general_delivery w
        = (Ok tt, with_device (Homey.add_log (LogError, "Failed to update delivery status:",
                                              Some e) (device w1)) w1))
  /\ (forall w w1 e,
        DeviceCopy.bags_step w = (Throw e, w1) ->
        DeviceCopy.general_bags w
        = (Ok tt, with_device (Homey.add_log (LogError, "Failed to update reusable bags:",
                                              Some e) (device w1)) w1))
  /\ (forall w w' e,
        Device.general_delivery w = (Throw e, w') ->
        (Device.general_delivery ;; Device.general_bags) w = (Throw e, w')
        /\ ~ made sel_bags w w')
  /\ (forall w w1 w' e,
        JS.truthy (userId (client w)) = true ->
        (Device.general_cart ;; Device.general_upcoming) w = (Ok tt, w1) ->
        Device.general_delivery w1 = (Throw e, w') ->
        Device.updateGeneralData w = (Throw e, w'))
  /\ (forall w w' e,
        Device.updateGeneralData w = (Throw e, w') ->
        exists w'' e',
          Device.updateData w = (Ok tt, w'')
          /\ (e' = e \/ fst (Device.updateSlotsData w') = Throw e')
          /\ (fst (Device.updateSlotsData w') = Ok tt -> e' = e)
          /\ reported e' w w'').
Proof.
  intros Hquiet. split; [|split; [|split; [|split; [|split; [|split]]]]].
  - apply copy_isolated, Hquiet.
  - apply copy_never_throws.
  - intros w w1 e E. apply logged_failure, E.
  - intros w w1 e E. apply logged_failure, E.
  - intros w w' e E. split; [unfold bind; rewrite E; reflexivity|].
    apply not_made. pose proof (delivery_bags w) as H. rewrite E in H. exact H.
  - apply delivery_failure_ends_tick.
  - apply failure_surfaces.
Qed.

Definition server_error : outcome :=
  Responds {| status := 500; statusText := "Internal Server Error";
              set_cookie := None; json := None |}.

(** A logged-in device whose announcement fetch is answered 500; the cart,
    the orders and the bag balance are served. *)
Definition flaky : World :=
  Sample.world_of Sample.client1
    [Sample.answers 200 (JObj []); Sample.answers 200 (JObj []);
     server_error; Sample.answers 200 (JObj [("current", JNum 3)])].

Lemma device_tick_not_isolated : ~ sub_fetches_isolated Device.updateGeneralData.
Proof.
  intros H. destruct (H flaky) as [Hok _].
  - vm_compute. reflexivity.
  - vm_compute in Hok. discriminate Hok.
Qed.

Lemma copy_tick_on_flaky :
  fst (DeviceCopy.updateGeneralData (fun _ => ret tt) flaky) = Ok tt
  /\ made sel_bags flaky (snd (DeviceCopy.updateGeneralData (fun _ => ret tt) flaky)).
Proof.
  destruct (sub_fetch_isolation (fun _ => ret tt) (fun _ _ => eq_refl)) as (Hiso & _).
  apply Hiso. vm_compute. reflexivity.
Defined.

End Isolation.

(** ** The rate limiter *)

Module Pacing.
Import Run.


(** Every time of the list is at least [gap] after the one before it,
    [prev] being before the first. *)
Fixpoint spaced (gap prev : Z) (times : list Z) : Prop :=
  match times with
  | [] => True
  | t :: rest => prev + gap <= t /\ spaced gap t rest
  end.


(** No timer to come fires early. *)
Definition punctual (w : World) : Prop := Forall (fun d => 0 <= d) (delays (env w)).

(** The time by which the next timer fires early, as a negative number; 0
    when it does not. *)
Definition early (w : World) : Z :=
  match delays (env w) with
  | [] => 0
  | d :: _ => Z.min 0 d
  end.

Lemma punctual_early (w : World) : punctual w -> early w = 0.
Proof.
  unfold punctual, early. destruct (delays (env w)) as [|d ds]; [reflexivity|].
  intros H. inversion H; subst. lia.
Qed.

Lemma timer_delay_in_range (delay : Z) :
  1 <= delay <= 2147483647 -> Homey.timer_delay delay = delay.
Proof.
  intros H. unfold Homey.timer_delay.
  destruct (Z.ltb_spec delay 1), (Z.ltb_spec 2147483647 delay); simpl; lia.
Qed.

Lemma sleep_spec (delay : Z) (w : World) :
  1 <= delay <= 2147483647 ->
  exists w', Client.sleep delay w = (Ok tt, w')
    /\ client w' = client w
    /\ clock (env w) + delay + early w <= clock (env w')
    /\ clock (env w) <= clock (env w')
    /\ (punctual w -> punctual w').
Proof.
  intros Hd. unfold Client.sleep, Client.on_env, modify, early, punctual.
  rewrite (timer_delay_in_range delay Hd).
  destruct w as [c [clk dl net tr rc] d]. simpl.
  destruct dl as [|x dl]; simpl; eexists; (split; [reflexivity|]); simpl.
  - repeat split; try lia. auto.
  - repeat split; try lia. intros H. inversion H; assumption.
Qed.

Lemma rateLimit_spec (w : World) :
  lastRequestTime (client w) <= clock (env w) ->
  1 <= minRequestInterval (client w) <= 2147483647 ->
  exists w', Client.rateLimit w = (Ok tt, w')
    /\ lastRequestTime (client w') = clock (env w')
    /\ lastRequestTime (client w) + minRequestInterval (client w) + early w <= clock (env w')
    /\ clock (env w) <= clock (env w')
    /\ minRequestInterval (client w') = minRequestInterval (client w)
    /\ (minRequestInterval (client w) <= clock (env w) - lastRequestTime (client w) ->
        clock (env w') = clock (env w))
    /\ (punctual w -> punctual w').
Proof.
  intros Hlast Hmin. unfold Client.rateLimit, bind, gets, when.
  destruct (Z.ltb_spec (clock (env w) - lastRequestTime (client w))
                       (minRequestInterval (client w))) as [Hlt|Hge].
  - match goal with |- context [Client.sleep ?d w] =>
      destruct (sleep_spec d w) as (w1 & -> & Hc & Hgap & Hclk & Hp); [lia|] end.
    unfold ret, Client.on_client, modify. eexists. split; [reflexivity|].
    simpl. rewrite Hc. repeat split; try lia. exact Hp.
  - unfold ret, Client.on_client, modify. eexists. split; [reflexivity|].
    assert (early w <= 0).
    { unfold early. destruct (delays (env w)); lia. }
    simpl. repeat split; try lia. auto.
Qed.

(** [rateLimit] is its two runs, with the timer between them. *)
Lemma rateLimit_split (w : World) :
  Client.rateLimit w
  = (pending <- Client.rateLimit_start ;;
     match pending with
     | Some delay => Client.sleep delay
     | None => ret tt
     end ;;
     Client.rateLimit_resume) w.
Proof.
  unfold Client.rateLimit, Client.rateLimit_start, Client.rateLimit_resume, bind, gets, when.
  destruct (_ <? _); reflexivity.
Qed.



Lemma spaced_last (gap prev : Z) (times : list Z) :
  0 <= gap -> spaced gap prev times ->
  prev + Z.of_nat (length times) * gap <= List.last times prev.
Proof.
  intros Hgap. revert prev. induction times as [|t rest IH]; intros prev; simpl.
  - lia.
  - intros [H1 H2]. specialize (IH t H2).
    destruct rest as [|t' rest'].
    + simpl in *. lia.
    + assert (List.last (t' :: rest') prev = List.last (t' :: rest') t) as ->.
      { clear. revert t'. induction rest' as [|x r IHr]; intros t'; [reflexivity|].
        simpl in *. apply IHr. }
      change (length (t' :: rest')) with (S (length rest')) in *. nia.
Qed.






End Pacing.

(** ** Requests on the wire

    Every [fetch] of the client follows a call of [rateLimit] in the same
    method, so the spacing of the recorded dispatch times is the spacing of
    the requests of a call. *)

Module Wire.
Import Frame Run Pacing.

Definition fetch_time (ev : event) : option Z :=
  match ev with Fetch t _ _ => Some t | _ => None end.

(** The dispatch times of the requests sent so far, oldest first. *)
Definition dispatched (w : World) : list Z := seen fetch_time w.

(** Each time of the list is at least 100 ms after the one before it. *)
Definition apart (times : list Z) : Prop :=
  match times with
  | [] => True
  | t :: rest => spaced 100 t rest
  end.

(** What the pacing of requests rests on. *)
Definition pace (w : World) : Z * Z * Z * list Z * list Z :=
  (minRequestInterval (client w), lastRequestTime (client w), clock (env w), dispatched w,
   delays (env w)).

Definition paced_at (p : Z * Z * Z * list Z * list Z) : Prop :=
  let '(interval, last, now, times, waits) := p in
  interval = 100 /\ last <= now /\ apart times /\ Forall (fun t => t <= last) times
  /\ Forall (fun d => 0 <= d) waits.

(** The requests sent so far are at least 100 ms apart, none was sent
    after the dispatch time on record, and no timer to come fires early. *)
Definition paced (w : World) : Prop := paced_at (pace w).

Lemma spaced_snoc (prev t : Z) (times : list Z) :
  spaced 100 prev times -> Forall (fun x => x + 100 <= t) (prev :: times) ->
  spaced 100 prev (times ++ [t]).
Proof.
  revert prev. induction times as [|x times IH]; intros prev; simpl.
  - intros _ H. inversion H; subst. auto.
  - intros [H1 H2] H. inversion H as [|? ? _ H']; subst. split; [exact H1|].
    apply IH; assumption.
Qed.

Lemma apart_snoc (t : Z) (times : list Z) :
  apart times -> Forall (fun x => x + 100 <= t) times -> apart (times ++ [t]).
Proof.
  destruct times as [|x times]; simpl; [auto|]. apply spaced_snoc.
Qed.

Lemma paced_next (interval last now t now' : Z) (times waits waits' : list Z) :
  paced_at (interval, last, now, times, waits) -> last + 100 <= t -> t <= now' ->
  Forall (fun d => 0 <= d) waits' ->
  paced_at (interval, t, now', times ++ [t], waits').
Proof.
  intros (Hi & Hl & Ha & Hf & _) Ht Hn Hw. repeat split; try assumption.
  - apply apart_snoc; [exact Ha|]. revert Hf. apply List.Forall_impl. intros; lia.
  - apply Forall_app. split.
    + revert Hf. apply List.Forall_impl. intros; lia.
    + constructor; [lia|constructor].
Qed.

Lemma rateLimit_paced (w : World) :
  paced w ->
  exists t ds,
    Client.rateLimit w = (Ok tt, with_client (set_lastRequestTime t (client w)) (later t ds w))
    /\ lastRequestTime (client w) + 100 <= t
    /\ Forall (fun d => 0 <= d) ds.
Proof.
  intros (Hm & Hl & _ & _ & Hp). destruct (rateLimit_run w) as (t & ds & E & _).
  destruct (rateLimit_spec w Hl) as (w1 & E1 & Hrec & Hgap & _ & _ & _ & Hp1); [lia|].
  exists t, ds. split; [exact E|]. rewrite E in E1. injection E1 as <-.
  rewrite (punctual_early w Hp) in Hgap.
  simpl in Hrec. rewrite Hm in Hgap. simpl in Hgap. split; [lia|].
  specialize (Hp1 Hp). exact Hp1.
Qed.

Lemma fetch_paced (via : origin) (rq : request) (w : World) :
  let w' := snd (Client.fetch via rq w) in
  client w' = client w
  /\ clock (env w) <= clock (env w')
  /\ dispatched w' = dispatched w ++ [clock (env w)]
  /\ (punctual w -> punctual w').
Proof.
  destruct w as [c [clk dl net tr rc] d].
  unfold Client.fetch, Client.elapse, bind, gets, Client.on_env, modify, dispatched, seen,
    punctual.
  simpl.
  destruct net as [|[r|e] net]; [|destruct dl|destruct dl]; simpl;
    rewrite ?pick_app; simpl; repeat split; try lia; auto;
    intros H; inversion H; assumption.
Qed.

Lemma dispatch_paced (url : string) (o : Client.options) :
  invariant paced (Client.dispatch url o).
Proof.
  intros w Hw. pose proof Hw as (Hi & Hl & Ha & Hf & Hp).
  unfold Client.dispatch. unfold bind at 1.
  destruct (rateLimit_paced w Hw) as (t & ds & -> & Ht & Hds).
  unfold bind at 1, gets at 1. unfold bind at 1, gets at 1. unfold bind at 1.
  match goal with |- context [Client.fetch ?v ?rq ?w0] =>
    pose proof (fetch_paced v rq w0) as (Hc & Hk & Hd & Hq);
    destruct (Client.fetch v rq w0) as [[r|e] w1] end; cbn [snd] in *.
  - assert (Hp1 : paced w1).
    { unfold paced, pace. rewrite Hc, Hd.
      destruct w as [c [clk dl net tr rc] d]. simpl in *.
      apply (paced_next _ (lastRequestTime c) clk _ _ _ dl);
        [exact Hw|lia|exact Hk|apply Hq; exact Hds]. }
    clear - Hp1. revert w1 Hp1.
    change (invariant paced (Client.store_cookies r ;; ret r)).
    apply (invariant_preserved pace paced_at). frame.
  - unfold paced, pace. rewrite Hc, Hd.
    destruct w as [c [clk dl net tr rc] d]. simpl in *.
    apply (paced_next _ (lastRequestTime c) clk _ _ _ dl);
      [exact Hw|lia|exact Hk|apply Hq; exact Hds].
Qed.

Lemma login_paced : invariant paced Client.login.
Proof.
  intros w Hw.
  unfold Client.login.
  unfold bind at 1. unfold Client.on_env at 1, modify at 1.
  set (w0 := with_env (record (Call Login) (env w)) w).
  assert (H0 : pace w0 = pace w).
  { destruct w as [c [clk dl net tr rc] d]. unfold pace, dispatched, seen, w0. simpl.
    rewrite pick_app. simpl. now rewrite app_nil_r. }
  assert (Hw0 : paced w0) by (unfold paced; now rewrite H0).
  clearbody w0. clear H0 Hw w.
  unfold bind at 1, gets at 1. unfold bind at 1, gets at 1. unfold bind at 1.
  destruct (rateLimit_paced w0 Hw0) as (t & ds & -> & Ht & Hds).
  unfold bind at 1, gets at 1. unfold bind at 1.
  match goal with |- context [Client.fetch ?v ?rq ?w1] =>
    pose proof (fetch_paced v rq w1) as (Hc & Hk & Hd & Hq);
    destruct (Client.fetch v rq w1) as [[r|e] w2] end; cbn [snd] in *.
  - assert (Hp : paced w2).
    { unfold paced, pace. rewrite Hc, Hd.
      destruct w0 as [c [clk dl net tr rc] d]. simpl in *.
      apply (paced_next _ (lastRequestTime c) clk _ _ _ dl);
        [exact Hw0|lia|exact Hk|apply Hq; exact Hds]. }
    clear - Hp. revert w2 Hp.
    change (invariant paced (Client.read_login r)).
    apply (invariant_preserved pace paced_at). frame.
  - unfold paced, pace. rewrite Hc, Hd.
    destruct w0 as [c [clk dl net tr rc] d]. simpl in *.
    apply (paced_next _ (lastRequestTime c) clk _ _ _ dl);
      [exact Hw0|lia|exact Hk|apply Hq; exact Hds].
Qed.

Lemma paced_preserved {A} (m : M A) :
  preserves (fun w => (minRequestInterval (client w), lastRequestTime (client w),
                       clock (env w), seen fetch_time w, delays (env w))) m ->
  invariant paced m.
Proof. apply (invariant_preserved _ paced_at). Qed.

Ltac paced_step :=
  first
  [ apply dispatch_paced
  | apply login_paced
  | apply invariant_bind; [|intro]
  | match goal with
    | |- invariant _ (match ?x with _ => _ end) => destruct x
    | |- invariant _ (if ?x then _ else _) => destruct x
    end
  | progress unfold when, Client.makeRequest, Client.makeRequest_body
  | solve [apply paced_preserved; frame] ].

(** The requests of one call of [makeRequest], the login and the retry
    among them, keep the pace. *)
Lemma makeRequest_paced (url : string) (o : Client.options) (isRetry : bool) :
  invariant paced (Client.makeRequest url o isRetry).
Proof. repeat paced_step. Qed.

(** In a paced world, from the first request sent to the last at least
    [(n - 1) * 100] ms have passed, [n] being the number of requests. *)
Lemma paced_span (w : World) (first : Z) (rest : list Z) :
  paced w -> dispatched w = first :: rest ->
  (Z.of_nat (length (dispatched w)) - 1) * 100 <= List.last rest first - first.
Proof.
  intros (_ & _ & Ha & _) E. rewrite E in *. simpl in Ha.
  pose proof (spaced_last 100 first rest ltac:(lia) Ha).
  change (length (first :: rest)) with (S (length rest)). lia.
Qed.

Lemma new_client_paced (c : RohlikClient) (script : list outcome) :
  lastRequestTime c = 0 -> minRequestInterval c = 100 ->
  paced (Sample.world_of c script).
Proof.
  intros Hl Hm. unfold paced, pace, dispatched, seen. simpl. rewrite Hl, Hm.
  repeat split; [lia|constructor|constructor].
Qed.

End Wire.

(** ** The outcome of a call *)

Module Surface.
Import Frame Run Executor.

Lemma deliver_outcome (url : string) (r : response) (w : World) :
  Client.auth_failed r = false ->
  (ok r = false ->
     fst (Client.deliver url r w)
     = Throw (Error ("HTTP " +:+ JS.string_of_Z (status r) +:+ ": " +:+ statusText r)))
  /\ (ok r = true -> json r = None ->
        fst (Client.deliver url r w) = Throw (FetchError "invalid json response body"))
  /\ (forall body, ok r = true -> json r = Some body ->
        JS.includes "/api/v1/reusable-bags/user-info" url = false ->
        fst (Client.deliver url r w) = Ok body).
Proof.
  intros _. unfold Client.deliver. split; [|split].
  - intros ->. reflexivity.
  - intros -> Hj. simpl. unfold bind, Client.parse. rewrite Hj. reflexivity.
  - intros body -> Hj Hu. simpl. unfold bind, Client.parse. rewrite Hj, Hu. reflexivity.
Qed.

(** X1.  A call of [makeRequest] whose first fetch rejects, or is answered
    by a response that is neither a 401 nor a 403, is dispatched once and
    logs in never.  A rejected fetch throws its own error; a response that
    is not ok throws [HTTP <status>: <statusText>]; an ok response whose body
    is no JSON throws the error of the parser; an ok response with a JSON
    body returns that body (for every URL but the one of the reusable bags,
    whose answer is reshaped). *)
Theorem only_auth_failure_is_retried (url : string) (o : Client.options) (w : World)
    (out : outcome) (rest : list outcome) :
  network (env w) = out :: rest ->
  (forall r, out = Responds r -> Client.auth_failed r = false) ->
  let run := Client.makeRequest url o false w in
  seen sel_login (snd run) = seen sel_login w
  /\ seen sel_attempt (snd run) = seen sel_attempt w ++ [call_request url o w]
  /\ (forall e, out = Rejects e -> fst run = Throw e)
  /\ (forall r, out = Responds r -> ok r = false ->
        fst run = Throw (Error ("HTTP " +:+ JS.string_of_Z (status r) +:+ ": "
                                +:+ statusText r)))
  /\ (forall r, out = Responds r -> ok r = true -> json r = None ->
        fst run = Throw (FetchError "invalid json response body"))
  /\ (forall r body, out = Responds r -> ok r = true -> json r = Some body ->
        JS.includes "/api/v1/reusable-bags/user-info" url = false ->
        fst run = Ok body).
Proof.
  intros Hnet Hauth run.
  assert (Hrun : run = Client.makeRequest_body Client.makeRequest url o false w)
    by apply makeRequest_unfold.
  clearbody run. unfold Client.makeRequest_body, bind in Hrun.
  pose proof (dispatch_attempt url o w) as Ha.
  pose proof (dispatch_login url o w) as Hl.
  destruct (dispatch_outcome url o w out rest Hnet) as (w1' & Hout & _).
  destruct (Client.dispatch url o w) as [[r|e] w1]; cbn [snd fst] in *;
    injection Hout as Hout _.
  - destruct out as [r'|e']; [|discriminate]. injection Hout as ->.
    rewrite (Hauth r' eq_refl) in Hrun. subst run.
    rewrite deliver_attempt, deliver_login.
    destruct (deliver_outcome url r' w1 (Hauth r' eq_refl)) as (H1 & H2 & H3).
    split; [exact Hl|]. split; [exact Ha|]. split; [discriminate|].
    split; [intros r [= <-]; exact H1|].
    split; [intros r [= <-]; exact H2|].
    intros r body [= <-]. apply H3.
  - destruct out as [r'|e']; [discriminate|]. injection Hout as ->. subst run.
    cbn [snd fst]. split; [exact Hl|]. split; [exact Ha|].
    split; [intros e0 [= <-]; reflexivity|].
    repeat split; discriminate.
Qed.

Lemma read_login_cookies (r : response) (w : World) :
  sessionCookies (client (snd (Client.read_login r w)))
  = sessionCookies (client (snd (Client.store_cookies r w))).
Proof.
  unfold Client.read_login. unfold bind at 1.
  destruct (Client.store_cookies r w) as [[[]|e] w1]; [|reflexivity].
  cbn [snd].
  match goal with |- _ (client (snd (?m w1))) = _ =>
    assert (H : preserves (fun w => sessionCookies (client w)) m) by frame
  end.
  apply H.
Qed.

Lemma store_cookies_some (r : response) (c : string) (w : World) :
  set_cookie r = Some c -> c <> "" ->
  sessionCookies (client (snd (Client.store_cookies r w))) = c.
Proof.
  intros Hc Hne. unfold Client.store_cookies. rewrite Hc.
  destruct (String.eqb_spec c "") as [->|_]; [contradiction|]. reflexivity.
Qed.

Lemma login_cookies (w : World) (r : response) (rest : list outcome) (c : string) :
  network (env w) = Responds r :: rest ->
  set_cookie r = Some c -> c <> "" ->
  sessionCookies (client (snd (Client.login w))) = c.
Proof.
  intros Hnet Hc Hne.
  destruct (Session.login_run w _ _ Hnet) as (t & t' & ds & _ & ->).
  rewrite read_login_cookies. now apply store_cookies_some.
Qed.

(** The value of the header [k] in the object [headers]. *)
Definition header (k : string) (headers : list (string * string)) : option string :=
  match List.find (fun kv => String.eqb k (fst kv)) headers with
  | Some kv => Some (snd kv)
  | None => None
  end.

Lemma assign_other (k k' v : string) (props : list (string * string)) :
  k <> k' -> header k (JS.assign k' v props) = header k props.
Proof.
  intros Hne. unfold header. induction props as [|[k0 v0] props IH]; simpl.
  - destruct (String.eqb_spec k k'); [contradiction|reflexivity].
  - destruct (String.eqb_spec k' k0) as [->|Hk]; simpl.
    + destruct (String.eqb_spec k k0); [contradiction|reflexivity].
    + destruct (String.eqb_spec k k0); [reflexivity|exact IH].
Qed.

Lemma spread_other (k : string) (a b : list (string * string)) :
  (forall v, ~ In (k, v) b) -> header k (JS.spread a b) = header k a.
Proof.
  unfold JS.spread. revert a. induction b as [|[k' v'] b IH]; intros a Hb; [reflexivity|].
  simpl. rewrite IH by (intros v Hv; apply (Hb v); right; exact Hv).
  apply assign_other. intros ->. apply (Hb v'). left. reflexivity.
Qed.

(** X2.  When the first response of a call is a 401 or a 403 and the login
    that follows returns, its response setting the non-empty cookie header
    [c], the call is dispatched exactly twice: both requests are the same
    call, and the headers of the second are the two fixed ones and
    [Cookie: c], the cookies of the new session, overridden by those of the
    options.  So the retry carries the new cookies whenever the options
    give no [Cookie] header of their own. *)
Theorem retry_carries_login_cookies (url : string) (o : Client.options) (w : World)
    (r1 rl : response) (rest : list outcome) (c : string) :
  network (env w) = Responds r1 :: Responds rl :: rest ->
  Client.auth_failed r1 = true ->
  set_cookie rl = Some c -> c <> "" ->
  fst (Client.login (snd (Client.dispatch url o w))) = Ok tt ->
  exists rq1 rq2,
    seen sel_attempt (snd (Client.makeRequest url o false w))
    = seen sel_attempt w ++ [rq1; rq2]
    /\ same_call rq1 rq2
    /\ req_headers rq2
       = JS.spread [("Content-Type", "application/json"); ("User-Agent", Client.userAgent);
                    ("Cookie", c)] (Client.opt_headers o)
    /\ ((forall v, ~ In ("Cookie", v) (Client.opt_headers o)) ->
        header "Cookie" (req_headers rq2) = Some c).
Proof.
  intros Hnet Hauth Hc Hne Hlogin.
  rewrite makeRequest_unfold. unfold Client.makeRequest_body. unfold bind at 1.
  pose proof (dispatch_attempt url o w) as Ha.
  pose proof (dispatch_baseUrl url o w) as Hb.
  destruct (dispatch_outcome url o w _ _ Hnet) as (w1 & E1 & Hnet1).
  rewrite E1 in *. cbn [snd answer] in *. rewrite Hauth. cbn [negb]. cbv beta iota.
  unfold bind at 1.
  pose proof (login_attempt w1) as Hla.
  pose proof (login_baseUrl w1) as Hlb.
  pose proof (login_cookies w1 _ _ _ Hnet1 Hc Hne) as Hk.
  destruct (Client.login w1) as [[[]|e] w2]; [|discriminate]. cbn [snd] in *.
  destruct (retry_run url o w2) as (Hra & _ & _).
  assert (Hh : req_headers (call_request url o w2)
               = JS.spread [("Content-Type", "application/json");
                            ("User-Agent", Client.userAgent); ("Cookie", c)]
                           (Client.opt_headers o)).
  { unfold call_request. cbn [req_headers]. rewrite Hk.
    destruct (String.eqb_spec c "") as [->|_]; [contradiction|]. reflexivity. }
  exists (call_request url o w), (call_request url o w2).
  split; [rewrite Hra, Hla, Ha, <- app_assoc; reflexivity|]. split; [|split].
  - unfold same_call, call_request. cbn [req_url req_method req_body].
    rewrite Hlb, Hb. auto.
  - exact Hh.
  - intros Hno. rewrite Hh, spread_other by exact Hno. reflexivity.
Qed.

Lemma server_error_surfaces :
  fst (Client.makeRequest "/api/v3/orders/upcoming" Client.no_options false
         (Sample.world_of Sample.client1 [Isolation.server_error]))
  = Throw (Error "HTTP 500: Internal Server Error").
Proof.
  destruct (only_auth_failure_is_retried "/api/v3/orders/upcoming" Client.no_options
              (Sample.world_of Sample.client1 [Isolation.server_error])
              Isolation.server_error [] eq_refl)
    as (_ & _ & _ & H & _).
  - intros r [= <-]. reflexivity.
  - exact (H _ eq_refl eq_refl).
Defined.

Lemma new_session_on_retry :
  exists rq1 rq2,
    seen sel_attempt (snd (Client.makeRequest "/api/v3/orders/upcoming" Client.no_options
                             false expired))
    = seen sel_attempt expired ++ [rq1; rq2]
    /\ same_call rq1 rq2
    /\ req_headers rq2
       = [("Content-Type", "application/json"); ("User-Agent", Client.userAgent);
          ("Cookie", "sid=1")]
    /\ header "Cookie" (req_headers rq2) = Some "sid=1".
Proof.
  destruct (retry_carries_login_cookies "/api/v3/orders/upcoming" Client.no_options expired
              forbidden _ [Responds forbidden] "sid=1" eq_refl eq_refl eq_refl)
    as (rq1 & rq2 & H1 & H2 & H3 & H4).
  - discriminate.
  - vm_compute. reflexivity.
  - exists rq1, rq2. split; [exact H1|]. split; [exact H2|]. split; [exact H3|].
    apply H4. intros v [].
Defined.

End Surface.

(** ** Failures of the polls *)

Module Ticks.
Import Frame Run Executor.

(** Only the answer of the bag endpoint reaches the device. *)
Lemma deliver_device (url : string) (r : response) :
  JS.includes "/api/v1/reusable-bags/user-info" url = false ->
  preserves device (Client.deliver url r).
Proof. intros H. unfold Client.deliver. rewrite H. frame. Qed.

Lemma dispatch_device (url : string) (o : Client.options) :
  preserves device (Client.dispatch url o).
Proof. frame. Qed.

Lemma login_device : preserves device Client.login.
Proof. frame. Qed.

Lemma makeRequest_device (url : string) (o : Client.options) (isRetry : bool) :
  JS.includes "/api/v1/reusable-bags/user-info" url = false ->
  preserves device (Client.makeRequest url o isRetry).
Proof.
  intros H. unfold Client.makeRequest, Client.makeRequest_body.
  repeat first
    [ apply dispatch_device | apply login_device | apply (deliver_device _ _ H)
    | apply preserves_throw
    | apply preserves_bind; [|intro]
    | match goal with
      | |- preserves _ (if ?x then _ else _) => destruct x
      end ].
Qed.

Lemma announcements_device : preserves device Client.getDeliveryAnnouncements.
Proof.
  unfold Client.getDeliveryAnnouncements.
  apply preserves_bind; [frame|intro].
  apply preserves_bind; [apply makeRequest_device; reflexivity|intro].
  frame.
Qed.

Lemma ticks_triggers : preserves (fun w => triggers (device w))
                         (all2 Device.updateGeneralData Device.updateSlotsData).
Proof. frame. Qed.

(** X3.  [updateData] never throws.  When the general tick and the slots
    tick both return, the device ends available, without a message, and no
    trigger has fired.  When one of them fails, the device ends unavailable
    and the trigger [error_occurred] has fired once, both with the message
    of one error [e]: the error of the tick that failed when only one did,
    and the error of one of the two when both did (the one that failed
    first).  The message is [Update failed] on the device and
    [Unknown error] in the trigger when [e] has none. *)
Theorem updateData_reports_failure (w : World) :
  let general := Device.updateGeneralData w in
  let slots := Device.updateSlotsData (snd general) in
  exists w',
    Device.updateData w = (Ok tt, w')
    /\ (fst general = Ok tt -> fst slots = Ok tt ->
          available (device w') = true
          /\ unavailableMessage (device w') = None
          /\ triggers (device w') = triggers (device w))
    /\ ((exists e, fst general = Throw e) \/ (exists e, fst slots = Throw e) ->
          exists e,
            (fst general = Throw e \/ fst slots = Throw e)
            /\ (fst slots = Ok tt -> fst general = Throw e)
            /\ (fst general = Ok tt -> fst slots = Throw e)
            /\ available (device w') = false
            /\ unavailableMessage (device w') = Some (Device.message_or "Update failed" e)
            /\ triggers (device w')
               = triggers (device w)
                 ++ [("error_occurred",
                      JObj [("error", Device.message_or "Unknown error" e)])]).
Proof.
  cbv zeta. pose proof (ticks_triggers w) as Ht.
  pose proof (all2_outcome Device.updateGeneralData Device.updateSlotsData w) as Ho.
  cbv zeta in Ho.
  unfold Device.updateData, try_catch. unfold bind at 1.
  destruct (all2 Device.updateGeneralData Device.updateSlotsData w) as [[[]|e] w1];
    cbn [snd fst] in *.
  - destruct Ho as [Hg Hs]. eexists. split; [reflexivity|]. split.
    + intros _ _. simpl. auto.
    + intros [[e He]|[e He]]; congruence.
  - destruct Ho as (Hone & Hg & Hs). eexists. split; [reflexivity|]. split.
    + intros H1 H2. destruct Hone; congruence.
    + intros _. exists e. split; [exact Hone|]. split; [exact Hg|]. split; [exact Hs|].
      simpl. rewrite Ht. auto.
Qed.

(** X4.  A fast poll of a logged-in client whose announcements request
    throws [e] returns all the same.  It adds one error entry to the log of
    the device and changes nothing else of it: no sink is written, no timer
    started or stopped, no trigger fired, the availability is untouched. *)
Theorem fast_poll_failure_is_contained (w w1 : World) (e : exn) :
  JS.truthy (userId (client w)) = true ->
  Client.getDeliveryAnnouncements w = (Throw e, w1) ->
  device w1 = device w
  /\ Device.updateDeliveryStatusOnly w
     = (Ok tt, with_device (Homey.add_log (LogError, "Delivery status update failed:", Some e)
                                          (device w)) w1).
Proof.
  intros Hu E. pose proof (announcements_device w) as Hd. rewrite E in Hd. cbn [snd] in Hd.
  split; [exact Hd|].
  unfold Device.updateDeliveryStatusOnly, bind at 1, gets. rewrite Hu. cbn [negb].
  unfold try_catch, bind at 1. rewrite E.
  unfold Homey.error, Homey.on_device, modify. rewrite Hd. reflexivity.
Qed.

Definition unreachable : World := Sample.world_of Sample.client1 [Isolation.server_error].
Definition unreachable_1 : World :=
  Eval vm_compute in snd (Client.getDeliveryAnnouncements unreachable).

Lemma unreachable_fails :
  Client.getDeliveryAnnouncements unreachable
  = (Throw (Error "HTTP 500: Internal Server Error"), unreachable_1).
Proof. vm_compute. reflexivity. Qed.

Lemma fast_poll_on_server_error :
  device unreachable_1 = device unreachable
  /\ Device.updateDeliveryStatusOnly unreachable
     = (Ok tt, with_device (Homey.add_log (LogError, "Delivery status update failed:",
                                           Some (Error "HTTP 500: Internal Server Error"))
                                          (device unreachable)) unreachable_1).
Proof.
  exact (fast_poll_failure_is_contained unreachable unreachable_1 _ eq_refl unreachable_fails).
Defined.

(** X5.  [onDeleted] returns, and stops the timers whose handles the device
    holds in [pollingInterval] and [deliveryPollingInterval]: no running
    timer has either handle afterwards, and the timers that still run are
    exactly those that ran under another handle. *)
Theorem onDeleted_clears_tracked_timers (w : World) :
  let w' := snd (Device.onDeleted w) in
  fst (Device.onDeleted w) = Ok tt
  /\ (forall h, pollingInterval (device w) = Some h
                \/ deliveryPollingInterval (device w) = Some h ->
        ~ In h (map Homey.handle_of (intervals (device w'))))
  /\ (forall iv, In iv (intervals (device w')) <->
        In iv (intervals (device w))
        /\ pollingInterval (device w) <> Some (Homey.handle_of iv)
        /\ deliveryPollingInterval (device w) <> Some (Homey.handle_of iv)).
Proof.
  unfold Device.onDeleted, bind, Homey.on_device, Homey.log, modify.
  destruct w as [c e d]. cbn [snd fst device with_device Homey.add_log Homey.set_timers intervals
                              pollingInterval deliveryPollingInterval].
  assert (Hin : forall iv,
    In iv (match deliveryPollingInterval d with
           | Some h => Homey.clear h match pollingInterval d with
                                     | Some h0 => Homey.clear h0 (intervals d)
                                     | None => intervals d
                                     end
           | None => match pollingInterval d with
                     | Some h0 => Homey.clear h0 (intervals d)
                     | None => intervals d
                     end
           end) <->
    In iv (intervals d) /\ pollingInterval d <> Some (Homey.handle_of iv)
    /\ deliveryPollingInterval d <> Some (Homey.handle_of iv)).
  { intros iv. unfold Homey.clear.
    destruct (deliveryPollingInterval d) as [h|], (pollingInterval d) as [g|];
      rewrite ?filter_In, ?negb_true_iff, ?Nat.eqb_neq; split.
    all: try (intros ((H1 & H2) & H3); repeat split; [assumption|congruence|congruence]).
    all: try (intros (H1 & H2 & H3); repeat split; [assumption|congruence|congruence]).
    all: try (intros (H1 & H2); repeat split; [assumption|congruence|congruence]).
    all: try (intros (H1 & H2 & H3); repeat split; [assumption|congruence]).
    all: try (intros H1; repeat split; [assumption|congruence|congruence]).
    all: try (intros (H1 & _); assumption). }
  split; [reflexivity|]. split; [|exact Hin].
  intros h Hh Hin'. apply in_map_iff in Hin' as (iv & <- & Hiv).
  apply Hin in Hiv as (_ & H1 & H2). destruct Hh; contradiction.
Qed.

End Ticks.

(** ** What the slots tick publishes *)

Module Published.
Import Frame Run Executor.

Definition accepting (w : World) : Prop :=
  forall k v, sinkAccepts (device w) k v = true.

Lemma strict_eq_eq (a b : jsval) : JS.strict_eq a b = true -> a = b.
Proof.
  destruct a, b; simpl; try discriminate; try reflexivity; intros H.
  - apply eqb_prop in H. now subst.
  - apply Z.eqb_eq in H. now subst.
  - apply String.eqb_eq in H. now subst.
Qed.

(** Publishing to an accepting sink: the sink holds the value, the other
    sinks, the client and the environment are as they were. *)
Lemma publish_run (k : string) (v : jsval) (w : World) :
  accepting w ->
  exists w',
    updateCapabilityValue k v w = (Ok tt, w')
    /\ Sink.current k w' = v
    /\ (forall k', k' <> k -> Sink.current k' w' = Sink.current k' w)
    /\ client w' = client w /\ env w' = env w
    /\ accepting w'.
Proof.
  intros Hacc. unfold updateCapabilityValue, bind, Homey.getCapabilityValue, gets.
  fold (Sink.current k w).
  destruct (JS.strict_eq (Sink.current k w) v) eqn:E; cbn [negb].
  - exists w. apply strict_eq_eq in E. repeat split; auto.
  - unfold try_catch, Homey.setCapabilityValue, bind, gets, Homey.on_device, modify.
    rewrite (Hacc k v). cbv beta iota.
    eexists. split; [reflexivity|]. unfold Sink.current. simpl.
    split; [rewrite lookup_insert_eq; reflexivity|].
    split; [intros k' Hk; rewrite lookup_insert_ne by congruence; reflexivity|].
    repeat split. exact Hacc.
Qed.

Lemma slots_null (w : World) :
  JS.truthy (addressId (client w)) = false ->
  Client.getDeliverySlots w
  = (Ok JNull, with_env (record (Call GetDeliverySlots) (env w)) w).
Proof.
  intros Ha. unfold Client.getDeliverySlots, bind, Client.on_env, modify, gets.
  cbn [client with_env]. rewrite Ha, orb_true_r. reflexivity.
Qed.

(** X6.  A slots tick of a logged-in client to which [getDeliverySlots]
    returns nothing truthy, on a device that accepts the writes, returns
    with the alarm [alarm_slots_available] at [false] and the three slot
    texts at the text for unavailable.  A client without an address id gets
    that answer without a request being sent. *)
Theorem slots_tick_without_slots (w w1 : World) (slots : jsval) :
  JS.truthy (userId (client w)) = true ->
  Client.getDeliverySlots w = (Ok slots, w1) ->
  JS.truthy slots = false ->
  accepting w1 ->
  (JS.truthy (addressId (client w)) = false -> Wire.dispatched w1 = Wire.dispatched w)
  /\ exists w',
       Device.updateSlotsData w = (Ok tt, w')
       /\ env w' = env w1
       /\ Sink.current "alarm_slots_available" w' = JBool false
       /\ Sink.current "delivery_express" w' = Device.unavailable
       /\ Sink.current "delivery_common" w' = Device.unavailable
       /\ Sink.current "delivery_eco" w' = Device.unavailable.
Proof.
  intros Hu E Hs Hacc. split.
  { intros Ha. rewrite (slots_null w Ha) in E. injection E as _ <-.
    unfold Wire.dispatched, seen. simpl. rewrite pick_app. simpl. apply app_nil_r. }
  unfold Device.updateSlotsData, bind at 1, gets. rewrite Hu. cbn [negb].
  unfold bind at 1. rewrite E. rewrite Hs. cbn [andb].
  unfold bind at 1. unfold bind at 1.
  destruct (publish_run "alarm_slots_available" (JBool false) w1 Hacc)
    as (w2 & -> & C2 & K2 & _ & E2 & A2).
  destruct (publish_run "delivery_express" Device.unavailable w2 A2)
    as (w3 & -> & C3 & K3 & _ & E3 & A3).
  unfold bind at 1.
  destruct (publish_run "delivery_common" Device.unavailable w3 A3)
    as (w4 & -> & C4 & K4 & _ & E4 & A4).
  destruct (publish_run "delivery_eco" Device.unavailable w4 A4)
    as (w5 & -> & C5 & K5 & _ & E5 & A5).
  exists w5. split; [reflexivity|]. split; [congruence|].
  rewrite K5, K4, K3 by discriminate.
  rewrite (K5 "delivery_express"), (K4 "delivery_express") by discriminate.
  rewrite (K5 "delivery_common") by discriminate. auto.
Qed.

Definition no_address : World :=
  Sample.world_of (set_addressId JUndefined Sample.client1) [].

Lemma slots_unavailable_without_address :
  exists w',
    Device.updateSlotsData no_address = (Ok tt, w')
    /\ env w' = record (Call GetDeliverySlots) (env no_address)
    /\ Sink.current "alarm_slots_available" w' = JBool false
    /\ Sink.current "delivery_express" w' = Device.unavailable
    /\ Sink.current "delivery_common" w' = Device.unavailable
    /\ Sink.current "delivery_eco" w' = Device.unavailable.
Proof.
  exact (proj2 (slots_tick_without_slots no_address _ JNull eq_refl eq_refl eq_refl
                  (fun _ _ => eq_refl))).
Defined.

End Published.

(** ** The condition cards *)

Module Conditions.
Import Frame Published.



Section Compare.
Variable less_than : jsval -> jsval -> bool.



End Compare.



Lemma publish_other (k k' : string) (v : jsval) :
  k' <> k -> preserves (Sink.current k) (updateCapabilityValue k' v).
Proof.
  intros Hk w. unfold updateCapabilityValue, bind, Homey.getCapabilityValue, gets.
  destruct (negb _); [|reflexivity].
  unfold try_catch, Homey.setCapabilityValue, bind, gets, Homey.on_device, modify, Homey.error.
  unfold Sink.current.
  destruct (sinkAccepts (device w) k' v); simpl; [|reflexivity].
  rewrite lookup_insert_ne by exact Hk. reflexivity.
Qed.

(** The part of the slot tick after the express slot leaves the alarm sink. *)
Lemma preselected_alarm (deliverySlots : jsval) :
  preserves (Sink.current "alarm_slots_available")
    (match (if JS.truthy deliverySlots then JS.prop deliverySlots "preselectedSlots"
            else JUndefined) with
     | JArr slots =>
         commonText <- lift (Device.slot_text "FIRST" slots) ;;
         updateCapabilityValue "delivery_common" commonText ;;
         ecoText <- lift (Device.slot_text "ECO" slots) ;;
         updateCapabilityValue "delivery_eco" ecoText
     | _ =>
         updateCapabilityValue "delivery_common" Device.unavailable ;;
         updateCapabilityValue "delivery_eco" Device.unavailable
     end).
Proof.
  destruct (if JS.truthy deliverySlots then _ else _);
    repeat first [ apply publish_other; discriminate
                 | apply preserves_lift
                 | apply preserves_bind; [|intro] ].
Qed.

(** X9.  The condition card on express slots after a slots tick of a
    logged-in client, on a device that accepts the writes: false when the
    slots answer is empty or has no express slot; when the express slot
    gives its capacity, true exactly when the free capacity percentage is
    positive. *)
Theorem express_card_reads_last_tick (w w1 : World) (slots : jsval) :
  JS.truthy (userId (client w)) = true ->
  Client.getDeliverySlots w = (Ok slots, w1) ->
  Published.accepting w1 ->
  let express := JS.prop slots "expressSlot" in
  let capacity := JS.prop express "timeSlotCapacityDTO" in
  let card := fst (Cards.onFlowConditionExpressSlotsAvailable (snd (Device.updateSlotsData w))) in
  (JS.truthy slots && JS.truthy express = false -> card = Ok false)
  /\ (forall percent, JS.truthy slots && JS.truthy express = true ->
         JS.truthy capacity = true ->
         JS.prop capacity "totalFreeCapacityPercent" = JNum percent ->
         card = Ok (0 <? percent)).
Proof.
  intros Hu E Hacc express capacity card.
  assert (Hcard : forall v, Sink.current "alarm_slots_available" (snd (Device.updateSlotsData w))
                            = JBool v -> card = Ok v).
  { intros v Hv. unfold card, Cards.onFlowConditionExpressSlotsAvailable, bind,
      Homey.getCapabilityValue, gets, ret.
    fold (Sink.current "alarm_slots_available" (snd (Device.updateSlotsData w))).
    rewrite Hv. destruct v; reflexivity. }
  assert (Htick : Device.updateSlotsData w =
    bind (if JS.truthy slots && JS.truthy express then
            if JS.truthy capacity then
              updateCapabilityValue "alarm_slots_available"
                (JBool (Device.positive (JS.prop capacity "totalFreeCapacityPercent"))) ;;
              updateCapabilityValue "delivery_express"
                (JS.or (JS.prop capacity "capacityMessage") (JStr "Unknown"))
            else ret tt
          else
            updateCapabilityValue "alarm_slots_available" (JBool false) ;;
            updateCapabilityValue "delivery_express" Device.unavailable)
         (fun _ =>
            match (if JS.truthy slots then JS.prop slots "preselectedSlots" else JUndefined) with
            | JArr l =>
                commonText <- lift (Device.slot_text "FIRST" l) ;;
                updateCapabilityValue "delivery_common" commonText ;;
                ecoText <- lift (Device.slot_text "ECO" l) ;;
                updateCapabilityValue "delivery_eco" ecoText
            | _ =>
                updateCapabilityValue "delivery_common" Device.unavailable ;;
                updateCapabilityValue "delivery_eco" Device.unavailable
            end) w1).
  { unfold Device.updateSlotsData. unfold bind at 1, gets. rewrite Hu. cbn [negb].
    unfold bind at 1. rewrite E. reflexivity. }
  assert (Hfirst : forall v rest_value,
    Sink.current "alarm_slots_available"
      (snd (bind (updateCapabilityValue "alarm_slots_available" (JBool v) ;;
                  updateCapabilityValue "delivery_express" rest_value)
                 (fun _ =>
                    match (if JS.truthy slots then JS.prop slots "preselectedSlots"
                           else JUndefined) with
                    | JArr l =>
                        commonText <- lift (Device.slot_text "FIRST" l) ;;
                        updateCapabilityValue "delivery_common" commonText ;;
                        ecoText <- lift (Device.slot_text "ECO" l) ;;
                        updateCapabilityValue "delivery_eco" ecoText
                    | _ =>
                        updateCapabilityValue "delivery_common" Device.unavailable ;;
                        updateCapabilityValue "delivery_eco" Device.unavailable
                    end) w1)) = JBool v).
  { intros v rv. unfold bind at 1. unfold bind at 1.
    destruct (publish_run "alarm_slots_available" (JBool v) w1 Hacc)
      as (w2 & -> & C2 & _ & _ & _ & A2).
    pose proof (publish_other "alarm_slots_available" "delivery_express" rv
                  ltac:(discriminate) w2) as H3.
    destruct (updateCapabilityValue "delivery_express" rv w2) as [[[]|e] w3]; cbn [snd] in *.
    - rewrite (preselected_alarm slots w3). congruence.
    - congruence. }
  split.
  - intros Hx. apply Hcard. rewrite Htick, Hx. apply Hfirst.
  - intros percent Hx Hc Hp. apply Hcard. rewrite Htick, Hx, Hc, Hp. apply Hfirst.
Qed.

Definition slots_open : jsval :=
  JObj [("data",
         JObj [("expressSlot",
                JObj [("timeSlotCapacityDTO",
                       JObj [("totalFreeCapacityPercent", JNum 40);
                             ("capacityMessage", JStr "Volno")])])])].

Definition asking : World := Sample.world_of Sample.client1 [Sample.answers 200 slots_open].
Definition asked : World := Eval vm_compute in snd (Client.getDeliverySlots asking).

Lemma asking_slots :
  Client.getDeliverySlots asking
  = (Ok (JObj [("expressSlot",
                JObj [("timeSlotCapacityDTO",
                       JObj [("totalFreeCapacityPercent", JNum 40);
                             ("capacityMessage", JStr "Volno")])])]), asked).
Proof. vm_compute. reflexivity. Qed.

Lemma express_card_after_open_slot :
  fst (Cards.onFlowConditionExpressSlotsAvailable (snd (Device.updateSlotsData asking)))
  = Ok true.
Proof.
  exact (proj2 (express_card_reads_last_tick asking asked _ eq_refl asking_slots
                  (fun _ _ => eq_refl)) 40 eq_refl eq_refl eq_refl).
Defined.

End Conditions.

(** ** The timers of the device *)

Module Timers.
Import Frame.

Definition is_regular (iv : nat * callback * Z) : bool :=
  match Homey.callback_of iv with
  | CbUpdateData => true
  | CbUpdateDeliveryStatusOnly => false
  end.

Definition handles (ivs : list (nat * callback * Z)) : list nat := map Homey.handle_of ivs.

(** The timers of a device are in order: every running interval has a
    handle of its own, below the next one the host will give; the fast
    timer is the one [deliveryPollingInterval] holds and the regular one
    the one [pollingInterval] holds. *)
Definition in_order (ivs : list (nat * callback * Z)) (next : nat)
    (general fast : option nat) : Prop :=
  List.NoDup (handles ivs)
  /\ Forall (fun h => (h < next)%nat) (handles ivs)
  /\ List.filter Polling.is_fast ivs
     = match fast with Some h => [(h, CbUpdateDeliveryStatusOnly, 60000)] | None => [] end
  /\ map fst (List.filter is_regular ivs)
     = match general with Some h => [(h, CbUpdateData)] | None => [] end.

Definition timer_state (w : World) : list (nat * callback * Z) * nat * option nat * option nat :=
  (intervals (device w), nextHandle (device w),
   pollingInterval (device w), deliveryPollingInterval (device w)).

Definition well_timed (w : World) : Prop :=
  in_order (intervals (device w)) (nextHandle (device w))
           (pollingInterval (device w)) (deliveryPollingInterval (device w)).

Lemma well_timed_preserved {A} (m : M A) : preserves timer_state m -> invariant well_timed m.
Proof.
  intros H w Hw. specialize (H w). unfold timer_state in H. unfold well_timed.
  injection H as -> -> -> ->. exact Hw.
Qed.

Lemma handles_clear (h : nat) (ivs : list (nat * callback * Z)) :
  forall x, In x (handles (Homey.clear h ivs)) -> In x (handles ivs).
Proof.
  intros x Hx. unfold handles in *. apply in_map_iff in Hx as (iv & <- & Hiv).
  apply in_map. unfold Homey.clear in Hiv. apply filter_In in Hiv. tauto.
Qed.

Lemma NoDup_clear (h : nat) (ivs : list (nat * callback * Z)) :
  List.NoDup (handles ivs) -> List.NoDup (handles (Homey.clear h ivs)).
Proof.
  unfold handles, Homey.clear. induction ivs as [|iv ivs IH]; simpl; [auto|].
  intros Hn. inversion Hn as [|? ? Hnot Hrest]; subst.
  destruct (negb _); simpl; [|auto].
  constructor; [|auto]. intros Hin. apply Hnot.
  apply in_map_iff in Hin as (iv' & E & Hiv'). apply filter_In in Hiv' as [Hiv' _].
  rewrite <- E. now apply in_map.
Qed.

Lemma same_handle (ivs : list (nat * callback * Z)) (a b : nat * callback * Z) :
  List.NoDup (handles ivs) -> In a ivs -> In b ivs ->
  Homey.handle_of a = Homey.handle_of b -> a = b.
Proof.
  unfold handles. induction ivs as [|iv ivs IH]; simpl; [tauto|].
  intros Hn Ha Hb E. inversion Hn as [|? ? Hnot Hrest]; subst.
  destruct Ha as [->|Ha], Hb as [->|Hb]; auto.
  - exfalso. apply Hnot. rewrite E. now apply in_map.
  - exfalso. apply Hnot. rewrite <- E. now apply in_map.
Qed.

(** Clearing a handle leaves the intervals of the other kind. *)
Lemma clear_other (keep : nat * callback * Z -> bool) (h : nat) (c : callback) (p : Z)
    (ivs : list (nat * callback * Z)) :
  List.NoDup (handles ivs) -> In (h, c, p) ivs -> keep (h, c, p) = false ->
  List.filter keep (Homey.clear h ivs) = List.filter keep ivs.
Proof.
  intros Hn Hin Hk. unfold Homey.clear.
  induction ivs as [|iv ivs IH]; [reflexivity|].
  assert (Hrest : forall iv', In iv' ivs -> keep iv' = true ->
                    negb (Nat.eqb (Homey.handle_of iv') h) = true).
  { intros iv' Hiv' Hk'. apply negb_true_iff, Nat.eqb_neq. intros E.
    assert (iv' = (h, c, p)) as -> by
      (apply (same_handle (iv :: ivs)); [exact Hn|now right|exact Hin|exact E]).
    congruence. }
  clear IH. simpl.
  assert (Hgen : forall l, (forall iv', In iv' l -> keep iv' = true ->
                     negb (Nat.eqb (Homey.handle_of iv') h) = true) ->
            List.filter keep (List.filter (fun iv0 => negb (Nat.eqb (Homey.handle_of iv0) h)) l)
            = List.filter keep l).
  { induction l as [|x l IHl]; [reflexivity|]. intros Hl. simpl.
    destruct (negb (Nat.eqb (Homey.handle_of x) h)) eqn:E1; simpl.
    - destruct (keep x); rewrite IHl; auto; intros; apply Hl; auto; now right.
    - destruct (keep x) eqn:E2.
      + rewrite (Hl x (or_introl eq_refl) E2) in E1. discriminate.
      + apply IHl. intros; apply Hl; auto. now right. }
  apply (Hgen (iv :: ivs)).
  intros iv' [<-|Hiv'] Hk'.
  - apply negb_true_iff, Nat.eqb_neq. intros E.
    assert (iv = (h, c, p)) as -> by
      (apply (same_handle (iv :: ivs)); [exact Hn|now left|exact Hin|exact E]).
    congruence.
  - now apply Hrest.
Qed.

Lemma filter_clear_comm (keep : nat * callback * Z -> bool) (h : nat)
    (ivs : list (nat * callback * Z)) :
  List.filter keep (Homey.clear h ivs) = Homey.clear h (List.filter keep ivs).
Proof.
  unfold Homey.clear. induction ivs as [|iv ivs IH]; simpl; [reflexivity|].
  destruct (negb (Nat.eqb (Homey.handle_of iv) h)) eqn:E1, (keep iv) eqn:E2;
    simpl; rewrite ?E1, ?E2, ?IH; reflexivity.
Qed.

Lemma in_order_fresh (ivs : list (nat * callback * Z)) (next : nat) :
  Forall (fun h => (h < next)%nat) (handles ivs) -> ~ In next (handles ivs).
Proof.
  intros H Hin. rewrite List.Forall_forall in H. apply H in Hin. lia.
Qed.

Lemma NoDup_snoc (l : list nat) (x : nat) :
  List.NoDup l -> ~ In x l -> List.NoDup (l ++ [x]).
Proof.
  induction l as [|y l IH]; simpl; intros Hn Hx.
  - constructor; [intros []|constructor].
  - inversion Hn as [|? ? Hy Hl]; subst. constructor.
    + rewrite in_app_iff. simpl. intros [H|[H|[]]]; [contradiction|]. subst. tauto.
    + apply IH; tauto.
Qed.

Lemma in_order_add (ivs : list (nat * callback * Z)) (next : nat) (c : callback) (p : Z) :
  List.NoDup (handles ivs) -> Forall (fun h => (h < next)%nat) (handles ivs) ->
  List.NoDup (handles (ivs ++ [(next, c, p)]))
  /\ Forall (fun h => (h < S next)%nat) (handles (ivs ++ [(next, c, p)])).
Proof.
  intros Hn Hf. unfold handles in *. rewrite map_app. simpl. split.
  - apply NoDup_snoc; [exact Hn|]. now apply in_order_fresh.
  - apply Forall_app. split.
    + revert Hf. apply List.Forall_impl. intros; lia.
    + constructor; [unfold Homey.handle_of; simpl; lia|constructor].
Qed.

Lemma in_order_clear (ivs : list (nat * callback * Z)) (next h : nat) :
  List.NoDup (handles ivs) -> Forall (fun h => (h < next)%nat) (handles ivs) ->
  List.NoDup (handles (Homey.clear h ivs))
  /\ Forall (fun h => (h < next)%nat) (handles (Homey.clear h ivs)).
Proof.
  intros Hn Hf. split; [now apply NoDup_clear|].
  rewrite List.Forall_forall in *. intros x Hx. apply Hf. now apply (handles_clear h).
Qed.

Lemma clear_one (h : nat) (c : callback) (p : Z) : Homey.clear h [(h, c, p)] = [].
Proof. unfold Homey.clear, Homey.handle_of. simpl. now rewrite Nat.eqb_refl. Qed.

Lemma regular_one (ivs : list (nat * callback * Z)) (h : nat) :
  map fst (List.filter is_regular ivs) = [(h, CbUpdateData)] ->
  exists p, List.filter is_regular ivs = [(h, CbUpdateData, p)]
            /\ In (h, CbUpdateData, p) ivs.
Proof.
  intros H. destruct (List.filter is_regular ivs) as [|[[h' c] p] [|? ?]] eqn:E;
    try discriminate.
  simpl in H. injection H as -> ->. exists p. split; [reflexivity|].
  assert (Hin : In (h, CbUpdateData, p) (List.filter is_regular ivs)) by (rewrite E; now left).
  apply filter_In in Hin. tauto.
Qed.

Lemma fast_one (ivs : list (nat * callback * Z)) (h : nat) :
  List.filter Polling.is_fast ivs = [(h, CbUpdateDeliveryStatusOnly, 60000)] ->
  In (h, CbUpdateDeliveryStatusOnly, 60000) ivs.
Proof.
  intros E.
  assert (Hin : In (h, CbUpdateDeliveryStatusOnly, 60000) (List.filter Polling.is_fast ivs))
    by (rewrite E; now left).
  apply filter_In in Hin. tauto.
Qed.

Definition regular_timers (w : World) : list (nat * callback * Z) :=
  List.filter is_regular (intervals (device w)).

(** In order, with [reg] the regular timers that run. *)
Definition steady (reg : list (nat * callback * Z)) (w : World) : Prop :=
  well_timed w /\ regular_timers w = reg.

Lemma steady_preserved {A} (reg : list (nat * callback * Z)) (m : M A) :
  preserves timer_state m -> invariant (steady reg) m.
Proof.
  intros H w [Hw Hr]. pose proof (well_timed_preserved m H w Hw) as Hw'.
  split; [exact Hw'|]. specialize (H w). unfold timer_state in H. unfold regular_timers.
  injection H as -> _ _ _. exact Hr.
Qed.

Lemma manage_steady (reg : list (nat * callback * Z)) (status : ShipmentState) :
  invariant (steady reg) (Device.manageDeliveryPolling status).
Proof.
  intros w ((Hn & Hf & Hfast & Hreg) & Hr).
  unfold steady, regular_timers, well_timed, in_order, Device.manageDeliveryPolling, bind,
    gets, Homey.log, Homey.on_device, modify in *.
  destruct w as [c e d]. cbn [device] in *.
  destruct (deliveryPollingInterval d) as [h|] eqn:Hd.
  - assert (Hkeep : List.filter is_regular (Homey.clear h (intervals d))
                    = List.filter is_regular (intervals d)).
    { apply (clear_other is_regular h CbUpdateDeliveryStatusOnly 60000); auto.
      now apply fast_one. }
    assert (Hoff : (List.NoDup (handles (Homey.clear h (intervals d)))
                   /\ Forall (fun x => (x < nextHandle d)%nat) (handles (Homey.clear h (intervals d)))
                   /\ List.filter Polling.is_fast (Homey.clear h (intervals d)) = []
                   /\ map fst (List.filter is_regular (Homey.clear h (intervals d)))
                      = match pollingInterval d with Some g => [(g, CbUpdateData)] | None => [] end)
                   /\ List.filter is_regular (Homey.clear h (intervals d)) = reg).
    { destruct (in_order_clear _ _ h Hn Hf) as [H1 H2].
      split; [|congruence].
      split; [exact H1|]. split; [exact H2|]. split.
      - rewrite filter_clear_comm, Hfast. apply clear_one.
      - rewrite Hkeep. exact Hreg. }
    destruct status; simpl; rewrite ?Hd; auto.
  - destruct status; simpl; rewrite ?Hd; auto.
    destruct (in_order_add _ _ CbUpdateDeliveryStatusOnly 60000 Hn Hf) as [H1 H2].
    rewrite !List.filter_app. simpl. rewrite Hfast, !app_nil_r. auto.
Qed.

Ltac timed_step :=
  first
  [ match goal with
    | |- invariant _ (Device.manageDeliveryPolling _) => apply manage_steady
    end
  | apply invariant_bind; [|intro]
  | apply invariant_try_catch; [|intro]
  | apply invariant_all2
  | match goal with
    | |- invariant _ (match ?x with _ => _ end) => destruct x
    | |- invariant _ (if ?x then _ else _) => destruct x
    end
  | progress unfold when, Device.publish_shipment,
      Device.updateDeliveryStatusOnly, Device.general_delivery, Device.updateGeneralData,
      Device.updateData
  | solve [apply steady_preserved; frame] ].

Lemma updateData_steady (reg : list (nat * callback * Z)) :
  invariant (steady reg) Device.updateData.
Proof. repeat timed_step. Qed.

Lemma updateDeliveryStatusOnly_steady (reg : list (nat * callback * Z)) :
  invariant (steady reg) Device.updateDeliveryStatusOnly.
Proof. repeat timed_step. Qed.

(** Every interval is a regular or a fast one, so at most two run. *)
Lemma at_most_two (w : World) : well_timed w -> (length (intervals (device w)) <= 2)%nat.
Proof.
  intros (_ & _ & Hfast & Hreg). 
  assert (Hlen : forall ivs, length ivs
            = (length (List.filter Polling.is_fast ivs)
               + length (map fst (List.filter is_regular ivs)))%nat).
  { induction ivs as [|[[h c] p] ivs IH]; [reflexivity|].
    cbn [List.filter]. unfold Polling.is_fast at 1, is_regular at 1, Homey.callback_of.
    cbn [fst snd]. destruct c; cbn [map length]; rewrite IH at 1; lia. }
  rewrite Hlen, Hfast, Hreg.
  destruct (deliveryPollingInterval (device w)), (pollingInterval (device w)); simpl; lia.
Qed.

Section Polling.

Variable product_of : jsval -> Z -> Z.

(** The period of the regular timer: the minutes of the settings, 10 when
    they give none, in ms, as the host takes a delay. *)
Definition period (settings : jsval) : Z :=
  Homey.timer_delay
    (times product_of (JS.or (JS.prop settings "polling_interval") (JNum 10)) 60000).

(** What [startPolling] does to the timers before it starts the poll. *)
Definition rearmed (p : Z) (d : Device) : Device :=
  let ivs := match pollingInterval d with
             | Some h => Homey.clear h (intervals d)
             | None => intervals d
             end in
  Homey.set_timers (ivs ++ [(nextHandle d, CbUpdateData, p)]) (S (nextHandle d))
                   (Some (nextHandle d)) (deliveryPollingInterval d) d.

Lemma rearmed_in_order (p : Z) (d : Device) :
  in_order (intervals d) (nextHandle d) (pollingInterval d) (deliveryPollingInterval d) ->
  in_order (intervals (rearmed p d)) (nextHandle (rearmed p d))
           (pollingInterval (rearmed p d)) (deliveryPollingInterval (rearmed p d))
  /\ List.filter is_regular (intervals (rearmed p d)) = [(nextHandle d, CbUpdateData, p)].
Proof.
  intros (Hn & Hf & Hfast & Hreg). unfold rearmed.
  set (ivs := match pollingInterval d with
              | Some h => Homey.clear h (intervals d)
              | None => intervals d
              end).
  assert (H : List.NoDup (handles ivs) /\ Forall (fun h => (h < nextHandle d)%nat) (handles ivs)
              /\ List.filter Polling.is_fast ivs = List.filter Polling.is_fast (intervals d)
              /\ List.filter is_regular ivs = []).
  { subst ivs. destruct (pollingInterval d) as [h|].
    - destruct (in_order_clear _ _ h Hn Hf) as [H1 H2].
      destruct (regular_one _ _ Hreg) as (p0 & E & Hin).
      split; [exact H1|]. split; [exact H2|]. split.
      + now apply (clear_other Polling.is_fast h CbUpdateData p0).
      + rewrite filter_clear_comm, E. apply clear_one.
    - split; [exact Hn|]. split; [exact Hf|]. split; [reflexivity|].
      destruct (List.filter is_regular (intervals d)); [reflexivity|discriminate]. }
  destruct H as (H1 & H2 & H3 & H4).
  destruct (in_order_add ivs _ CbUpdateData p H1 H2) as [H5 H6].
  unfold in_order.
  cbn [Homey.set_timers intervals nextHandle pollingInterval deliveryPollingInterval].
  rewrite !List.filter_app, H3, H4, Hfast. simpl. rewrite app_nil_r.
  repeat split; auto.
Qed.

Lemma startPolling_run (settings : jsval) (w : World) :
  JS.nullish settings = false ->
  Lifecycle.startPolling product_of settings w
  = (Ok tt,
     snd (Device.updateData
            (with_device
               (rearmed (period settings)
                  (Homey.add_log
                     (LogInfo,
                      "Starting Polling: "
                      +:+ JS.toString (JS.or (JS.prop settings "polling_interval") (JNum 10))
                      +:+ " min", None) (device w))) w))).
Proof.
  intros Hn. unfold Lifecycle.startPolling, bind, lift, JS.get, Homey.log, Homey.on_device,
    modify, Lifecycle.detached.
  rewrite Hn. cbv beta iota. destruct w as [c e d]. unfold rearmed, period. simpl.
  destruct (pollingInterval d); reflexivity.
Qed.

(** The period for a number of minutes: the minutes in ms from 1 to 35791
    minutes, 1 ms beyond (the host's limit is 2^31-1 ms) and for a
    negative number; 10 minutes when the settings give none, or 0. *)
Lemma period_of (settings : jsval) :
  (forall n, JS.prop settings "polling_interval" = JNum n ->
     (1 <= n <= 35791 -> period settings = n * 60000)
     /\ (n < 0 \/ 35791 < n -> period settings = 1))
  /\ (JS.truthy (JS.prop settings "polling_interval") = false -> period settings = 600000).
Proof.
  unfold period, JS.or, Homey.timer_delay. split.
  - intros n ->. simpl. split; intros Hn.
    + destruct (Z.eqb_spec n 0); [lia|]. simpl.
      destruct (Z.ltb_spec (n * 60000) 1), (Z.ltb_spec 2147483647 (n * 60000)); simpl; lia.
    + destruct (Z.eqb_spec n 0); [lia|]. simpl.
      destruct (Z.ltb_spec (n * 60000) 1), (Z.ltb_spec 2147483647 (n * 60000)); simpl; lia.
  - intros ->. reflexivity.
Qed.

(** X10.  The timers of the device stay in order, that is: every running
    timer has its own handle, at most one regular and at most one fast
    timer run, and they are the ones the two fields hold.  A device in
    order runs at most two timers.  [startPolling] keeps the order and
    leaves exactly one regular timer, whose period is the one the host
    makes of the minutes of the settings: the minutes in ms from 1 to 35791
    minutes, 1 ms for more minutes or a negative number, and 10 minutes
    when the settings give none.  A regular poll and a fast poll keep the
    order and do not touch the regular timer. *)
Theorem timers_stay_in_order (settings : jsval) (w : World) :
  JS.nullish settings = false ->
  well_timed w ->
  (length (intervals (device w)) <= 2)%nat
  /\ (let w' := snd (Lifecycle.startPolling product_of settings w) in
      well_timed w'
      /\ exists h, pollingInterval (device w') = Some h
                   /\ regular_timers w' = [(h, CbUpdateData, period settings)])
  /\ (forall n, JS.prop settings "polling_interval" = JNum n ->
        (1 <= n <= 35791 -> period settings = n * 60000)
        /\ (n < 0 \/ 35791 < n -> period settings = 1))
  /\ (JS.truthy (JS.prop settings "polling_interval") = false -> period settings = 600000)
  /\ (let w' := snd (Device.updateData w) in
      well_timed w' /\ regular_timers w' = regular_timers w)
  /\ (let w' := snd (Device.updateDeliveryStatusOnly w) in
      well_timed w' /\ regular_timers w' = regular_timers w).
Proof.
  intros Hn Hw. split; [now apply at_most_two|].
  split; [|split; [apply period_of|split; [apply period_of|split]]].
  - rewrite (startPolling_run settings w Hn). cbn [snd].
    match goal with |- context [Device.updateData ?w0] => set (w1 := w0) end.
    destruct (rearmed_in_order (period settings)
                (Homey.add_log
                   (LogInfo,
                    "Starting Polling: "
                    +:+ JS.toString (JS.or (JS.prop settings "polling_interval") (JNum 10))
                    +:+ " min", None) (device w))) as [H1 H2]; [exact Hw|].
    destruct (updateData_steady _ w1 (conj H1 H2)) as [H3 H4].
    split; [exact H3|].
    destruct H3 as (_ & _ & _ & H3). unfold regular_timers in H4. rewrite H4 in H3.
    destruct (pollingInterval (device (snd (Device.updateData w1)))) as [h|]; [|discriminate].
    simpl in H3. injection H3 as <-. exists (nextHandle (device w)). split; [reflexivity|].
    exact H4.
  - exact (updateData_steady _ w (conj Hw eq_refl)).
  - exact (updateDeliveryStatusOnly_steady _ w (conj Hw eq_refl)).
Qed.

End Polling.

Definition five_minutes : jsval := JObj [("polling_interval", JNum 5)].

Lemma quiet_well_timed : well_timed Polling.quiet.
Proof. repeat split; constructor. Qed.

Lemma one_regular_timer_after_start :
  let w' := snd (Lifecycle.startPolling (fun _ _ => 0) five_minutes Polling.quiet) in
  well_timed w'
  /\ exists h, pollingInterval (device w') = Some h
               /\ regular_timers w' = [(h, CbUpdateData, 300000)].
Proof.
  exact (proj1 (proj2 (timers_stay_in_order (fun _ _ => 0) five_minutes Polling.quiet
                         eq_refl quiet_well_timed))).
Defined.

End Timers.

(** ** The start of the device *)

Module Startup.
Import Frame Run Executor.

(** A login that throws leaves a client without a user id without one. *)
Lemma login_failure_user (w w1 : World) (e : exn) :
  Client.login w = (Throw e, w1) ->
  JS.truthy (userId (client w)) = false ->
  JS.truthy (userId (client w1)) = false.
Proof.
  unfold Client.login.
  unfold bind at 1. unfold Client.on_env at 1, modify at 1.
  unfold bind at 1, gets at 1. unfold bind at 1, gets at 1. unfold bind at 1.
  match goal with |- context [Client.rateLimit ?w0] =>
    destruct (rateLimit_run w0) as (t & ds & -> & Ht) end.
  unfold bind at 1, gets at 1. unfold bind at 1.
  match goal with |- context [Client.fetch ?v ?rq ?w0] =>
    assert (Hf : userId (client (snd (Client.fetch v rq w0))) = userId (client w));
    [ assert (Hp : preserves (fun w => userId (client w)) (Client.fetch v rq)) by frame;
      rewrite Hp; destruct w as [c [clk dl net tr rc] d]; reflexivity |];
    destruct (Client.fetch v rq w0) as [[r|e'] w2] end; cbn [snd] in Hf.
  2:{ intros [= <- <-] Hu. congruence. }
  unfold Client.read_login, bind at 1.
  assert (Hs : preserves (fun w => userId (client w)) (Client.store_cookies r)) by frame.
  specialize (Hs w2).
  destruct (Client.store_cookies r w2) as [[[]|e'] w3]; cbn [snd] in Hs.
  2:{ intros [= <- <-] Hu. congruence. }
  unfold bind at 1. unfold Client.parse.
  destruct (json r) as [data|].
  2:{ intros [= <- <-] Hu. congruence. }
  unfold ret at 1. cbv beta iota.
  destruct (negb _).
  - unfold bind, lift, throw. destruct (JS.get data "messages"); intros [= <- <-] Hu; congruence.
  - unfold bind at 1, lift. destruct (JS.get data "data") as [payload|e'].
    2:{ intros [= <- <-] Hu. congruence. }
    unfold bind, Client.on_client, modify, gets. simpl.
    destruct (JS.truthy _) eqn:Hid; simpl; [discriminate|].
    intros [= <- <-] _. exact Hid.
Qed.

(** A poll of a client without a user id: no request, no write; the device
    is marked available. *)
Lemma idle_poll (w : World) :
  JS.truthy (userId (client w)) = false ->
  Device.updateData w = (Ok tt, with_device (Homey.set_availability true None (device w)) w).
Proof.
  intros Hu. unfold Device.updateData, try_catch, bind at 1, all2.
  unfold Device.updateGeneralData, Device.updateSlotsData, bind, gets.
  rewrite Hu. simpl. rewrite Hu. simpl. destruct w; reflexivity.
Qed.

(** [connect] returns whatever the login does; a login that throws is
    logged and marks the device unavailable with the message of the
    error. *)
Lemma connect_run (w : World) :
  (exists w', Lifecycle.connect w = (Ok tt, w'))
  /\ forall e w1, Client.login w = (Throw e, w1) ->
       Lifecycle.connect w
       = (Ok tt,
          with_device
            (Homey.set_availability false (Some (JStr (message e)))
               (Homey.add_log (LogError, "Login failed", Some e) (device w1))) w1).
Proof.
  unfold Lifecycle.connect, try_catch, bind.
  destruct (Client.login w) as [[[]|e] w1].
  - split; [|discriminate].
    unfold Homey.setAvailable, Homey.log, Homey.on_device, modify, Lifecycle.detached.
    eexists. reflexivity.
  - split; [eexists; reflexivity|]. intros e' w1' [= <- <-]. reflexivity.
Qed.

(** A client the constructor has built holds no session. *)
Lemma constructed_fresh (u p country : jsval) (c : RohlikClient) :
  Client.constructor u p country = Ok c ->
  sessionCookies c = "" /\ userId c = JNull /\ addressId c = JNull
  /\ lastRequestTime c = 0.
Proof.
  unfold Client.constructor. destruct (Client.country_key _); [|discriminate].
  intros [= <-]. repeat split.
Qed.

Lemma initClient_built (settings : jsval) (w w0 : World) :
  Lifecycle.initClient settings w = (Ok tt, w0) ->
  JS.nullish settings = false
  /\ Client.constructor (JS.prop settings "username") (JS.prop settings "password")
       (JS.or (JS.prop settings "country") (JStr "CZ")) = Ok (client w0)
  /\ listening (device w0) = Some DeviceListener
  /\ env w0 = env w.
Proof.
  unfold Lifecycle.initClient, bind, lift, Homey.on_device, modify, JS.get.
  destruct (JS.nullish settings); [discriminate|].
  destruct (Client.constructor _ _ _) as [c|e] eqn:Ec; [|discriminate].
  intros [= <-]. repeat split.
Qed.

(** X11.  When [initClient] returns, the client in place is the one the
    constructor builds from the user name, the password and the country of
    the settings (CZ when they give none), whatever client there was before:
    it holds no cookie, no user id and no address id, the rate limiter has
    no request on record, the listener of the device is attached, and no
    request has been sent. *)
Theorem initClient_resets_session (settings : jsval) (w w0 : World) :
  Lifecycle.initClient settings w = (Ok tt, w0) ->
  JS.nullish settings = false
  /\ Client.constructor (JS.prop settings "username") (JS.prop settings "password")
       (JS.or (JS.prop settings "country") (JStr "CZ")) = Ok (client w0)
  /\ sessionCookies (client w0) = ""
  /\ userId (client w0) = JNull
  /\ addressId (client w0) = JNull
  /\ lastRequestTime (client w0) = 0
  /\ listening (device w0) = Some DeviceListener
  /\ env w0 = env w.
Proof.
  intros E. destruct (initClient_built settings w w0 E) as (Hn & Hc & Hl & He).
  destruct (constructed_fresh _ _ _ _ Hc) as (Hs & Hu & Ha & Ht).
  repeat split; assumption.
Qed.

Section Boot.

Variable product_of : jsval -> Z -> Z.

(** X12.  When the login of [onInit] throws, [onInit] still returns and
    the regular timer is started with the period the host makes of the
    minutes of the settings ([Timers.period]: the minutes in ms, and 1 ms
    when that is less than 1 or more than 2^31-1).  The
    poll that [startPolling] starts at once finds no user id, asks the
    service nothing and marks the device available again: once it has
    run, the unavailability and the message that [connect] has set for the
    failed login are gone. *)
Theorem failed_first_login_ends_available (settings : jsval) (w w0 w1 : World) (e : exn) :
  (Homey.log "RohlikDevice has been initialized" ;; Lifecycle.initClient settings) w
  = (Ok tt, w0) ->
  Client.login w0 = (Throw e, w1) ->
  exists w',
    Lifecycle.onInit product_of settings w = (Ok tt, w')
    /\ JS.truthy (userId (client w')) = false
    /\ env w' = env w1
    /\ available (device w') = true
    /\ unavailableMessage (device w') = None
    /\ exists h, pollingInterval (device w') = Some h
                 /\ In (h, CbUpdateData, Timers.period product_of settings) (intervals (device w')).
Proof.
  intros E0 El. unfold Lifecycle.onInit.
  unfold bind at 1. unfold bind at 1 in E0.
  destruct (Homey.log _ w) as [[[]|e0] wl]; [|discriminate].
  unfold bind at 1. rewrite E0.
  destruct (initClient_built settings wl w0 E0) as (Hn & Hb & _).
  destruct (constructed_fresh _ _ _ _ Hb) as (_ & Hu & _).
  destruct (connect_run w0) as [_ Hc].
  unfold bind at 1. rewrite (Hc e w1 El). clear Hc.
  pose proof (login_failure_user w0 w1 e El) as Hf. rewrite Hu in Hf. specialize (Hf eq_refl).
  unfold Lifecycle.startPolling, bind, lift, JS.get, Homey.log, Homey.on_device, modify.
  rewrite Hn. unfold Lifecycle.detached. cbv beta iota.
  rewrite idle_poll by exact Hf.
  eexists. split; [reflexivity|]. cbn [snd].
  split; [exact Hf|]. split; [reflexivity|]. split; [reflexivity|]. split; [reflexivity|].
  eexists. split; [reflexivity|]. simpl. apply in_or_app. right. left. reflexivity.
Qed.

End Boot.

Definition settings0 : jsval :=
  JObj [("username", JStr "u"); ("password", JStr "p"); ("country", JStr "CZ")].

Lemma new_client_holds_no_session :
  let w0 := snd (Lifecycle.initClient settings0 Polling.quiet) in
  sessionCookies (client w0) = "" /\ userId (client w0) = JNull
  /\ addressId (client w0) = JNull /\ env w0 = env Polling.quiet.
Proof.
  destruct (initClient_resets_session settings0 Polling.quiet _ eq_refl)
    as (_ & _ & Hs & Hu & Ha & _ & _ & He).
  repeat split; assumption.
Defined.

Definition offline : World :=
  Sample.world_of Sample.client1 [Rejects (Error "offline")].

Lemma offline_start_ends_available :
  exists w',
    Lifecycle.onInit (fun _ _ => 600000) settings0 offline = (Ok tt, w')
    /\ JS.truthy (userId (client w')) = false
    /\ available (device w') = true
    /\ unavailableMessage (device w') = None.
Proof.
  destruct (failed_first_login_ends_available (fun _ _ => 600000) settings0 offline _ _
              (Error "offline") eq_refl eq_refl) as (w' & H & Hu & _ & Ha & Hm & _).
  exists w'. repeat split; assumption.
Defined.

End Startup.

(** ** A change of the credentials *)

Module Credentials.
Import Frame Run Executor.

(** What a login sends depends on these fields of the client only. *)
Definition credentials (w : World) : jsval * jsval * string :=
  (username (client w), password (client w), baseUrl (client w)).

Definition request_of (cr : jsval * jsval * string) : request :=
  {| req_url := snd cr +:+ "/services/frontend-service/login";
     req_method := Some "POST";
     req_headers := [("Content-Type", "application/json"); ("User-Agent", Client.userAgent)];
     req_body := Some (JObj [("email", fst (fst cr)); ("password", snd (fst cr))]) |}.

(** An event that is no login request, or the login request [rq]. *)
Definition logs_in_with (rq : request) (ev : event) : Prop :=
  match ev with
  | Fetch _ ViaLogin rq' => rq' = rq
  | _ => True
  end.

(** The client holds the credentials [cr], and every login request sent
    since the trace was [pre] carries them. *)
Definition faithful (pre : list event) (cr : jsval * jsval * string) (w : World) : Prop :=
  credentials w = cr
  /\ exists l, trace (env w) = pre ++ l /\ Forall (logs_in_with (request_of cr)) l.

Definition observed (w : World) : (jsval * jsval * string) * list event :=
  (credentials w, trace (env w)).

Lemma faithful_preserved {A} (pre : list event) (cr : jsval * jsval * string) (m : M A) :
  preserves observed m -> invariant (faithful pre cr) m.
Proof.
  intros H w. specialize (H w). unfold observed in H. unfold faithful.
  pose proof (f_equal fst H) as Hc. pose proof (f_equal snd H) as Ht. simpl in Hc, Ht.
  rewrite Hc, Ht. auto.
Qed.

Lemma faithful_step {A} (pre : list event) (cr : jsval * jsval * string) (m : M A) :
  preserves credentials m ->
  (forall w, exists l, trace (env (snd (m w))) = trace (env w) ++ l
                       /\ Forall (logs_in_with (request_of (credentials w))) l) ->
  invariant (faithful pre cr) m.
Proof.
  intros Hc Ht w (Hcr & l & El & Hl). split; [now rewrite Hc|].
  destruct (Ht w) as (l' & El' & Hl'). exists (l ++ l'). split.
  - rewrite El', El, app_assoc. reflexivity.
  - apply Forall_app. split; [exact Hl|]. now rewrite <- Hcr.
Qed.

Lemma dispatch_faithful (pre : list event) (cr : jsval * jsval * string)
    (url : string) (o : Client.options) :
  invariant (faithful pre cr) (Client.dispatch url o).
Proof.
  apply faithful_step; [frame|]. intros w.
  destruct (dispatch_trace url o w) as (t & E). eexists. split; [exact E|].
  repeat constructor.
Qed.

Lemma login_faithful (pre : list event) (cr : jsval * jsval * string) :
  invariant (faithful pre cr) Client.login.
Proof.
  apply faithful_step; [frame|]. intros w.
  destruct (login_trace w) as (t & E). eexists. split; [exact E|].
  repeat constructor.
Qed.

Ltac faithful_step :=
  first
  [ match goal with
    | |- invariant _ (Client.dispatch _ _) => apply dispatch_faithful
    | |- invariant _ Client.login => apply login_faithful
    end
  | apply invariant_bind; [|intro]
  | apply invariant_try_catch; [|intro]
  | apply invariant_all2
  | match goal with
    | |- invariant _ (match ?x with _ => _ end) => destruct x
    | |- invariant _ (if ?x then _ else _) => destruct x
    end
  | progress unfold when, Client.makeRequest, Client.makeRequest_body, Client.deliver,
      Client.emit,
      Client.removeFromCart, Client.getCartContent, Client.getUpcomingOrders,
      Client.getDeliverySlots, Client.logout, Client.getReusableBagsInfo,
      Client.getDeliveryAnnouncements,
      Device.updateDeliveryStatusOnly, Device.general_cart, Device.general_upcoming,
      Device.general_delivery, Device.general_bags, Device.updateGeneralData,
      Device.updateSlotsData, Device.updateData
  | solve [apply faithful_preserved; frame]
  | solve [apply faithful_step; [frame|];
           intros [? [? ? ? ? ?] ?]; eexists; split; [reflexivity|]; repeat constructor] ].

Lemma updateData_faithful (pre : list event) (cr : jsval * jsval * string) :
  invariant (faithful pre cr) Device.updateData.
Proof. repeat faithful_step. Qed.

Lemma detached_faithful (pre : list event) (cr : jsval * jsval * string) (m : M unit) :
  invariant (faithful pre cr) m -> invariant (faithful pre cr) (Lifecycle.detached m).
Proof. intros H w Hw. exact (H w Hw). Qed.

Lemma faithful_start (w : World) : faithful (trace (env w)) (credentials w) w.
Proof. split; [reflexivity|]. exists []. split; [now rewrite app_nil_r|constructor]. Qed.

(** [connect] logs in once with what the client holds; every login that
    follows (a poll re-authenticating) sends the same. *)
Lemma connect_logs_in (w : World) :
  exists w' t after,
    Lifecycle.connect w = (Ok tt, w')
    /\ credentials w' = credentials w
    /\ trace (env w')
       = trace (env w) ++ [Call Login; Fetch t ViaLogin (request_of (credentials w))] ++ after
    /\ Forall (logs_in_with (request_of (credentials w))) after.
Proof.
  destruct (login_trace w) as (t & Et).
  assert (Hc : preserves credentials Client.login) by frame. specialize (Hc w).
  unfold Lifecycle.connect, try_catch. unfold bind at 1.
  destruct (Client.login w) as [[[]|e] w1]; cbn [snd] in *.
  - assert (Hinv : invariant (faithful (trace (env w1)) (credentials w1))
                     (Homey.setAvailable ;; Homey.log "Logged in successfully" ;;
                      Lifecycle.detached Device.updateData)).
    { apply invariant_bind; [apply faithful_preserved; frame|intro].
      apply invariant_bind; [apply faithful_preserved; frame|intro].
      apply detached_faithful, updateData_faithful. }
    specialize (Hinv w1 (faithful_start w1)).
    assert (Hok : fst ((Homey.setAvailable ;; Homey.log "Logged in successfully" ;;
                        Lifecycle.detached Device.updateData) w1) = Ok tt) by reflexivity.
    destruct ((Homey.setAvailable ;; Homey.log "Logged in successfully" ;;
               Lifecycle.detached Device.updateData) w1) as [r w2]; cbn [snd fst] in *.
    subst r. destruct Hinv as (Hcr & l & El & Hl).
    exists w2, t, l. split; [reflexivity|]. split; [congruence|]. split.
    + rewrite El, Et, <- app_assoc. reflexivity.
    + now rewrite <- Hc.
  - eexists _, t, []. split; [reflexivity|]. cbn [snd].
    split; [exact Hc|]. split; [|constructor].
    unfold bind, Homey.error, Homey.setUnavailable, Homey.on_device, modify. simpl.
    exact Et.
Qed.

Lemma or_default (a : jsval) :
  JS.or (JS.or a (JStr "cz")) (JStr "CZ") = JS.or a (JStr "cz").
Proof. unfold JS.or. destruct (JS.truthy a) eqn:E; [rewrite E|]; reflexivity. Qed.

Section Change.

Variable product_of : jsval -> Z -> Z.

(** X13.  A change of the settings that names the user name, the password
    or the region, and not the polling interval, returns whenever the
    constructor accepts the new settings, also when the logout or the new
    login fails.  The client then holds the new user name and password and
    the base URL of the new region, a login with exactly these has been
    sent, and every login sent after it carries them too. *)
Theorem new_credentials_are_used (settings newSettings : jsval) (keys : list jsval)
    (c : RohlikClient) (w : World) :
  Lifecycle.mentions keys ["polling_interval"] = false ->
  Lifecycle.mentions keys ["username"; "password"; "region"] = true ->
  JS.nullish newSettings = false ->
  Client.constructor (JS.prop newSettings "username") (JS.prop newSettings "password")
    (JS.or (JS.prop newSettings "region") (JStr "cz")) = Ok c ->
  exists w',
    Lifecycle.onSettings product_of settings newSettings (JArr keys) w = (Ok tt, w')
    /\ credentials w'
       = (JS.prop newSettings "username", JS.prop newSettings "password", baseUrl c)
    /\ exists before t after,
         trace (env w')
         = before ++ [Call Login; Fetch t ViaLogin (request_of (credentials w'))] ++ after
         /\ Forall (logs_in_with (request_of (credentials w'))) after.
Proof.
  intros Hp Hl Hn Hc. unfold Lifecycle.onSettings. rewrite Hp, Hl.
  unfold bind at 1. unfold Homey.log at 1, Homey.on_device at 1, modify at 1.
  unfold bind at 1. unfold when at 1, ret at 1.
  unfold bind at 1. unfold when at 1.
  unfold bind at 1. unfold Homey.log at 1, Homey.on_device at 1, modify at 1.
  unfold bind at 1.
  match goal with |- context [try_catch Client.logout ?h ?w0] =>
    assert (Hout : exists wa, try_catch Client.logout h w0 = (Ok tt, wa));
    [ unfold try_catch; destruct (Client.logout w0) as [[[]|e] w1]; eexists; reflexivity |]
  end.
  destruct Hout as (wa & ->).
  unfold bind at 1, lift at 1, JS.get at 1. rewrite Hn.
  unfold bind at 1, lift at 1, JS.get at 1. rewrite Hn.
  unfold bind at 1, lift at 1, JS.get at 1. rewrite Hn.
  unfold bind at 1.
  assert (Hinit : exists wb,
    Lifecycle.initClient
      (JObj [("username", JS.prop newSettings "username");
             ("password", JS.prop newSettings "password");
             ("country", JS.or (JS.prop newSettings "region") (JStr "cz"))]) wa = (Ok tt, wb)
    /\ client wb = c /\ env wb = env wa).
  { unfold Lifecycle.initClient, bind, lift, Homey.on_device, modify.
    change (JS.get (JObj ?p) "username") with (Ok (JS.prop newSettings "username")).
    change (JS.get (JObj _) "password") with (Ok (JS.prop newSettings "password")).
    change (JS.get (JObj _) "country")
      with (Ok (JS.or (JS.prop newSettings "region") (JStr "cz"))).
    cbv beta iota. rewrite or_default, Hc. eexists. split; [reflexivity|]. split; reflexivity. }
  destruct Hinit as (wb & -> & Hcb & Heb).
  destruct (connect_logs_in wb) as (wc & t & after & -> & Hcr & Ht & Hafter).
  assert (Hcreds : credentials wb
            = (JS.prop newSettings "username", JS.prop newSettings "password", baseUrl c)).
  { unfold credentials. rewrite Hcb. unfold Client.constructor in Hc.
    destruct (Client.country_key _); [|discriminate]. injection Hc as <-. reflexivity. }
  assert (Hlast : preserves observed
            (when (Lifecycle.mentions keys ["enable_logging"])
               (lift (JS.get newSettings "enable_logging") ;; Homey.log "Debug logging is now:")))
    by frame.
  specialize (Hlast wc).
  assert (Hok : fst (when (Lifecycle.mentions keys ["enable_logging"])
               (lift (JS.get newSettings "enable_logging") ;; Homey.log "Debug logging is now:") wc)
                = Ok tt).
  { unfold when, bind, lift, JS.get. rewrite Hn.
    destruct (Lifecycle.mentions keys ["enable_logging"]); reflexivity. }
  destruct (when _ _ wc) as [r wd]; cbn [snd fst] in *. subst r.
  unfold observed in Hlast.
  pose proof (f_equal fst Hlast) as H1. pose proof (f_equal snd Hlast) as H2. simpl in H1, H2.
  exists wd. split; [reflexivity|]. rewrite H1, Hcr. split; [exact Hcreds|].
  exists (trace (env wb)), t, after. rewrite H2. split; [exact Ht|exact Hafter].
Qed.

End Change.

Definition changed : jsval :=
  JObj [("username", JStr "u"); ("password", JStr "q"); ("region", JStr "DE")].

Lemma changed_password_is_sent :
  exists w',
    Lifecycle.onSettings (fun _ _ => 600000) changed changed (JArr [JStr "password"])
      (Sample.world_of Sample.client1 [Responds Executor.forbidden; Sample.login_accepted])
    = (Ok tt, w')
    /\ credentials w' = (JStr "u", JStr "q", "https://www.knuspr.de").
Proof.
  destruct (new_credentials_are_used (fun _ _ => 600000) changed changed [JStr "password"] _
              (Sample.world_of Sample.client1 [Responds Executor.forbidden; Sample.login_accepted])
              eq_refl eq_refl eq_refl eq_refl) as (w' & H & Hc & _).
  exists w'. split; [exact H|exact Hc].
Defined.

End Credentials.

(** ** The account data *)

Module Sent.
Import Frame Run Executor.

(** The number of requests sent so far. *)
Definition sent (w : World) : nat := length (Wire.dispatched w).

Definition at_least (n : nat) (w : World) : Prop := (n <= sent w)%nat.

Lemma at_least_preserved {A} (n : nat) (m : M A) :
  preserves (seen Wire.fetch_time) m -> invariant (at_least n) m.
Proof. intros H w. unfold at_least, sent, Wire.dispatched. now rewrite H. Qed.

Lemma dispatch_sends (url : string) (o : Client.options) (w : World) :
  sent (snd (Client.dispatch url o w)) = S (sent w).
Proof.
  destruct (dispatch_trace url o w) as (t & E).
  unfold sent, Wire.dispatched, seen. rewrite E, pick_app, length_app. simpl. lia.
Qed.

Lemma login_sends (w : World) : sent (snd (Client.login w)) = S (sent w).
Proof.
  destruct (login_trace w) as (t & E).
  unfold sent, Wire.dispatched, seen. rewrite E, pick_app, length_app. simpl. lia.
Qed.

Lemma dispatch_at_least (n : nat) (url : string) (o : Client.options) :
  invariant (at_least n) (Client.dispatch url o).
Proof. intros w H. unfold at_least in *. rewrite dispatch_sends. lia. Qed.

Lemma login_at_least (n : nat) : invariant (at_least n) Client.login.
Proof. intros w H. unfold at_least in *. rewrite login_sends. lia. Qed.

Ltac sent_step :=
  first
  [ match goal with
    | |- invariant _ (Client.dispatch _ _) => apply dispatch_at_least
    | |- invariant _ Client.login => apply login_at_least
    end
  | apply invariant_bind; [|intro]
  | apply invariant_try_catch; [|intro]
  | apply invariant_all2
  | match goal with
    | |- invariant _ (match ?x with _ => _ end) => destruct x
    | |- invariant _ (if ?x then _ else _) => destruct x
    end
  | progress unfold when, Client.makeRequest, Client.makeRequest_body
  | solve [apply at_least_preserved; frame] ].

Lemma makeRequest_at_least (n : nat) (url : string) (o : Client.options) (isRetry : bool) :
  invariant (at_least n) (Client.makeRequest url o isRetry).
Proof. repeat sent_step. Qed.

(** A call of [makeRequest] sends at least one request. *)
Lemma makeRequest_sends (url : string) (o : Client.options) (w : World) :
  (S (sent w) <= sent (snd (Client.makeRequest url o false w)))%nat.
Proof.
  rewrite makeRequest_unfold. unfold Client.makeRequest_body. unfold bind at 1.
  pose proof (dispatch_sends url o w) as Hd.
  destruct (Client.dispatch url o w) as [[r|e] w1]; cbn [snd] in *; [|lia].
  assert (Hrest : invariant (at_least (S (sent w)))
            (if Client.auth_failed r
             then if negb false then Client.login ;; Client.makeRequest url o true
                  else throw (Error "Unauthorized after retry")
             else Client.deliver url r)).
  { destruct (Client.auth_failed r); cbn [negb].
    - apply invariant_bind; [apply login_at_least|intro]. apply makeRequest_at_least.
    - apply at_least_preserved. frame. }
  apply Hrest. unfold at_least. lia.
Qed.

Lemma bind_sends {A B} (m : M A) (k : A -> M B) (n : nat) (w : World) :
  (n <= sent (snd (m w)))%nat -> (forall a, invariant (at_least n) (k a)) ->
  (n <= sent (snd (bind m k w)))%nat.
Proof.
  intros H1 H2. unfold bind. destruct (m w) as [[a|e] w1]; cbn [snd] in *; [|exact H1].
  apply H2. exact H1.
Qed.

Lemma getCartContent_sends (w : World) :
  (S (sent w) <= sent (snd (Client.getCartContent w)))%nat.
Proof.
  unfold Client.getCartContent. unfold bind at 1, Client.on_env, modify.
  match goal with |- context [bind _ _ ?w0] => set (w3 := w0) end.
  assert (H3 : sent w3 = sent w).
  { unfold sent, Wire.dispatched, seen, w3. simpl. rewrite pick_app. simpl.
    now rewrite app_nil_r. }
  rewrite <- H3. apply bind_sends; [apply makeRequest_sends|]. intros r.
  apply invariant_bind; [apply at_least_preserved; frame|intro].
  apply invariant_bind; [apply at_least_preserved; frame|intro].
  apply at_least_preserved. frame.
Qed.

Lemma unwrapped_at_least (n : nat) (path : string) :
  invariant (at_least n) (Account.unwrapped path).
Proof.
  unfold Account.unwrapped.
  apply invariant_bind; [apply makeRequest_at_least|intro].
  apply at_least_preserved. frame.
Qed.

Lemma unwrapped_sends (path : string) (w : World) :
  (S (sent w) <= sent (snd (Account.or_null (Account.unwrapped path) w)))%nat.
Proof.
  unfold Account.or_null, try_catch, Account.unwrapped. unfold bind at 1.
  pose proof (makeRequest_sends path Client.no_options w) as H.
  destruct (Client.makeRequest path Client.no_options false w) as [[r|e] w1]; cbn [snd] in *.
  - unfold bind, lift, ret. destruct (JS.get r "data"); exact H.
  - exact H.
Qed.

Lemma or_null_returns (m : M jsval) (w : World) :
  exists v, Account.or_null m w = (Ok v, snd (Account.or_null m w)).
Proof.
  unfold Account.or_null, try_catch. destruct (m w) as [[v|e] w1]; eexists; reflexivity.
Qed.

Definition keys (props : list (string * jsval)) : list string := map fst props.

Definition add_key (ks : list string) (k : string) : list string :=
  if existsb (String.eqb k) ks then ks else ks ++ [k].

Lemma set_keys (k : string) (v : jsval) (props : list (string * jsval)) :
  keys (Web.set k v props) = add_key (keys props) k.
Proof.
  unfold add_key, keys. induction props as [|[k' v'] props IH]; simpl; [reflexivity|].
  destruct (String.eqb_spec k k') as [->|Hk]; simpl; [reflexivity|].
  rewrite IH. destruct (existsb _ _); reflexivity.
Qed.

Lemma collect_run (eps : list (string * string)) (result : list (string * jsval)) (w : World) :
  exists result' w',
    Account.collect eps result w = (Ok result', w')
    /\ keys result' = fold_left add_key (map fst eps) (keys result)
    /\ (sent w + length eps <= sent w')%nat.
Proof.
  revert result w. induction eps as [|[endpoint path] eps IH]; intros result w.
  - exists result, w. repeat split. simpl. lia.
  - simpl. unfold bind at 1.
    destruct (or_null_returns (Account.unwrapped path) w) as (v & E).
    pose proof (unwrapped_sends path w) as Hs. rewrite E. 
    destruct (IH (Web.set endpoint v result) (snd (Account.or_null (Account.unwrapped path) w)))
      as (result' & w' & -> & Hk & Hn).
    exists result', w'. split; [reflexivity|]. rewrite Hk, set_keys. split; [reflexivity|].
    simpl. lia.
Qed.

(** X14.  [getAccountData] never throws.  Whatever the service answers, it
    returns an object with its eleven keys, the nine endpoints in their
    order, then [next_delivery_slot] and [cart], and it has sent at least
    ten requests: one for each endpoint and one for the cart. *)
Theorem getAccountData_always_answers (w : World) :
  exists result w',
    Account.getAccountData w = (Ok (JObj result), w')
    /\ keys result
       = ["delivery"; "next_order"; "announcements"; "bags"; "timeslot"; "last_order";
          "premium_profile"; "delivery_announcements"; "delivered_orders";
          "next_delivery_slot"; "cart"]
    /\ (sent w + 10 <= sent w')%nat.
Proof.
  unfold Account.getAccountData. unfold bind at 1.
  destruct (collect_run Account.endpoints [] w) as (result & w1 & -> & Hk & Hn).
  unfold bind at 1, gets at 1. unfold bind at 1, gets at 1. unfold bind at 1.
  assert (Hslot : exists slot w2,
    (if JS.truthy (userId (client w1)) && JS.truthy (addressId (client w1))
     then Account.or_null
            (Account.unwrapped
               ("/services/frontend-service/timeslots-api/0?userId="
                +:+ JS.toString (userId (client w1)) +:+ "&addressId="
                +:+ JS.toString (addressId (client w1)) +:+ "&reasonableDeliveryTime=true"))
     else ret JNull) w1 = (Ok slot, w2) /\ (sent w1 <= sent w2)%nat).
  { destruct (_ && _).
    - match goal with |- context [Account.or_null ?m w1] =>
        destruct (or_null_returns m w1) as (v & E);
        pose proof (unwrapped_sends _ w1 : (S (sent w1) <= sent (snd (Account.or_null m w1)))%nat)
      end.
      rewrite E. eexists _, _. split; [reflexivity|]. lia.
    - exists JNull, w1. split; [reflexivity|lia]. }
  destruct Hslot as (slot & w2 & -> & Hn2).
  unfold bind at 1.
  match goal with |- context [Account.or_null ?m w2] =>
    destruct (or_null_returns m w2) as (cart & E);
    assert (Hc : (S (sent w2) <= sent (snd (Account.or_null m w2)))%nat)
  end.
  { unfold Account.or_null, try_catch. unfold bind at 1.
    pose proof (getCartContent_sends w2) as Hg.
    destruct (Client.getCartContent w2) as [[c|e] w5]; exact Hg. }
  rewrite E. eexists _, _. split; [reflexivity|]. split.
  - rewrite !set_keys, Hk. reflexivity.
  - simpl in Hn. lia.
Qed.

End Sent.

(** ** The product search *)

Module Search.
Import Frame Run Executor.

(** The bytes a query value can hold once encoded. *)
Definition url_safe (c : ascii) : bool :=
  Web.unreserved c || Ascii.eqb c "+" || Ascii.eqb c "%".

Fixpoint all_of (p : ascii -> bool) (s : string) : bool :=
  match s with
  | EmptyString => true
  | String c t => p c && all_of p t
  end.

Lemma hex_safe (c : ascii) :
  Web.unreserved (Web.hex_digit (nat_of_ascii c / 16))
  && Web.unreserved (Web.hex_digit (nat_of_ascii c mod 16)) = true.
Proof. revert c. apply Region.ascii_forall. vm_compute. reflexivity. Qed.

Lemma encode_safe (s : string) : all_of url_safe (Web.encode s) = true.
Proof.
  induction s as [|c s IH]; [reflexivity|]. cbn [Web.encode].
  destruct (Web.unreserved c) eqn:Hu.
  - cbn [all_of]. unfold url_safe at 1. rewrite Hu. exact IH.
  - destruct (Ascii.eqb c " "); cbn [all_of]; [exact IH|].
    pose proof (hex_safe c) as H. apply andb_prop in H as [H1 H2].
    unfold url_safe at 2 3. rewrite H1, H2. exact IH.
Qed.

Lemma encode_plain (s : string) : all_of Web.unreserved s = true -> Web.encode s = s.
Proof.
  induction s as [|c s IH]; [reflexivity|]. simpl. intros H.
  apply andb_prop in H as [-> H]. now rewrite IH.
Qed.

Lemma uint_plain (d : Decimal.uint) : all_of Web.unreserved (NilEmpty.string_of_uint d) = true.
Proof. induction d; simpl; auto. Qed.

Lemma string_of_Z_plain (n : Z) : all_of Web.unreserved (JS.string_of_Z n) = true.
Proof.
  unfold JS.string_of_Z, NilZero.string_of_int, NilZero.string_of_uint.
  destruct (Z.to_int n) as [d|d]; destruct d; try reflexivity; simpl; apply uint_plain.
Qed.

Lemma all_of_app (p : ascii -> bool) (a b : string) :
  all_of p (a +:+ b) = all_of p a && all_of p b.
Proof. induction a as [|c a IH]; simpl; [reflexivity|]. now rewrite IH, andb_assoc. Qed.

Lemma append_assoc (a b c : string) : (a +:+ b) +:+ c = a +:+ (b +:+ c).
Proof.
  induction a as [|x a IH]; [reflexivity|].
  change (String x ((a +:+ b) +:+ c) = String x (a +:+ (b +:+ c))). now rewrite IH.
Qed.

Lemma search_path_shape (query : jsval) (limit : Z) :
  Account.search_path query limit
  = "/services/frontend-service/search-metadata?search="
    +:+ Web.encode (JS.toString query)
    +:+ "&offset=0&limit=" +:+ JS.string_of_Z limit
    +:+ "&companyId=1&filterData=%7B%22filters%22%3A%5B%5D%7D&canCorrect=true".
Proof.
  unfold Account.search_path, Web.searchParams. cbn [map fst snd JS.join].
  rewrite (encode_plain (JS.string_of_Z limit)) by apply string_of_Z_plain.
  change (Web.encode "search") with "search".
  change (Web.encode "offset") with "offset".
  change (Web.encode "0") with "0".
  change (Web.encode "limit") with "limit".
  change (Web.encode "companyId") with "companyId".
  change (Web.encode "1") with "1".
  change (Web.encode "filterData") with "filterData".
  change (Web.encode Account.filterData) with "%7B%22filters%22%3A%5B%5D%7D".
  change (Web.encode "canCorrect") with "canCorrect".
  change (Web.encode "true") with "true".
  rewrite !append_assoc. reflexivity.
Qed.

Lemma mapM_length {A B} (f : A -> result B) (l : list A) (l' : list B) :
  mapM f l = Ok l' -> length l' = length l.
Proof.
  revert l'. induction l as [|x l IH]; simpl; intros l'.
  - intros [= <-]. reflexivity.
  - destruct (f x); [|discriminate]. destruct (mapM f l); [|discriminate].
    intros [= <-]. simpl. f_equal. now apply IH.
Qed.

Lemma slice_end_bound (len : nat) (limit : Z) :
  (Account.slice_end len limit <= len)%nat
  /\ (0 <= limit -> Z.of_nat (Account.slice_end len limit) <= limit).
Proof. unfold Account.slice_end. destruct (Z.ltb_spec limit 0); lia. Qed.

Lemma search_bound (query : jsval) (limit : Z) (w w' : World) (products : list Account.Product) :
  Account.searchProducts query limit w = (Ok products, w') ->
  0 <= limit -> Z.of_nat (length products) <= limit.
Proof.
  unfold Account.searchProducts. unfold bind at 1.
  destruct (Client.makeRequest _ _ false w) as [[r|e] w1]; [|discriminate].
  unfold bind at 1, lift at 1. destruct (JS.get r "data") as [inner|e]; [|discriminate].
  destruct (JS.or _ _) as [| | | | |l|]; try discriminate.
  unfold lift. intros [= E <-] Hl. apply mapM_length in E. rewrite E, length_firstn.
  pose proof (slice_end_bound (length l) limit) as [H1 H2]. specialize (H2 Hl). lia.
Qed.

(** X15.  The path [searchProducts] asks for has the query, percent-encoded,
    as the value of [search] and the limit as the value of [limit]: the
    encoded query holds none of [&], [=], [#], [?] or a space, so that no
    query text can add or end a parameter.  A search that returns gives at
    most [limit] products, for a limit that is not negative. *)
Theorem search_is_escaped_and_bounded (query : jsval) (limit : Z) (w : World) :
  Account.search_path query limit
  = "/services/frontend-service/search-metadata?search="
    +:+ Web.encode (JS.toString query)
    +:+ "&offset=0&limit=" +:+ JS.string_of_Z limit
    +:+ "&companyId=1&filterData=%7B%22filters%22%3A%5B%5D%7D&canCorrect=true"
  /\ all_of url_safe (Web.encode (JS.toString query)) = true
  /\ all_of Web.unreserved (JS.string_of_Z limit) = true
  /\ forall products w',
       Account.searchProducts query limit w = (Ok products, w') ->
       0 <= limit -> Z.of_nat (length products) <= limit.
Proof.
  split; [apply search_path_shape|]. split; [apply encode_safe|].
  split; [apply string_of_Z_plain|]. intros products w'. apply search_bound.
Qed.

(** X16.  The autocomplete of the add-item card never throws and gives at
    most 20 suggestions.  An empty query gives none and sends nothing; a
    search that throws gives none either, the error being logged. *)
Theorem autocomplete_never_fails (query : jsval) (w : World) :
  (JS.truthy query = false -> Cards.onFlowActionAddItemAutocomplete query w = (Ok [], w))
  /\ exists suggestions,
       fst (Cards.onFlowActionAddItemAutocomplete query w) = Ok suggestions
       /\ (length suggestions <= 20)%nat
       /\ forall e w1, JS.truthy query = true ->
            Account.searchProducts query 20 w = (Throw e, w1) ->
            Cards.onFlowActionAddItemAutocomplete query w
            = (Ok [], with_device (Homey.add_log (LogError, "", Some e) (device w1)) w1).
Proof.
  unfold Cards.onFlowActionAddItemAutocomplete. split; [intros ->; reflexivity|].
  destruct (JS.truthy query); cbn [negb].
  2:{ exists []. split; [reflexivity|]. split; [simpl; lia|]. discriminate. }
  unfold try_catch, bind.
  destruct (Account.searchProducts query 20 w) as [[products|e] w1] eqn:E.
  - exists (map Cards.suggestion products). split; [reflexivity|]. split; [|discriminate].
    rewrite length_map. pose proof (search_bound _ _ _ _ _ E ltac:(lia)). lia.
  - exists []. split; [reflexivity|]. split; [simpl; lia|].
    intros e' w1' _ [= <- <-]. reflexivity.
Qed.

End Search.

(** ** The cards that add to the cart *)

Module Adding.
Import Frame Run Executor.

Definition starts_plain (s : string) : bool :=
  match s with
  | String c _ => Regex.is_digit c || Ascii.eqb c "-"
  | EmptyString => true
  end.

Lemma plain_head (c : ascii) :
  implb (Regex.is_digit c || Ascii.eqb c "-")
        (negb (((9 <=? Web.code c)%N && (Web.code c <=? 13)%N) || (Web.code c =? 32)%N)
         && negb (Web.code c =? 194)%N && negb (Web.code c =? 225)%N
         && negb (Web.code c =? 226)%N && negb (Web.code c =? 227)%N
         && negb (Web.code c =? 239)%N) = true.
Proof. revert c. apply Region.ascii_forall. vm_compute. reflexivity. Qed.

Lemma space_width_plain (s : string) : starts_plain s = true -> Web.space_width s = 0%nat.
Proof.
  destruct s as [|c t]; [reflexivity|]. simpl starts_plain. intros H.
  pose proof (plain_head c) as Hc. rewrite H in Hc. simpl in Hc.
  repeat (apply andb_prop in Hc as [Hc ?]).
  repeat match goal with H : negb _ = true |- _ => apply negb_true_iff in H end.
  unfold Web.space_width.
  repeat match goal with H : _ = false |- _ => rewrite H; clear H end.
  cbn [andb]. destruct t as [|b u]; [reflexivity|]. destruct u; reflexivity.
Qed.

Lemma trimStart_plain (s : string) : starts_plain s = true -> Web.trimStart s = s.
Proof.
  intros H. unfold Web.trimStart. destruct (String.length s); [reflexivity|].
  simpl. now rewrite space_width_plain.
Qed.

Lemma append_nil (s : string) : s +:+ "" = s.
Proof.
  induction s as [|c s IH]; [reflexivity|].
  change (String c (s +:+ "") = String c s). now rewrite IH.
Qed.

Lemma take_all_digits (d : string) :
  Numeral.all_digits d = true -> Regex.take_digits d = (d, "").
Proof.
  intros H. pose proof (Numeral.take_digits_app d "" H I) as E.
  now rewrite append_nil in E.
Qed.

(** The integers up to [2^53] are finite Numbers. *)
Lemma number_of_exact (n : Z) : Z.abs n <= 2 ^ 53 -> JS.number_of n = JS.Num n.
Proof.
  intros H. unfold JS.number_of.
  assert (Hf : JS.finite n = true).
  { unfold JS.finite. apply Z.ltb_lt.
    assert (Hb : 2 ^ 53 < 2 ^ 1024 - 2 ^ 970) by (vm_compute; reflexivity).
    revert Hb. generalize (2 ^ 1024 - 2 ^ 970). intros big Hb. lia. }
  rewrite Hf, Numeral.to_number_exact by exact H. reflexivity.
Qed.

(** [parseInt] of a run of digits is the Number of the integer it denotes. *)
Lemma parseInt_digits (d : string) :
  Numeral.all_digits d = true -> d <> "" ->
  Web.parseInt (JStr d) = JS.number_of (Numeral.decimal d).
Proof.
  intros Hd Hne. unfold Web.parseInt. cbn [JS.toString].
  destruct d as [|c d]; [contradiction|].
  pose proof Hd as Hc. simpl in Hc. apply andb_prop in Hc as [Hc _].
  rewrite trimStart_plain by (simpl; now rewrite Hc).
  assert (Hs : (if Ascii.eqb c "-" then (true, d)
                else if Ascii.eqb c "+" then (false, d) else (false, String c d))
               = (false, String c d)).
  { destruct (Ascii.eqb_spec c "-") as [->|_]; [discriminate|].
    destruct (Ascii.eqb_spec c "+") as [->|_]; [discriminate|]. reflexivity. }
  rewrite Hs. cbn [fst snd]. rewrite (take_all_digits _ Hd). cbn [fst].
  rewrite Numeral.parse_digits_decimal. f_equal; lia.
Qed.

Lemma uint_digits (d : Decimal.uint) :
  Numeral.all_digits (NilEmpty.string_of_uint d) = true.
Proof. induction d; simpl; auto. Qed.

Ltac digit_arith :=
  unfold Regex.digit_value;
  match goal with
  | |- context [Z.of_nat ?n] =>
      let v := eval vm_compute in (Z.of_nat n) in change (Z.of_nat n) with v
  end; lia.

Lemma parse_uint_acc (d : Decimal.uint) (a : positive) :
  Regex.parse_digits (Z.pos a) (NilEmpty.string_of_uint d) = Z.pos (Pos.of_uint_acc d a).
Proof.
  revert a. induction d; intros a; simpl; try reflexivity;
    match goal with |- Regex.parse_digits ?x _ = _ =>
      match goal with |- _ = Z.pos (Pos.of_uint_acc _ ?b) =>
        replace x with (Z.pos b) by digit_arith
      end
    end; apply IHd.
Qed.

Lemma parse_uint (d : Decimal.uint) :
  Regex.parse_digits 0 (NilEmpty.string_of_uint d) = Z.of_N (Pos.of_uint d).
Proof.
  induction d; simpl; try reflexivity; try exact IHd;
    match goal with |- Regex.parse_digits ?x _ = Z.pos (Pos.of_uint_acc _ ?b) =>
      replace x with (Z.pos b) by digit_arith
    end; apply parse_uint_acc.
Qed.

Lemma to_uint_string (p : positive) :
  exists c t, NilEmpty.string_of_uint (Pos.to_uint p) = String c t
              /\ Regex.is_digit c = true
              /\ Regex.parse_digits 0 (String c t) = Z.pos p.
Proof.
  pose proof (uint_digits (Pos.to_uint p)) as Hd.
  pose proof (parse_uint (Pos.to_uint p)) as Hp.
  rewrite DecimalPos.Unsigned.of_to in Hp.
  destruct (NilEmpty.string_of_uint (Pos.to_uint p)) as [|c t] eqn:E.
  - simpl in Hp. discriminate.
  - exists c, t. simpl in Hd. apply andb_prop in Hd as [Hc _]. auto.
Qed.

Lemma nilzero_uint (p : positive) :
  NilZero.string_of_uint (Pos.to_uint p) = NilEmpty.string_of_uint (Pos.to_uint p).
Proof.
  unfold NilZero.string_of_uint. destruct (Pos.to_uint p) eqn:E; try reflexivity.
  exfalso. pose proof (DecimalPos.Unsigned.of_to p) as H. rewrite E in H. discriminate.
Qed.

(** The decimal text of [n] is parsed to the Number of [n]; so the text
    [String(n)] of a number up to [2^53] is parsed back to [n]. *)
Lemma parseInt_string_of_Z (n : Z) :
  Web.parseInt (JStr (JS.string_of_Z n)) = JS.number_of n.
Proof.
  unfold Web.parseInt. cbn [JS.toString]. unfold JS.string_of_Z.
  destruct n as [|p|p]; [reflexivity| |].
  - simpl Z.to_int. unfold NilZero.string_of_int. rewrite nilzero_uint.
    destruct (to_uint_string p) as (c & t & E & Hc & Hp). rewrite E.
    rewrite trimStart_plain by (simpl; now rewrite Hc).
    assert (Hd : Numeral.all_digits (String c t) = true)
      by (rewrite <- E; apply uint_digits).
    assert (Hs : (if Ascii.eqb c "-" then (true, t)
                  else if Ascii.eqb c "+" then (false, t) else (false, String c t))
                 = (false, String c t)).
    { destruct (Ascii.eqb_spec c "-") as [->|_]; [discriminate|].
      destruct (Ascii.eqb_spec c "+") as [->|_]; [discriminate|]. reflexivity. }
    rewrite Hs. cbn [fst snd]. rewrite (take_all_digits _ Hd). cbn [fst].
    now rewrite Hp.
  - simpl Z.to_int. unfold NilZero.string_of_int. rewrite nilzero_uint.
    destruct (to_uint_string p) as (c & t & E & Hc & Hp). rewrite E.
    rewrite trimStart_plain by reflexivity.
    assert (Hd : Numeral.all_digits (String c t) = true)
      by (rewrite <- E; apply uint_digits).
    change (Ascii.eqb "-" "-") with true. cbv iota. cbn [fst snd].
    rewrite (take_all_digits _ Hd). cbn [fst].
    rewrite Hp. reflexivity.
Qed.

Lemma makeRequest_first_attempt (url : string) (o : Client.options) (w : World) :
  exists more,
    seen sel_attempt (snd (Client.makeRequest url o false w))
    = seen sel_attempt w ++ call_request url o w :: more.
Proof.
  rewrite makeRequest_unfold. unfold Client.makeRequest_body. unfold bind at 1.
  pose proof (dispatch_attempt url o w) as Ha.
  destruct (Client.dispatch url o w) as [[r|e] w1]; cbn [snd] in *.
  2:{ exists []. exact Ha. }
  destruct (Client.auth_failed r); cbn [negb].
  - unfold bind. pose proof (login_attempt w1) as Hl.
    destruct (Client.login w1) as [[[]|e] w2]; cbn [snd] in *.
    + destruct (retry_run url o w2) as (Hr & _). rewrite Hr, Hl, Ha, <- app_assoc.
      eexists. reflexivity.
    + exists []. congruence.
  - rewrite deliver_attempt. exists []. exact Ha.
Qed.

Lemma updateData_grows (w : World) :
  exists l, trace (env (snd (Device.updateData w))) = trace (env w) ++ l.
Proof.
  destruct (Credentials.updateData_faithful _ _ w (Credentials.faithful_start w))
    as (_ & l & E & _).
  eauto.
Qed.

Lemma then_updateData {A} (m : M A) (w : World) (first : request) (more : list request) :
  seen sel_attempt (snd (m w)) = seen sel_attempt w ++ first :: more ->
  exists more',
    seen sel_attempt (snd ((m ;; Device.updateData) w)) = seen sel_attempt w ++ first :: more'.
Proof.
  intros H. unfold bind. destruct (m w) as [[a|e] w1]; cbn [snd] in *; [|eauto].
  destruct (updateData_grows w1) as (l & E). unfold seen in *.
  rewrite E, pick_app, H, <- app_assoc. simpl. eauto.
Qed.

Section Pieces.

Variable less_than : jsval -> jsval -> bool.

Lemma quantity_defined (pieces : jsval) : Cards.quantity_of less_than pieces <> JUndefined.
Proof.
  unfold Cards.quantity_of.
  destruct (JS.truthy pieces && lt less_than (JNum 0) pieces) eqn:E; [|discriminate].
  intros ->. discriminate.
Qed.

Definition add_options (productId quantity : jsval) : Client.options :=
  {| Client.opt_method := Some "POST"; Client.opt_headers := [];
     Client.opt_body := Some (Account.cart_payload productId quantity) |}.

Lemma addToCart_first_attempt (productId quantity : jsval) (w : World) :
  quantity <> JUndefined ->
  exists more,
    seen sel_attempt (snd (Account.addToCart productId quantity w))
    = seen sel_attempt w
      ++ call_request "/services/frontend-service/v2/cart" (add_options productId quantity) w
         :: more.
Proof.
  intros Hq. unfold Account.addToCart.
  assert (Hd : match quantity with JUndefined => JNum 1 | _ => quantity end = quantity)
    by (destruct quantity; congruence).
  rewrite Hd. fold (add_options productId quantity).
  destruct (makeRequest_first_attempt "/services/frontend-service/v2/cart"
              (add_options productId quantity) w) as (more & E).
  exists more. unfold bind.
  destruct (Client.makeRequest _ _ false w) as [[r|e] w1]; exact E.
Qed.

(** X17.  The add-by-id card.  Without a product id it throws
    [No product ID provided] and sends nothing.  With one, the first request
    it sends is the POST to the cart whose body is the payload of
    [addToCart] for that id and the quantity of the card.  In the payload a
    product id given as a text of decimal digits is the Number that
    [parseInt] reads from it: the number the digits denote when that is at
    most [2^53], the double nearest to it beyond, and [null] when that is
    [Infinity].  The quantity is the number of pieces when that is
    positive, and 1 when it is zero, negative or not given. *)
Theorem add_by_id_posts_the_parsed_id (args : jsval) (w : World) :
  JS.nullish args = false ->
  let product_id := JS.prop args "product_id" in
  let quantity := Cards.quantity_of less_than (JS.prop args "pieces") in
  let run := Cards.onFlowActionAddItemById less_than args w in
  (JS.truthy product_id = false -> run = (Throw (Error "No product ID provided"), w))
  /\ (JS.truthy product_id = true ->
      exists rq more,
        seen sel_attempt (snd run) = seen sel_attempt w ++ rq :: more
        /\ req_url rq = baseUrl (client w) +:+ "/services/frontend-service/v2/cart"
        /\ req_method rq = Some "POST"
        /\ req_body rq = Some (Account.cart_payload product_id quantity))
  /\ (forall d q, Numeral.all_digits d = true -> d <> "" ->
        Account.cart_payload (JStr d) q
        = JObj [("productId", match JS.number_of (Numeral.decimal d) with
                              | JS.Num n => JNum n
                              | JS.NaN | JS.Infinity => JNull
                              end);
                ("quantity", q); ("source", JStr "true:Homey")]
        /\ (Numeral.decimal d <= 2 ^ 53 ->
            Account.cart_payload (JStr d) q
            = JObj [("productId", JNum (Numeral.decimal d)); ("quantity", q);
                    ("source", JStr "true:Homey")]))
  /\ (forall n, Cards.quantity_of less_than (JNum n) = JNum (if 0 <? n then n else 1))
  /\ Cards.quantity_of less_than JUndefined = JNum 1.
Proof.
  intros Hn product_id quantity run. split; [|split; [|split; [|split]]].
  - intros Hf. unfold run, Cards.onFlowActionAddItemById, bind, lift, JS.get.
    rewrite Hn. fold product_id. rewrite Hf. reflexivity.
  - intros Ht.
    assert (Hrun : run = (Account.addToCart product_id quantity ;; Device.updateData) w).
    { unfold run, Cards.onFlowActionAddItemById. unfold bind at 1, lift, JS.get.
      rewrite Hn. fold product_id. rewrite Ht. reflexivity. }
    rewrite Hrun.
    destruct (addToCart_first_attempt product_id quantity w (quantity_defined _)) as (more & E).
    destruct (then_updateData _ w _ _ E) as (more' & E').
    eexists _, more'. split; [exact E'|]. repeat split.
  - intros d q Hd Hne. unfold Account.cart_payload. rewrite parseInt_digits by assumption.
    split; [reflexivity|]. intros Hle.
    rewrite number_of_exact; [reflexivity|].
    pose proof (Numeral.decimal_nonneg d Hd). lia.
  - intros n. unfold Cards.quantity_of, lt. simpl.
    destruct (Z.ltb_spec 0 n), (Z.eqb_spec n 0); simpl; try reflexivity; lia.
  - reflexivity.
Qed.

End Pieces.

Lemma string_of_Z_nonempty (n : Z) : JS.string_of_Z n <> "".
Proof.
  intros E. pose proof (parseInt_string_of_Z n) as H. rewrite E in H.
  unfold JS.number_of in H. destruct (JS.finite n); discriminate.
Qed.

Section Selected.

Variable less_than : jsval -> jsval -> bool.

(** X18.  The add-item card sends the product the user has picked.  The
    suggestion made of a search result whose product id is the number [n],
    of a magnitude up to [2^53], carries the id as the decimal text of [n];
    the card called with that suggestion sends, as its first request, the
    POST to the cart whose body has [productId] the number [n] again, the
    quantity of the card, and the source [true:Homey]. *)
Theorem add_item_posts_the_suggested_product (args p : jsval) (n : Z)
    (found : Account.Product) (w : World) :
  Z.abs n <= 2 ^ 53 ->
  JS.prop p "productId" = JNum n ->
  Account.product p = Ok found ->
  JS.nullish args = false ->
  JS.prop args "product" = Cards.suggestion found ->
  JS.prop (Cards.suggestion found) "id" = JStr (JS.string_of_Z n)
  /\ exists rq more,
       seen sel_attempt (snd (Cards.onFlowActionAddItem less_than args w))
       = seen sel_attempt w ++ rq :: more
       /\ req_url rq = baseUrl (client w) +:+ "/services/frontend-service/v2/cart"
       /\ req_method rq = Some "POST"
       /\ req_body rq
          = Some (JObj [("productId", JNum n);
                        ("quantity", Cards.quantity_of less_than (JS.prop args "pieces"));
                        ("source", JStr "true:Homey")]).
Proof.
  intros Hsafe Hp Hf Hn Ha.
  assert (Hid : Account.id found = JS.string_of_Z n).
  { revert Hf. unfold Account.product, JS.get.
    destruct (JS.nullish p); [discriminate|]. rewrite Hp.
    destruct (JS.nullish (JS.prop p "price")); [discriminate|].
    intros [= <-]. reflexivity. }
  assert (Hsid : JS.prop (Cards.suggestion found) "id" = JStr (JS.string_of_Z n)).
  { change (JS.prop (Cards.suggestion found) "id") with (JStr (Account.id found)).
    now rewrite Hid. }
  split; [exact Hsid|].
  set (quantity := Cards.quantity_of less_than (JS.prop args "pieces")).
  assert (Hrun : Cards.onFlowActionAddItem less_than args w
                 = (Account.addToCart (JStr (JS.string_of_Z n)) quantity ;; Device.updateData) w).
  { unfold Cards.onFlowActionAddItem. unfold bind at 1, lift, JS.get.
    rewrite Hn, Ha, Hsid. cbn [JS.truthy].
    destruct (String.eqb_spec (JS.string_of_Z n) "") as [E|_];
      [destruct (string_of_Z_nonempty n E)|].
    reflexivity. }
  rewrite Hrun.
  destruct (addToCart_first_attempt (JStr (JS.string_of_Z n)) quantity w
              (quantity_defined less_than _)) as (more & E).
  destruct (then_updateData _ w _ _ E) as (more' & E').
  eexists _, more'. split; [exact E'|]. split; [reflexivity|]. split; [reflexivity|].
  cbn [call_request req_body add_options Client.opt_body].
  unfold Account.cart_payload.
  now rewrite parseInt_string_of_Z, (number_of_exact n Hsafe).
Qed.

End Selected.

Definition by_id : jsval := JObj [("product_id", JStr "1234"); ("pieces", JNum 2)].

Lemma add_by_id_1234 :
  exists rq more,
    seen sel_attempt (snd (Cards.onFlowActionAddItemById (fun _ _ => false) by_id Polling.quiet))
    = seen sel_attempt Polling.quiet ++ rq :: more
    /\ req_url rq = "https://www.rohlik.cz/services/frontend-service/v2/cart"
    /\ req_method rq = Some "POST"
    /\ req_body rq = Some (JObj [("productId", JNum 1234); ("quantity", JNum 2);
                                 ("source", JStr "true:Homey")]).
Proof.
  exact (proj1 (proj2 (add_by_id_posts_the_parsed_id (fun _ _ => false) by_id Polling.quiet
                         eq_refl)) eq_refl).
Defined.

Definition butter : jsval :=
  JObj [("productId", JNum 1234); ("productName", JStr "Butter");
        ("price", JObj [("full", JNum 59); ("currency", JStr "CZK")]);
        ("brand", JStr "Madeta"); ("images", JArr [])].

Definition butter_found : Account.Product :=
  {| Account.id := "1234"; Account.name := JStr "Butter"; Account.price := JNum 59;
     Account.currency := JStr "CZK"; Account.brand := JStr "Madeta";
     Account.image := JS.first_opt (JArr []) |}.

Definition selected : jsval := JObj [("product", Cards.suggestion butter_found)].

Lemma add_selected_butter :
  exists rq more,
    seen sel_attempt (snd (Cards.onFlowActionAddItem (fun _ _ => false) selected Polling.quiet))
    = seen sel_attempt Polling.quiet ++ rq :: more
    /\ req_url rq = "https://www.rohlik.cz/services/frontend-service/v2/cart"
    /\ req_method rq = Some "POST"
    /\ req_body rq = Some (JObj [("productId", JNum 1234); ("quantity", JNum 1);
                                 ("source", JStr "true:Homey")]).
Proof.
  exact (proj2 (add_item_posts_the_suggested_product (fun _ _ => false) selected butter 1234
                  butter_found Polling.quiet ltac:(vm_compute; discriminate)
                  eq_refl eq_refl eq_refl eq_refl)).
Defined.

End Adding.

(** ** The card that removes a line *)

Module Removing.
Import Frame Run Executor Adding.

(** X19.  The remove-item card.  Without a selected line, or with one that
    has no id, it throws [No item selected] and sends nothing.  Otherwise
    it calls [removeFromCart] exactly once, with the id of the selected
    line, and the first request it sends is the DELETE of the cart whose
    [orderFieldId] is that id. *)
Theorem remove_selected_line (args : jsval) (w : World) :
  JS.nullish args = false ->
  let item := JS.prop args "product_in_cart" in
  let run := Cards.onFlowActionRemoveItem args w in
  (JS.truthy item && JS.truthy (JS.prop item "id") = false ->
     run = (Throw (Error "No item selected"), w))
  /\ (JS.truthy item && JS.truthy (JS.prop item "id") = true ->
      seen Removal.sel_remove (snd run) = seen Removal.sel_remove w ++ [JS.prop item "id"]
      /\ exists rq more,
           seen sel_attempt (snd run) = seen sel_attempt w ++ rq :: more
           /\ req_method rq = Some "DELETE"
           /\ req_url rq = baseUrl (client w)
                           +:+ "/services/frontend-service/v2/cart?orderFieldId="
                           +:+ JS.toString (JS.prop item "id")).
Proof.
  intros Hn item run. split.
  - intros Hf. unfold run, Cards.onFlowActionRemoveItem, bind, lift, JS.get.
    rewrite Hn. fold item. apply andb_false_iff in Hf.
    destruct (JS.truthy item); cbn [negb orb]; [|reflexivity].
    destruct Hf as [Hf|Hf]; [discriminate|]. rewrite Hf. reflexivity.
  - intros Ht. apply andb_prop in Ht as [H1 H2].
    assert (Hrun : run = (Client.removeFromCart (JS.prop item "id") ;; Device.updateData) w).
    { unfold run, Cards.onFlowActionRemoveItem. unfold bind at 1, lift, JS.get.
      rewrite Hn. fold item. rewrite H1, H2. reflexivity. }
    rewrite Hrun. clear Hrun run.
    set (x := JS.prop item "id").
    set (w0 := with_env (record (Call (RemoveFromCart x)) (env w)) w).
    assert (Hcall : Client.removeFromCart x w
                    = (Client.makeRequest
                         ("/services/frontend-service/v2/cart?orderFieldId=" +:+ JS.toString x)
                         Removal.delete_options false ;; ret true) w0) by reflexivity.
    split.
    + unfold bind at 1. rewrite Hcall.
      assert (Hr : seen Removal.sel_remove w0 = seen Removal.sel_remove w ++ [x]).
      { unfold seen, w0. simpl. rewrite pick_app. reflexivity. }
      assert (Hm : preserves (seen Removal.sel_remove)
                     (Client.makeRequest
                        ("/services/frontend-service/v2/cart?orderFieldId=" +:+ JS.toString x)
                        Removal.delete_options false ;; ret true)).
      { apply preserves_bind; [apply Removal.makeRequest_remove|intro; apply preserves_ret]. }
      specialize (Hm w0).
      destruct ((_ ;; ret true) w0) as [[b|e] w1]; cbn [snd] in *.
      * rewrite Removal.updateData_remove. congruence.
      * congruence.
    + assert (Hfirst : exists more,
        seen sel_attempt (snd (Client.removeFromCart x w))
        = seen sel_attempt w
          ++ call_request ("/services/frontend-service/v2/cart?orderFieldId=" +:+ JS.toString x)
               Removal.delete_options w :: more).
      { rewrite Hcall.
        destruct (makeRequest_first_attempt
                    ("/services/frontend-service/v2/cart?orderFieldId=" +:+ JS.toString x)
                    Removal.delete_options w0) as (more & E).
        assert (H0 : seen sel_attempt w0 = seen sel_attempt w).
        { unfold seen, w0. simpl. rewrite pick_app. simpl. apply app_nil_r. }
        exists more. unfold bind, ret.
        destruct (Client.makeRequest _ _ false w0) as [[r|e] w1]; cbn [snd] in *;
          rewrite E, H0; reflexivity. }
      destruct Hfirst as (more & E).
      destruct (then_updateData _ w _ _ E) as (more' & E').
      eexists _, more'. split; [exact E'|]. split; reflexivity.
Qed.

Definition line_99 : jsval := JObj [("product_in_cart", JObj [("id", JStr "99")])].

Lemma selected_line_is_deleted :
  seen Removal.sel_remove (snd (Cards.onFlowActionRemoveItem line_99 Polling.quiet))
  = [JStr "99"].
Proof.
  exact (proj1 (proj2 (remove_selected_line line_99 Polling.quiet eq_refl) eq_refl)).
Defined.

End Removing.

(** ** What the polls publish, and the pace of a call *)

Module Polls.
Import Frame Run Executor Published.

Lemma manage_armed (status : ShipmentState) (w : World) :
  exists w', Device.manageDeliveryPolling status w = (Ok tt, w')
    /\ (Polling.armed w' <-> status = delivery)
    /\ capabilities (device w') = capabilities (device w)
    /\ env w' = env w.
Proof.
  unfold Device.manageDeliveryPolling, bind, gets, Homey.log, Homey.on_device, modify,
    Polling.armed.
  destruct w as [c e d]. cbn [device].
  destruct (deliveryPollingInterval d) as [h|] eqn:Hd; destruct status;
    eexists; (split; [reflexivity|]); simpl; rewrite ?Hd;
    repeat split; try congruence; try discriminate; intros; exfalso; congruence.
Qed.

(** The end of a tick that has derived [status] and [eta]. *)
Lemma publish_shipment_full (status : ShipmentState) (eta : Z) (w : World) :
  accepting w ->
  exists w',
    Device.publish_shipment status eta w = (Ok tt, w')
    /\ Sink.current "string_next_delivery_status" w' = JStr (state_name status)
    /\ Sink.current "measure_next_delivery_eta" w' = JNum eta
    /\ (Polling.armed w' <-> status = delivery)
    /\ env w' = env w.
Proof.
  intros Hacc. unfold Device.publish_shipment. unfold bind at 1.
  destruct (publish_run "string_next_delivery_status" (JStr (state_name status)) w Hacc)
    as (w1 & -> & C1 & _ & _ & E1 & A1).
  unfold bind at 1.
  destruct (publish_run "measure_next_delivery_eta" (JNum eta) w1 A1)
    as (w2 & -> & C2 & K2 & _ & E2 & A2).
  destruct (manage_armed status w2) as (w3 & -> & Harm & Hcap & E3).
  exists w3. split; [reflexivity|]. unfold Sink.current in *. rewrite Hcap.
  split; [rewrite K2 by discriminate; exact C1|]. split; [exact C2|].
  split; [exact Harm|congruence].
Qed.

(** X20.  A fast poll of a logged-in client whose announcements request is
    answered, on a device that accepts the writes, returns with the state
    and the ETA that [classify] derives from the answer in the two sinks,
    and with the fast timer armed exactly when the state is [delivery].  It
    sends and records nothing beyond the announcements request. *)
Theorem fast_poll_publishes (w w1 : World) (da : jsval) (status : ShipmentState) (eta : Z) :
  JS.truthy (userId (client w)) = true ->
  Client.getDeliveryAnnouncements w = (Ok da, w1) ->
  Device.classify da = Ok (status, eta) ->
  accepting w1 ->
  exists w',
    Device.updateDeliveryStatusOnly w = (Ok tt, w')
    /\ Sink.current "string_next_delivery_status" w' = JStr (state_name status)
    /\ Sink.current "measure_next_delivery_eta" w' = JNum eta
    /\ (Polling.armed w' <-> status = delivery)
    /\ env w' = env w1.
Proof.
  intros Hu E Hc Hacc.
  destruct (publish_shipment_full status eta w1 Hacc) as (w' & Ep & H).
  exists w'. split; [|exact H].
  unfold Device.updateDeliveryStatusOnly, bind at 1, gets. rewrite Hu. cbn [negb].
  unfold try_catch, bind. rewrite E. unfold lift. rewrite Hc. cbn [fst snd].
  rewrite Ep. reflexivity.
Qed.

Definition on_the_way : World :=
  Sample.world_of Sample.client1 [Sample.answers 200 Classifier.seven_minutes].
Definition on_the_way_1 : World :=
  Eval vm_compute in snd (Client.getDeliveryAnnouncements on_the_way).

Lemma on_the_way_answer :
  Client.getDeliveryAnnouncements on_the_way = (Ok Classifier.seven_minutes, on_the_way_1).
Proof. vm_compute. reflexivity. Qed.

Lemma fast_poll_seven_minutes :
  exists w',
    Device.updateDeliveryStatusOnly on_the_way = (Ok tt, w')
    /\ Sink.current "string_next_delivery_status" w' = JStr "delivery"
    /\ Sink.current "measure_next_delivery_eta" w' = JNum 7
    /\ (Polling.armed w' <-> delivery = delivery)
    /\ env w' = env on_the_way_1.
Proof.
  exact (fast_poll_publishes on_the_way on_the_way_1 Classifier.seven_minutes delivery 7
           eq_refl on_the_way_answer eq_refl (fun _ _ => eq_refl)).
Defined.

(** Sinks other than the one written keep their value. *)
Lemma set_other (k k' : string) (v : jsval) :
  k' <> k -> preserves (Sink.current k) (Homey.setCapabilityValue k' v).
Proof.
  intros Hk w. unfold Homey.setCapabilityValue, bind, gets, Homey.on_device, modify.
  unfold Sink.current.
  destruct (sinkAccepts (device w) k' v); simpl; [|reflexivity].
  rewrite lookup_insert_ne by exact Hk. reflexivity.
Qed.

Lemma device_only {A} (k : string) (m : M A) :
  preserves device m -> preserves (Sink.current k) m.
Proof. intros H w. unfold Sink.current. now rewrite H. Qed.

Ltac sink_step :=
  first
  [ match goal with
    | |- preserves _ (updateCapabilityValue _ _) => apply Conditions.publish_other; discriminate
    | |- preserves _ (Homey.setCapabilityValue _ _) => apply set_other; discriminate
    | |- preserves _ (Client.dispatch _ _) => apply device_only, Ticks.dispatch_device
    | |- preserves _ Client.login => apply device_only, Ticks.login_device
    end
  | apply preserves_bind; [|intro]
  | apply preserves_try_catch; [|intro]
  | apply preserves_when
  | apply preserves_all2
  | match goal with
    | |- preserves _ (match ?x with _ => _ end) => destruct x
    | |- preserves _ (if ?x then _ else _) => destruct x
    end
  | progress unfold Client.makeRequest, Client.makeRequest_body, Client.deliver, Client.emit,
      Client.getUpcomingOrders, Client.getReusableBagsInfo, Client.getDeliveryAnnouncements,
      on_reusable_bags, Device.publish_shipment, Device.general_upcoming,
      Device.general_delivery, Device.general_bags
  | frame_step ].

Lemma rest_keeps_cart (k : string) :
  k = "measure_cart_total" \/ k = "measure_cart_items" ->
  preserves (Sink.current k)
    (Device.general_upcoming ;; Device.general_delivery ;; Device.general_bags).
Proof. intros [->| ->]; repeat sink_step. Qed.

Lemma cart_lines (w w1 : World) (cart : Client.Cart) :
  Client.getCartContent w = (Ok cart, w1) ->
  Client.totalItems cart = Z.of_nat (length (Client.items cart)).
Proof.
  unfold Client.getCartContent, bind, Client.on_env, modify, lift, ret.
  destruct (Client.makeRequest _ _ false _) as [[r|e] w2]; [|discriminate].
  destruct (JS.get r "data"); [|discriminate].
  destruct (mapM _ _); [|discriminate].
  intros [= <- _]. reflexivity.
Qed.

(** X21.  A general tick of a logged-in client whose cart read returns
    leaves, on a device that accepts the writes, the total price of the
    cart in [measure_cart_total] and the number of its lines in
    [measure_cart_items], whatever the later requests of the tick do. *)
Theorem general_tick_publishes_cart (w w1 : World) (cart : Client.Cart) :
  JS.truthy (userId (client w)) = true ->
  Client.getCartContent w = (Ok cart, w1) ->
  accepting w1 ->
  let w' := snd (Device.updateGeneralData w) in
  Sink.current "measure_cart_total" w' = Client.totalPrice cart
  /\ Sink.current "measure_cart_items" w' = JNum (Client.totalItems cart)
  /\ Client.totalItems cart = Z.of_nat (length (Client.items cart)).
Proof.
  intros Hu E Hacc w'. split; [|split; [|exact (cart_lines _ _ _ E)]].
  all: subst w'; unfold Device.updateGeneralData, bind at 1, gets; rewrite Hu; cbn [negb];
    unfold bind at 1; unfold Device.general_cart at 1; unfold bind at 1; rewrite E;
    unfold bind at 1;
    destruct (publish_run "measure_cart_total" (Client.totalPrice cart) w1 Hacc)
      as (w2 & -> & C2 & _ & _ & _ & A2);
    destruct (publish_run "measure_cart_items" (JNum (Client.totalItems cart)) w2 A2)
      as (w3 & -> & C3 & K3 & _ & _ & A3).
  - rewrite (rest_keeps_cart "measure_cart_total" (or_introl eq_refl) w3).
    rewrite K3 by discriminate. exact C2.
  - rewrite (rest_keeps_cart "measure_cart_items" (or_intror eq_refl) w3). exact C3.
Qed.

Lemma cart_published :
  let w' := snd (Device.updateGeneralData Removal.shopping) in
  Sink.current "measure_cart_total" w' = JNum 25
  /\ Sink.current "measure_cart_items" w' = JNum 1
  /\ 1 = Z.of_nat (length [Removal.the_line]).
Proof.
  exact (general_tick_publishes_cart Removal.shopping Removal.cart_was_read Removal.the_cart
           eq_refl Removal.shopping_cart (fun _ _ => eq_refl)).
Defined.

(** X22.  The requests one call of [makeRequest] puts on the wire, the
    login and the retry included, keep the pace of the rate limiter when
    no timer fires early and no other call runs meanwhile: from a client
    whose requests so far were at least 100 ms apart and whose timers to
    come are punctual ([Wire.paced]), consecutive requests are still at
    least 100 ms apart after the call, so that [n] requests span at least
    [(n - 1) * 100] ms. *)
Theorem requests_of_a_call_are_paced (url : string) (o : Client.options) (isRetry : bool)
    (w : World) :
  Wire.paced w ->
  let w' := snd (Client.makeRequest url o isRetry w) in
  Wire.paced w'
  /\ Wire.apart (Wire.dispatched w')
  /\ forall first rest, Wire.dispatched w' = first :: rest ->
       (Z.of_nat (length (Wire.dispatched w')) - 1) * 100 <= List.last rest first - first.
Proof.
  intros Hw w'. pose proof (Wire.makeRequest_paced url o isRetry w Hw) as Hp. fold w' in Hp.
  split; [exact Hp|]. split; [destruct Hp as (_ & _ & Ha & _); exact Ha|].
  intros first rest. now apply Wire.paced_span.
Qed.

Lemma expired_call_is_paced :
  let w' := snd (Client.makeRequest "/api/v3/orders/upcoming" Client.no_options false
                   (Sample.world_of Sample.client0
                      [Responds Executor.forbidden; Sample.login_accepted;
                       Responds Executor.forbidden])) in
  Wire.paced w'
  /\ Wire.apart (Wire.dispatched w')
  /\ forall first rest, Wire.dispatched w' = first :: rest ->
       (Z.of_nat (length (Wire.dispatched w')) - 1) * 100 <= List.last rest first - first.
Proof.
  exact (requests_of_a_call_are_paced "/api/v3/orders/upcoming" Client.no_options false _
           (Wire.new_client_paced Sample.client0 _ eq_refl eq_refl)).
Defined.

End Polls.
